(** * ol-transform: the Transform pointer interaction

    A shallow embedding of [src/features/HandleFeature.ts] (the bundle holding
    [HandleFeature], the [util] helpers, [TransformEvent] and the [Transform]
    interaction) together with the properties of the transform gestures.

    Conventions of the embedding.
    - JavaScript numbers are read as real numbers ([R]); [Math.cos], [Math.sin],
      [Math.sqrt], [Math.PI] are the Standard Library's [cos], [sin], [sqrt],
      [PI].  [NaN] and the infinities have no counterpart, so statements that
      divide by a box width or height ask for it to be non-zero.
    - Body features are objects owned by the host application: they live in a
      [Store] addressed by object identity ([FeatId]); the selection holds
      references, the snapshot holds the clones themselves.
    - A thrown [TypeError] (reading a property of [undefined]) is the [None]
      of the option monad.
    - Styles are left out of the state: they never reach a geometry, an
      attribute or a notification.  The rule that picks the stroke colour of
      the handles is embedded on its own. *)

From Stdlib Require Import Reals Lra Lia List ZArith Bool Arith Permutation.
From Stdlib Require String.
Import ListNotations.
Local Open Scope R_scope.

(** ** The error monad *)

Definition bind {A B : Type} (m : option A) (k : A -> option B) : option B :=
  match m with
  | Some a => k a
  | None => None
  end.

Notation "x <- m ;; k" := (bind m (fun x => k))
  (at level 61, m at next level, right associativity).
Notation "' p <- m ;; k" := (bind m (fun x => let p := x in k))
  (at level 61, p pattern, m at next level, right associativity).

(** ** JavaScript arithmetic *)

Module JsMath.

(** [x < y] as a boolean. *)
Definition ltb (x y : R) : bool := if Rlt_dec x y then true else false.

(** [Math.min(a, b, c, d)] and [Math.max(a, b, c, d)]. *)
Definition min4 (a b c d : R) : R := Rmin (Rmin (Rmin a b) c) d.
Definition max4 (a b c d : R) : R := Rmax (Rmax (Rmax a b) c) d.

(** [Math.atan2(y, x)]: the angle of the point [(x, y)], in [(-PI, PI]]. *)
Definition atan2 (y x : R) : R :=
  if Rlt_dec 0 x then atan (y / x)
  else if Rlt_dec x 0 then
    (if Rle_dec 0 y then atan (y / x) + PI else atan (y / x) - PI)
  else if Rlt_dec 0 y then PI / 2
  else if Rlt_dec y 0 then - (PI / 2)
  else 0.

(** Rounding towards zero. *)
Definition trunc (x : R) : Z :=
  if Rle_dec 0 x then Int_part x else (- Int_part (- x))%Z.

(** The [%] operator: the remainder takes the sign of the dividend,
    [n % d = n - d * trunc (n / d)]. *)
Definition rem (n d : R) : R := n - d * IZR (trunc (n / d)).

End JsMath.

(** ** Geometry primitives of the host library

    Modelled from the spec: the geometry primitives [clone], [translate],
    [rotate], [scale], [getExtent], [getCenter], [boundingExtent] and
    [fromExtent] belong to the map library, not to this repository; they are
    given their standard Euclidean meaning on coordinate arrays (section 6 of
    the specification).  A geometry always has at least one coordinate. *)

Definition Coordinate : Type := R * R.

Record Extent : Type := mkExtent { minX : R; minY : R; maxX : R; maxY : R }.

Inductive Geometry : Type :=
| Point (c : Coordinate)
| Area (c : Coordinate) (cs : list Coordinate).

Module Ol.

Definition getCoordinates (g : Geometry) : list Coordinate :=
  match g with
  | Point c => [c]
  | Area c cs => c :: cs
  end.

Definition applyTransform (f : Coordinate -> Coordinate) (g : Geometry) : Geometry :=
  match g with
  | Point c => Point (f c)
  | Area c cs => Area (f c) (map f cs)
  end.

Definition translateCoord (dx dy : R) (c : Coordinate) : Coordinate :=
  (fst c + dx, snd c + dy).

Definition rotateCoord (angle : R) (anchor c : Coordinate) : Coordinate :=
  let deltaX := fst c - fst anchor in
  let deltaY := snd c - snd anchor in
  (fst anchor + deltaX * cos angle - deltaY * sin angle,
   snd anchor + deltaX * sin angle + deltaY * cos angle).

Definition scaleCoord (sx sy : R) (anchor c : Coordinate) : Coordinate :=
  let deltaX := fst c - fst anchor in
  let deltaY := snd c - snd anchor in
  (fst anchor + sx * deltaX, snd anchor + sy * deltaY).

(** [geom.translate(dx, dy)], [geom.rotate(angle, anchor)],
    [geom.scale(sx, sy, anchor)]. *)
Definition translate (dx dy : R) : Geometry -> Geometry :=
  applyTransform (translateCoord dx dy).
Definition rotate (angle : R) (anchor : Coordinate) : Geometry -> Geometry :=
  applyTransform (rotateCoord angle anchor).
Definition scale (sx sy : R) (anchor : Coordinate) : Geometry -> Geometry :=
  applyTransform (scaleCoord sx sy anchor).

Definition extendCoordinate (e : Extent) (c : Coordinate) : Extent :=
  {| minX := Rmin (minX e) (fst c); minY := Rmin (minY e) (snd c);
     maxX := Rmax (maxX e) (fst c); maxY := Rmax (maxY e) (snd c) |}.

(** [boundingExtent([c, ...cs])]. *)
Definition boundingExtent (c : Coordinate) (cs : list Coordinate) : Extent :=
  fold_left extendCoordinate cs (mkExtent (fst c) (snd c) (fst c) (snd c)).

Definition getExtent (g : Geometry) : Extent :=
  match g with
  | Point c => boundingExtent c []
  | Area c cs => boundingExtent c cs
  end.

Definition getCenter (e : Extent) : Coordinate :=
  ((minX e + maxX e) / 2, (minY e + maxY e) / 2).

(** [fromExtent(extent)]: the rectangle as a closed ring. *)
Definition fromExtent (e : Extent) : Geometry :=
  Area (minX e, minY e)
       [(minX e, maxY e); (maxX e, maxY e); (maxX e, minY e); (minX e, minY e)].

End Ol.

(** ** util *)

(** [rearrangeCoords]: the corners in the order
    [0 3 / 1 2], closed by repeating the first one. *)
Definition rearrangeCoords (coords : list Coordinate) : option (list Coordinate) :=
  match coords with
  | c0 :: c1 :: c2 :: c3 :: _ =>
      let minX := JsMath.min4 (fst c0) (fst c1) (fst c2) (fst c3) in
      let maxX := JsMath.max4 (fst c0) (fst c1) (fst c2) (fst c3) in
      let minY := JsMath.min4 (snd c0) (snd c1) (snd c2) (snd c3) in
      let maxY := JsMath.max4 (snd c0) (snd c1) (snd c2) (snd c3) in
      Some [(minX, maxY); (minX, minY); (maxX, minY); (maxX, maxY); (minX, maxY)]
  | _ => None
  end.

Definition calcSize (c1 c2 : Coordinate) : R * R :=
  (Rabs (fst c1 - fst c2), Rabs (snd c1 - snd c2)).

Definition calcDistance (c1 c2 : Coordinate) : R :=
  let '(width, height) := calcSize c1 c2 in
  sqrt (width ^ 2 + height ^ 2).

(** ** Features, handles, notifications *)

Definition FeatId : Type := nat.

(** A body feature: its geometry and its ["angle"] attribute. *)
Record Feature : Type := mkFeature {
  geometry : Geometry;
  angle : option R
}.

Definition Store : Type := FeatId -> Feature.

Inductive TransformMode : Type := idle | translate | scale | rotate.

Record HandleFeature : Type := mkHandle {
  hgeometry : Geometry;
  body : FeatId;
  mode : TransformMode;
  index : Z
}.

Inductive TransformEventType : Type :=
| mousedown | mousemove | mouseup
| transformstart | transforming | transformend
| translatestart | translating | translateend
| rotatestart | rotating | rotateend
| scalestart | scaling | scaleend.

Record TransformEvent : Type := mkEvent {
  type : TransformEventType;
  startCoordinate : Coordinate;
  coordinate : Coordinate
}.

(** What the hit test reports under the pointer: a handle of the overlay or a
    body feature, with the outcome of the three guards of the callback. *)
Inductive Pick : Type :=
| Body (feat : FeatId)
| Handle (h : HandleFeature).

Record Candidate : Type := mkCandidate {
  target : Pick;
  isFeature : bool;
  hasGeometry : bool;
  shouldGet : bool
}.

Inductive PointerEventType : Type :=
| pointerdown | pointerdrag | pointerup | pointermove.

(** A pointer event of the map: where it is, what kind it is, the features
    the host finds at its pixel on the accepted layers (front first), and
    whether the additive modifier is held. *)
Record MapBrowserEvent : Type := mkMapEvent {
  evtType : PointerEventType;
  evtCoordinate : Coordinate;
  atPixel : list Candidate;
  addCondition : bool
}.

(** ** The interaction's state *)

Record RotationSelection : Type := mkRotation {
  rotAngle : R;
  rotCenter : Coordinate
}.

Record ScalingSelection : Type := mkScaling {
  scAngle : R;
  w : R;
  h : R;
  handleIdx : Z;
  oppositeIdx : Z;
  oppositeCoord : Coordinate;
  startCoord : Coordinate
}.

Record Transform : Type := mkTransform {
  store : Store;
  _selections : list FeatId;
  _prevSelections : list Feature;
  _handleLayer : list HandleFeature;
  _mode : TransformMode;
  _isTransformed : bool;
  _startCoord : Coordinate;
  _prevCoord : Coordinate;
  _rotationSelection : RotationSelection;
  _scalingSelection : ScalingSelection;
  _headInverted : bool;
  handlingDownUpSequence : bool;
  dispatched : list TransformEvent
}.

Definition scaleHandlesLength : Z := 8.

Definition mode_eqb (a b : TransformMode) : bool :=
  match a, b with
  | idle, idle | translate, translate | scale, scale | rotate, rotate => true
  | _, _ => false
  end.

Section Setters.
Variable t : Transform.

Definition setStore (v : Store) : Transform :=
  mkTransform v (_selections t) (_prevSelections t) (_handleLayer t) (_mode t)
    (_isTransformed t) (_startCoord t) (_prevCoord t) (_rotationSelection t)
    (_scalingSelection t) (_headInverted t) (handlingDownUpSequence t) (dispatched t).
Definition setSelections (v : list FeatId) : Transform :=
  mkTransform (store t) v (_prevSelections t) (_handleLayer t) (_mode t)
    (_isTransformed t) (_startCoord t) (_prevCoord t) (_rotationSelection t)
    (_scalingSelection t) (_headInverted t) (handlingDownUpSequence t) (dispatched t).
Definition setPrevSelections (v : list Feature) : Transform :=
  mkTransform (store t) (_selections t) v (_handleLayer t) (_mode t)
    (_isTransformed t) (_startCoord t) (_prevCoord t) (_rotationSelection t)
    (_scalingSelection t) (_headInverted t) (handlingDownUpSequence t) (dispatched t).
Definition setHandleLayer (v : list HandleFeature) : Transform :=
  mkTransform (store t) (_selections t) (_prevSelections t) v (_mode t)
    (_isTransformed t) (_startCoord t) (_prevCoord t) (_rotationSelection t)
    (_scalingSelection t) (_headInverted t) (handlingDownUpSequence t) (dispatched t).
Definition setMode (v : TransformMode) : Transform :=
  mkTransform (store t) (_selections t) (_prevSelections t) (_handleLayer t) v
    (_isTransformed t) (_startCoord t) (_prevCoord t) (_rotationSelection t)
    (_scalingSelection t) (_headInverted t) (handlingDownUpSequence t) (dispatched t).
Definition setIsTransformed (v : bool) : Transform :=
  mkTransform (store t) (_selections t) (_prevSelections t) (_handleLayer t) (_mode t)
    v (_startCoord t) (_prevCoord t) (_rotationSelection t)
    (_scalingSelection t) (_headInverted t) (handlingDownUpSequence t) (dispatched t).
Definition setStartCoord (v : Coordinate) : Transform :=
  mkTransform (store t) (_selections t) (_prevSelections t) (_handleLayer t) (_mode t)
    (_isTransformed t) v (_prevCoord t) (_rotationSelection t)
    (_scalingSelection t) (_headInverted t) (handlingDownUpSequence t) (dispatched t).
Definition setPrevCoord (v : Coordinate) : Transform :=
  mkTransform (store t) (_selections t) (_prevSelections t) (_handleLayer t) (_mode t)
    (_isTransformed t) (_startCoord t) v (_rotationSelection t)
    (_scalingSelection t) (_headInverted t) (handlingDownUpSequence t) (dispatched t).
Definition setRotationSelection (v : RotationSelection) : Transform :=
  mkTransform (store t) (_selections t) (_prevSelections t) (_handleLayer t) (_mode t)
    (_isTransformed t) (_startCoord t) (_prevCoord t) v
    (_scalingSelection t) (_headInverted t) (handlingDownUpSequence t) (dispatched t).
Definition setScalingSelection (v : ScalingSelection) : Transform :=
  mkTransform (store t) (_selections t) (_prevSelections t) (_handleLayer t) (_mode t)
    (_isTransformed t) (_startCoord t) (_prevCoord t) (_rotationSelection t)
    v (_headInverted t) (handlingDownUpSequence t) (dispatched t).
Definition setHeadInverted (v : bool) : Transform :=
  mkTransform (store t) (_selections t) (_prevSelections t) (_handleLayer t) (_mode t)
    (_isTransformed t) (_startCoord t) (_prevCoord t) (_rotationSelection t)
    (_scalingSelection t) v (handlingDownUpSequence t) (dispatched t).
Definition setHandling (v : bool) : Transform :=
  mkTransform (store t) (_selections t) (_prevSelections t) (_handleLayer t) (_mode t)
    (_isTransformed t) (_startCoord t) (_prevCoord t) (_rotationSelection t)
    (_scalingSelection t) (_headInverted t) v (dispatched t).
Definition setDispatched (v : list TransformEvent) : Transform :=
  mkTransform (store t) (_selections t) (_prevSelections t) (_handleLayer t) (_mode t)
    (_isTransformed t) (_startCoord t) (_prevCoord t) (_rotationSelection t)
    (_scalingSelection t) (_headInverted t) (handlingDownUpSequence t) v.
End Setters.

(** [feat.setGeometry(geom)] and [feat.set("angle", a)] on a stored feature;
    an in-place [geom.translate] / [geom.rotate] of a stored feature's
    geometry is [setGeometry] of the moved coordinates. *)
Definition storeSetGeometry (id : FeatId) (g : Geometry) (st : Store) : Store :=
  fun j => if Nat.eqb j id then mkFeature g (angle (st j)) else st j.

Definition storeSetAngle (id : FeatId) (a : R) (st : Store) : Store :=
  fun j => if Nat.eqb j id then mkFeature (geometry (st j)) (Some a) else st j.

(** [feat.clone()]: a fresh feature with a cloned geometry and a copy of the
    attributes. *)
Definition clone (f : Feature) : Feature := mkFeature (geometry f) (angle f).

(** ** Transform: private helpers *)

Definition dispatchTransformEvent (ty : TransformEventType) (evt : MapBrowserEvent)
    (t : Transform) : Transform :=
  setDispatched t (dispatched t ++ [mkEvent ty (_startCoord t) (evtCoordinate evt)]).

Definition rotatePoint (p anchor : Coordinate) (angle : R) : Coordinate :=
  let '(x, y) := p in
  let '(ax, ay) := anchor in
  ((x - ax) * cos angle - (y - ay) * sin angle + ax,
   (x - ax) * sin angle + (y - ay) * cos angle + ay).

(** [getCenter(boundingExtent([a, b]))]. *)
Definition centerOf (a b : Coordinate) : Coordinate :=
  Ol.getCenter (Ol.boundingExtent a [b]).

(** [calcScaleHandleCoord]: handle positions
    [0 7 6 / 1 5 / 2 3 4] on the ring [tl, bl, br, tr]; a corner missing from
    [coords] is [undefined]. *)
Definition calcScaleHandleCoord (coords : list Coordinate) (handleIdx : Z)
    : option Coordinate :=
  let tl := nth_error coords 0 in
  let bl := nth_error coords 1 in
  let br := nth_error coords 2 in
  let tr := nth_error coords 3 in
  match handleIdx with
  | 0%Z => tl
  | 1%Z => a <- tl ;; b <- bl ;; Some (centerOf a b)
  | 2%Z => bl
  | 3%Z => a <- bl ;; b <- br ;; Some (centerOf a b)
  | 4%Z => br
  | 5%Z => a <- br ;; b <- tr ;; Some (centerOf a b)
  | 6%Z => tr
  | 7%Z => a <- tr ;; b <- tl ;; Some (centerOf a b)
  | _ => Some (0, 0)
  end.

(** The oriented box of a geometry with stored angle [angle]: the block
    written out three times in the source (pointer-down, scale frame,
    [genHandles]): undo the rotation about the extent's center, take the
    extent, reorder its corners, rotate them back. *)
Definition orientedBox (angle : R) (geom : Geometry) : option (list Coordinate) :=
  let normalGeo := geom in
  let normalCenter := Ol.getCenter (Ol.getExtent normalGeo) in
  let normalGeo := Ol.rotate (- angle) normalCenter normalGeo in
  let normalExt := Ol.getExtent normalGeo in
  let polygon := Ol.fromExtent normalExt in
  ring <- rearrangeCoords (Ol.getCoordinates polygon) ;;
  Some (map (Ol.rotateCoord angle normalCenter) ring).

(** [feat.get("angle") ?? 0]. *)
Definition angleOrZero (f : Feature) : R :=
  match angle f with
  | Some a => a
  | None => 0
  end.

Definition genTranslateHandle (t : Transform) (feat : FeatId) : HandleFeature :=
  let geom := geometry (store t feat) in
  match geom with
  | Point coord => mkHandle (Point coord) feat translate (-1)
  | Area _ _ => mkHandle (Ol.fromExtent (Ol.getExtent geom)) feat translate (-1)
  end.

(** The [for] loop of [genHandles]: [n] more rounds from index [i]. *)
Fixpoint genScaleHandles (coords : list Coordinate) (feat : FeatId) (n : nat) (i : Z)
    (handles : list HandleFeature) : option (list HandleFeature) :=
  match n with
  | O => Some handles
  | S n' =>
      coord <- calcScaleHandleCoord coords i ;;
      genScaleHandles coords feat n' (i + 1)%Z
        (handles ++ [mkHandle (Point coord) feat scale i])
  end.

Definition genHandles (t : Transform) (feat : FeatId) : option (list HandleFeature) :=
  let geom := geometry (store t feat) in
  match geom with
  | Point _ => Some []
  | Area _ _ =>
      let angle := angleOrZero (store t feat) in
      coords <- orientedBox angle geom ;;
      headCoord <- calcScaleHandleCoord coords 7 ;;
      let rotateHandle := mkHandle (Point headCoord) feat rotate (-1) in
      genScaleHandles coords feat (Z.to_nat scaleHandlesLength) 0 [rotateHandle]
  end.

(** The body of [drawHandles]' [forEach], from index [i] on. *)
Fixpoint drawHandlesFrom (sels : list FeatId) (i : nat) (t : Transform)
    : option Transform :=
  match sels with
  | [] => Some t
  | sel :: rest =>
      t1 <- (if Nat.eqb i 0
             then handles <- genHandles t sel ;;
                  Some (setHandleLayer t (_handleLayer t ++ handles))
             else Some t) ;;
      let handle := genTranslateHandle t1 sel in
      drawHandlesFrom rest (S i) (setHandleLayer t1 (_handleLayer t1 ++ [handle]))
  end.

Definition drawHandles (t : Transform) : option Transform :=
  drawHandlesFrom (_selections t) 0 (setHandleLayer t []).

(** ** The selection collection

    Every [add] and [remove] of [_selections] runs the listener installed by
    the constructor, [drawHandles]. *)

Definition removeNth {A : Type} (i : nat) (l : list A) : list A :=
  firstn i l ++ skipn (S i) l.

Definition selPush (feat : FeatId) (t : Transform) : option Transform :=
  drawHandles (setSelections t (_selections t ++ [feat])).

Definition selRemoveAt (i : Z) (t : Transform) : option Transform :=
  if (i <? 0)%Z || (Z.of_nat (length (_selections t)) <=? i)%Z then Some t
  else drawHandles (setSelections t (removeNth (Z.to_nat i) (_selections t))).

(** [clear()] pops until the collection is empty; [n] bounds the rounds. *)
Fixpoint selClearLoop (n : nat) (t : Transform) : option Transform :=
  match n with
  | O => Some t
  | S n' =>
      match _selections t with
      | [] => Some t
      | _ :: _ =>
          t1 <- selRemoveAt (Z.of_nat (length (_selections t)) - 1) t ;;
          selClearLoop n' t1
      end
  end.

Definition selClear (t : Transform) : option Transform :=
  selClearLoop (length (_selections t)) t.

(** [array.indexOf(feat)], [-1] when absent. *)
Fixpoint indexOfFrom (feat : FeatId) (l : list FeatId) (i : Z) : Z :=
  match l with
  | [] => (-1)%Z
  | x :: rest => if Nat.eqb x feat then i else indexOfFrom feat rest (i + 1)%Z
  end.

Definition indexOf (feat : FeatId) (l : list FeatId) : Z := indexOfFrom feat l 0.

(** The callback handed to [forEachFeatureAtPixel]. *)
Definition selectCallback (evt : MapBrowserEvent) (c : Candidate) (t : Transform)
    : option (Transform * option Pick) :=
  if negb (isFeature c) || negb (hasGeometry c) || negb (shouldGet c)
  then Some (t, None)
  else
    match target c with
    | Handle hf => Some (t, Some (Handle hf))
    | Body feat =>
        let i := indexOf feat (_selections t) in
        t1 <- (if addCondition evt
               then (if (i =? -1)%Z then selPush feat t else selRemoveAt i t)
               else (if (i =? -1)%Z
                     then t0 <- selClear t ;; selPush feat t0
                     else Some t)) ;;
        Some (t1, Some (Body feat))
    end.

(** [forEachFeatureAtPixel]: the first candidate for which the callback
    returns a value ends the walk. *)
Fixpoint forEachFeatureAtPixel (evt : MapBrowserEvent) (cands : list Candidate)
    (t : Transform) : option (Transform * option Pick) :=
  match cands with
  | [] => Some (t, None)
  | c :: rest =>
      '(t1, r) <- selectCallback evt c t ;;
      match r with
      | Some p => Some (t1, Some p)
      | None => forEachFeatureAtPixel evt rest t1
      end
  end.

Definition selectFeature (evt : MapBrowserEvent) (t : Transform)
    : option (Transform * option Pick) :=
  forEachFeatureAtPixel evt (atPixel evt) t.

(** ** Transform: the pointer handlers *)

(** The state of a freshly constructed interaction over an application
    store. *)
Definition newTransform (st : Store) : Transform :=
  {| store := st;
     _selections := [];
     _prevSelections := [];
     _handleLayer := [];
     _mode := idle;
     _isTransformed := false;
     _startCoord := (0, 0);
     _prevCoord := (0, 0);
     _rotationSelection := mkRotation 0 (0, 0);
     _scalingSelection := mkScaling 0 0 0 (-1) (-1) (0, 0) (0, 0);
     _headInverted := false;
     handlingDownUpSequence := false;
     dispatched := [] |}.

(** The mode-specific notification of a phase, none while idle. *)
Definition dispatchForMode (onTranslate onRotate onScale : TransformEventType)
    (evt : MapBrowserEvent) (t : Transform) : Transform :=
  match _mode t with
  | translate => dispatchTransformEvent onTranslate evt t
  | rotate => dispatchTransformEvent onRotate evt t
  | scale => dispatchTransformEvent onScale evt t
  | idle => t
  end.

(** [Math.round(Transform.scaleHandlesLength * 0.5)]. *)
Definition halfRing : Z := (scaleHandlesLength / 2)%Z.

(** The initial setting of a gesture started on the handle [hf]. *)
Definition initHandleGesture (evt : MapBrowserEvent) (hf : HandleFeature)
    (t : Transform) : option Transform :=
  let t := setMode t (mode hf) in
  let feat := body hf in
  let geom := geometry (store t feat) in
  match _mode t with
  | translate => Some (setPrevCoord t (evtCoordinate evt))
  | rotate =>
      let center := Ol.getCenter (Ol.getExtent geom) in
      Some (setRotationSelection t
              (mkRotation
                 (JsMath.atan2 (snd (_startCoord t) - snd center)
                               (fst (_startCoord t) - fst center))
                 center))
  | scale =>
      let angle := angleOrZero (store t feat) in
      coords <- orientedBox angle geom ;;
      let index := index hf in
      let oppositeIdx := Z.rem (index + halfRing) scaleHandlesLength in
      oppositeCoord <- calcScaleHandleCoord coords oppositeIdx ;;
      grabbed <- calcScaleHandleCoord coords index ;;
      let startCoord := rotatePoint grabbed oppositeCoord (- angle) in
      c0 <- nth_error coords 0 ;;
      c1 <- nth_error coords 1 ;;
      c2 <- nth_error coords 2 ;;
      Some (setScalingSelection t
              (mkScaling angle (calcDistance c1 c2) (calcDistance c0 c1)
                 index oppositeIdx oppositeCoord startCoord))
  | idle => Some t
  end.

Definition handleDownEvent (evt : MapBrowserEvent) (t : Transform)
    : option (Transform * bool) :=
  '(t, handleOrBody) <- selectFeature evt t ;;
  t <- (match handleOrBody with
        | None => selClear t
        | Some _ => Some t
        end) ;;
  let t := setPrevSelections t [] in
  let t := setPrevSelections t
             (_prevSelections t ++ map (fun feat => clone (store t feat)) (_selections t)) in
  let t := dispatchTransformEvent mousedown evt t in
  match handleOrBody with
  | None => Some (t, false)
  | Some picked =>
      let t := setStartCoord t (evtCoordinate evt) in
      t <- (match picked with
            | Body _ =>
                let t := setMode t translate in
                Some (setPrevCoord t (evtCoordinate evt))
            | Handle hf => initHandleGesture evt hf t
            end) ;;
      let t := dispatchForMode translatestart rotatestart scalestart evt t in
      let t := dispatchTransformEvent transformstart evt t in
      Some (t, true)
  end.

(** The translate frame's [forEach] over the live selection. *)
Definition translateEach (dx dy : R) (t : Transform) : Transform :=
  fold_left
    (fun t sel =>
       setStore t (storeSetGeometry sel (Ol.translate dx dy (geometry (store t sel)))
                     (store t)))
    (_selections t) t.

(** The rotate frame's [forEach] over the snapshot, from index [i] on: the
    result is the snapshot as the loop leaves it and the interaction. *)
Fixpoint rotateEach (da : R) (prevs : list Feature) (i : nat) (t : Transform)
    : option (list Feature * Transform) :=
  match prevs with
  | [] => Some ([], t)
  | sel :: rest =>
      let geom := geometry sel in
      let center := Ol.getCenter (Ol.getExtent geom) in
      let geom := Ol.rotate da center geom in
      let sel :=
        match angle sel with
        | Some a => mkFeature (geometry sel) (Some (JsMath.rem (a + da) (2 * PI)))
        | None => sel
        end in
      live <- nth_error (_selections t) i ;;
      let t := setStore t (storeSetGeometry live geom (store t)) in
      '(rest, t) <- rotateEach da rest (S i) t ;;
      Some (sel :: rest, t)
  end.

(** The per-handle sign rule of the scale frame. *)
Definition scaleDeltas (handleIdx : Z) (sx sy x y : R) : R * R :=
  match handleIdx with
  | 0%Z => (sx - x, y - sy)
  | 1%Z => (sx - x, 0)
  | 2%Z => (sx - x, sy - y)
  | 3%Z => (0, sy - y)
  | 4%Z => (x - sx, sy - y)
  | 5%Z => (x - sx, 0)
  | 6%Z => (x - sx, y - sy)
  | 7%Z => (0, y - sy)
  | _ => (0, 0)
  end.

(** [(scaleX, scaleY)] of a scale frame at pointer position [coord].  The
    program's divisions by [w] and [h] are the real ones only when [w] and
    [h] are not zero. *)
Definition scaleFactors (sc : ScalingSelection) (coord : Coordinate) : R * R :=
  let '(sx, sy) := startCoord sc in
  let '(x, y) := rotatePoint coord (oppositeCoord sc) (- scAngle sc) in
  let '(dx, dy) := scaleDeltas (handleIdx sc) sx sy x y in
  (dx / w sc + 1, dy / h sc + 1).

(** The scale frame's [forEach] over the snapshot, from index [i] on. *)
Fixpoint scaleEach (scaleX scaleY : R) (oppositeIdx : Z) (prevs : list Feature)
    (i : nat) (t : Transform) : option Transform :=
  match prevs with
  | [] => Some t
  | sel :: rest =>
      let angle := angleOrZero sel in
      let geom := geometry sel in
      coords <- orientedBox angle geom ;;
      oppositeCoord <- calcScaleHandleCoord coords oppositeIdx ;;
      let geom := Ol.rotate (- angle) oppositeCoord geom in
      let geom := Ol.scale scaleX scaleY oppositeCoord geom in
      let geom := Ol.rotate angle oppositeCoord geom in
      live <- nth_error (_selections t) i ;;
      scaleEach scaleX scaleY oppositeIdx rest (S i)
        (setStore t (storeSetGeometry live geom (store t)))
  end.

Definition handleDragEvent (evt : MapBrowserEvent) (t : Transform) : option Transform :=
  let t := setHandleLayer t [] in
  let t := setIsTransformed t true in
  t <- (match _mode t with
        | translate =>
            let '(x, y) := evtCoordinate evt in
            let '(px, py) := _prevCoord t in
            let t := setPrevCoord t (x, y) in
            let dx := x - px in
            let dy := y - py in
            Some (translateEach dx dy t)
        | rotate =>
            let '(x, y) := evtCoordinate evt in
            let rs := _rotationSelection t in
            let da := JsMath.atan2 (y - snd (rotCenter rs)) (x - fst (rotCenter rs))
                      - rotAngle rs in
            '(prevs, t) <- rotateEach da (_prevSelections t) 0 t ;;
            Some (setPrevSelections t prevs)
        | scale =>
            let sc := _scalingSelection t in
            let '(scaleX, scaleY) := scaleFactors sc (evtCoordinate evt) in
            let t := setHeadInverted t (JsMath.ltb scaleY 0) in
            scaleEach scaleX scaleY (oppositeIdx sc) (_prevSelections t) 0 t
        | idle => Some t
        end) ;;
  let t := dispatchForMode translating rotating scaling evt t in
  Some (dispatchTransformEvent transforming evt t).

(** The half-turn correction of pointer-up, applied to one live shape. *)
Definition halfTurn (t : Transform) (sel : FeatId) : Transform :=
  let geom := geometry (store t sel) in
  match angle (store t sel) with
  | Some a =>
      let geom := Ol.rotate PI (Ol.getCenter (Ol.getExtent geom)) geom in
      setStore t (storeSetAngle sel (JsMath.rem (a + PI) (2 * PI))
                    (storeSetGeometry sel geom (store t)))
  | None => t
  end.

Definition handleUpEvent (evt : MapBrowserEvent) (t : Transform)
    : option (Transform * bool) :=
  let t := if mode_eqb (_mode t) scale && _headInverted t
           then fold_left halfTurn (_selections t) t
           else t in
  let t := dispatchTransformEvent mouseup evt t in
  let t := if _isTransformed t
           then dispatchTransformEvent transformend evt
                  (dispatchForMode translateend rotateend scaleend evt t)
           else t in
  t <- drawHandles t ;;
  let t := setMode t idle in
  let t := setIsTransformed t false in
  Some (t, false).

Definition handleMoveEvent (evt : MapBrowserEvent) (t : Transform) : Transform :=
  dispatchTransformEvent mousemove evt t.

(** Modelled from the spec: the host's pointer interaction delivers events
    serially; a down that is handled opens a down-up sequence, drags and the
    up reach the handlers only inside it, moves only outside it. *)
Definition handleEvent (evt : MapBrowserEvent) (t : Transform) : option Transform :=
  if handlingDownUpSequence t then
    match evtType evt with
    | pointerdrag => handleDragEvent evt t
    | pointerup =>
        '(t, handledUp) <- handleUpEvent evt t ;;
        Some (setHandling t handledUp)
    | _ => Some t
    end
  else
    match evtType evt with
    | pointerdown =>
        '(t, handled) <- handleDownEvent evt t ;;
        Some (setHandling t handled)
    | pointermove => Some (handleMoveEvent evt t)
    | _ => Some t
    end.

(** A stream of pointer events, oldest first. *)
Fixpoint handleEvents (evts : list MapBrowserEvent) (t : Transform) : option Transform :=
  match evts with
  | [] => Some t
  | evt :: rest => t1 <- handleEvent evt t ;; handleEvents rest t1
  end.

(** ** The colour of the handles

    Modelled from the spec: the style of a shape is absent, one style, an
    array of styles, or a function of the shape and the view's resolution
    that returns one style, an array or nothing; a style may have a stroke
    and a stroke a colour.  The shape is fixed, so a style function is a
    function of the resolution. *)

Definition Color : Type := String.string.

Record Stroke : Type := mkStroke { getColor : option Color }.

Record Style : Type := mkStyle { getStroke : option Stroke }.

Inductive StyleValue : Type :=
| OneStyle (s : Style)
| StyleArray (l : list Style)
| NoStyleValue.

Inductive StyleLike : Type :=
| FixedStyle (v : StyleValue)
| StyleFunction (f : R -> StyleValue).

(** [!!s.getStroke()]. *)
Definition hasStroke (s : Style) : bool :=
  match getStroke s with
  | Some _ => true
  | None => false
  end.

(** [s?.getStroke()?.getColor()]. *)
Definition strokeColorOf (s : option Style) : option Color :=
  match s with
  | Some s => match getStroke s with
              | Some st => getColor st
              | None => None
              end
  | None => None
  end.

(** [extractStrokeColor]; [resolution] is
    [this.getMap()?.getView().getResolution()]. *)
Definition extractStrokeColor (styleLike : StyleLike) (resolution : option R)
    : option Color :=
  match styleLike with
  | FixedStyle (StyleArray l) => strokeColorOf (find hasStroke l)
  | FixedStyle (OneStyle s) => strokeColorOf (Some s)
  | FixedStyle NoStyleValue => None
  | StyleFunction f =>
      match resolution with
      | Some r =>
          match f r with
          | StyleArray l => strokeColorOf (find hasStroke l)
          | OneStyle s => strokeColorOf (Some s)
          | NoStyleValue => None
          end
      | None => None
      end
  end.

Section DefaultColour.
Import String.
Definition defaultStrokeColor : Color := "rgba(151, 151, 151, 1)"%string.
End DefaultColour.

(** [this._strokeColor ?? this.extractStrokeColor(feat) ?? "rgba(151, 151, 151, 1)"],
    the stroke colour of [genHandles] and [genTranslateHandle]. *)
Definition handleStrokeColor (_strokeColor : option Color) (styleLike : StyleLike)
    (resolution : option R) : Color :=
  match _strokeColor with
  | Some c => c
  | None =>
      match extractStrokeColor styleLike resolution with
      | Some c => c
      | None => defaultStrokeColor
      end
  end.

(** * Vocabulary of the properties

    Closed forms of the loops and handlers, and the shapes and events of
    the scenarios, used to state the properties below. *)

(** An extent's minima do not exceed its maxima. *)
Definition wfExtent (e : Extent) : Prop := minX e <= maxX e /\ minY e <= maxY e.

(** An axis-aligned map [q |-> (ax + sx * x, ay + sy * y)] with non-negative
    factors, and its action on extents. *)
Definition axisMap (ax ay sx sy : R) (q : Coordinate) : Coordinate :=
  (ax + sx * fst q, ay + sy * snd q).

Definition axisMapExtent (ax ay sx sy : R) (e : Extent) : Extent :=
  mkExtent (ax + sx * minX e) (ay + sy * minY e) (ax + sx * maxX e) (ay + sy * maxY e).

(** The corners [tl, bl, br, tr, tl] of an extent. *)
Definition ringOf (e : Extent) : list Coordinate :=
  [(minX e, maxY e); (minX e, minY e); (maxX e, minY e); (maxX e, maxY e);
   (minX e, maxY e)].

(** The center of a geometry's extent, and the extent of the geometry turned
    back by its angle about that center. *)
Definition boxCenter (g : Geometry) : Coordinate := Ol.getCenter (Ol.getExtent g).

Definition normalExtent (a : R) (g : Geometry) : Extent :=
  Ol.getExtent (Ol.rotate (- a) (boxCenter g) g).

(** The handle position [k] on the ring [tl, bl, br, tr]. *)
Definition handleOn (tl bl br tr : Coordinate) (k : Z) : Coordinate :=
  match k with
  | 0%Z => tl
  | 1%Z => centerOf tl bl
  | 2%Z => bl
  | 3%Z => centerOf bl br
  | 4%Z => br
  | 5%Z => centerOf br tr
  | 6%Z => tr
  | 7%Z => centerOf tr tl
  | _ => (0, 0)
  end.

(** The handle [k] of the oriented box, in closed form. *)
Definition boxHandle (a : R) (g : Geometry) (k : Z) : Coordinate :=
  let e := normalExtent a g in
  let r := Ol.rotateCoord a (boxCenter g) in
  handleOn (r (minX e, maxY e)) (r (minX e, minY e)) (r (maxX e, minY e))
           (r (maxX e, maxY e)) k.

(** The indices of the scale ring. *)
Definition ringIndices : list Z := [0; 1; 2; 3; 4; 5; 6; 7]%Z.

(** The rotate handle and the eight scale handles of a shape. *)
Definition boxHandles (st : Store) (feat : FeatId) : list HandleFeature :=
  match geometry (st feat) with
  | Point _ => []
  | Area _ _ =>
      let a := angleOrZero (st feat) in
      let g := geometry (st feat) in
      mkHandle (Point (boxHandle a g 7)) feat rotate (-1)
      :: map (fun k => mkHandle (Point (boxHandle a g k)) feat scale k) ringIndices
  end.

(** The translate handle [genTranslateHandle] makes for a stored shape. *)
Definition translateHandleOf (st : Store) (feat : FeatId) : HandleFeature :=
  match geometry (st feat) with
  | Point coord => mkHandle (Point coord) feat translate (-1)
  | Area _ _ => mkHandle (Ol.fromExtent (Ol.getExtent (geometry (st feat)))) feat translate (-1)
  end.

(** What [drawHandles] leaves in the overlay for a selection. *)
Definition overlay (st : Store) (sels : list FeatId) : list HandleFeature :=
  match sels with
  | [] => []
  | first :: _ => boxHandles st first
  end ++ map (translateHandleOf st) sels.

(** [n] consecutive indices from [i]. *)
Fixpoint indicesFrom (n : nat) (i : Z) : list Z :=
  match n with
  | O => []
  | S n' => i :: indicesFrom n' (i + 1)%Z
  end.

(** The three guards of the hit-test callback. *)
Definition accepted (c : Candidate) : bool :=
  isFeature c && hasGeometry c && shouldGet c.

(** The first candidate that passes the guards of the callback. *)
Fixpoint firstAccepted (cands : list Candidate) : option Pick :=
  match cands with
  | [] => None
  | c :: rest => if accepted c then Some (target c) else firstAccepted rest
  end.

(** Apply [F] to the stored feature [id]. *)
Definition storeModify (F : Feature -> Feature) (id : FeatId) (st : Store) : Store :=
  fun j => if Nat.eqb j id then F (st j) else st j.

(** A feature moved by [(dx, dy)], its attribute kept. *)
Definition translateFeature (dx dy : R) (f : Feature) : Feature :=
  mkFeature (Ol.translate dx dy (geometry f)) (angle f).

(** The half turn of pointer-up on one feature. *)
Definition halfTurnFeature (f : Feature) : Feature :=
  match angle f with
  | Some a =>
      mkFeature (Ol.rotate PI (boxCenter (geometry f)) (geometry f))
                (Some (JsMath.rem (a + PI) (2 * PI)))
  | None => f
  end.

(** One round of the translate frame's loop, and of the half-turn loop of
    pointer-up, on the store. *)
Definition translateStore (dx dy : R) (st : Store) (sel : FeatId) : Store :=
  storeSetGeometry sel (Ol.translate dx dy (geometry (st sel))) st.

Definition halfTurnStore (st : Store) (sel : FeatId) : Store :=
  match angle (st sel) with
  | Some a =>
      storeSetAngle sel (JsMath.rem (a + PI) (2 * PI))
        (storeSetGeometry sel (Ol.rotate PI (boxCenter (geometry (st sel))) (geometry (st sel)))
           st)
  | None => st
  end.

(** The index-aligned assignment [_selections.item(i).setGeometry(...)] of
    the rotate and scale frames. *)
Fixpoint assignFrom (geoms : list Geometry) (sels : list FeatId) (i : nat) (st : Store)
    : option Store :=
  match geoms with
  | [] => Some st
  | g :: rest =>
      live <- nth_error sels i ;;
      assignFrom rest sels (S i) (storeSetGeometry live g st)
  end.

(** What the rotate frame assigns to the live shape of a snapshot shape, and
    what it leaves in the snapshot shape. *)
Definition rotatedGeometry (da : R) (sel : Feature) : Geometry :=
  Ol.rotate da (boxCenter (geometry sel)) (geometry sel).

Definition rotateSnapshot (da : R) (sel : Feature) : Feature :=
  match angle sel with
  | Some a => mkFeature (geometry sel) (Some (JsMath.rem (a + da) (2 * PI)))
  | None => sel
  end.

(** What the scale frame assigns to the live shape of a snapshot shape. *)
Definition scaledGeometry (scaleX scaleY : R) (oppositeIdx : Z) (sel : Feature) : Geometry :=
  let a := angleOrZero sel in
  let anchor := boxHandle a (geometry sel) oppositeIdx in
  Ol.rotate a anchor (Ol.scale scaleX scaleY anchor (Ol.rotate (- a) anchor (geometry sel))).

(** The notification of a phase for the mode [m], none while idle. *)
Definition modeEvents (onTranslate onRotate onScale : TransformEventType)
    (m : TransformMode) : list TransformEventType :=
  match m with
  | translate => [onTranslate]
  | rotate => [onRotate]
  | scale => [onScale]
  | idle => []
  end.

(** The notifications of the given types, dispatched one after the other
    with the same start and current coordinate. *)
Definition dispatchAll (start coord : Coordinate) (tys : list TransformEventType)
    (log : list TransformEvent) : list TransformEvent :=
  fold_left (fun log ty => log ++ [mkEvent ty start coord]) tys log.

(** The store after pointer-up. *)
Definition releasedStore (t : Transform) : Store :=
  if mode_eqb (_mode t) scale && _headInverted t
  then fold_left halfTurnStore (_selections t) (store t)
  else store t.

(** The notifications of pointer-up. *)
Definition upTypes (t : Transform) : list TransformEventType :=
  mouseup :: (if _isTransformed t
              then modeEvents translateend rotateend scaleend (_mode t) ++ [transformend]
              else []).

(** The state pointer-up leaves. *)
Definition released (evt : MapBrowserEvent) (t : Transform) : Transform :=
  {| store := releasedStore t;
     _selections := _selections t;
     _prevSelections := _prevSelections t;
     _handleLayer := overlay (releasedStore t) (_selections t);
     _mode := idle;
     _isTransformed := false;
     _startCoord := _startCoord t;
     _prevCoord := _prevCoord t;
     _rotationSelection := _rotationSelection t;
     _scalingSelection := _scalingSelection t;
     _headInverted := _headInverted t;
     handlingDownUpSequence := handlingDownUpSequence t;
     dispatched := dispatchAll (_startCoord t) (evtCoordinate evt) (upTypes t) (dispatched t) |}.

(** The snapshot a press takes of the selection. *)
Definition snapshotOf (t : Transform) : list Feature :=
  map (fun feat => clone (store t feat)) (_selections t).

(** The state a handled press leaves in mode [m], from the state [t1] the
    selection policy produced; the mode's drag state is set on top of it. *)
Definition pressed (evt : MapBrowserEvent) (t1 : Transform) (m : TransformMode)
    : Transform :=
  {| store := store t1;
     _selections := _selections t1;
     _prevSelections := snapshotOf t1;
     _handleLayer := _handleLayer t1;
     _mode := m;
     _isTransformed := _isTransformed t1;
     _startCoord := evtCoordinate evt;
     _prevCoord := _prevCoord t1;
     _rotationSelection := _rotationSelection t1;
     _scalingSelection := _scalingSelection t1;
     _headInverted := _headInverted t1;
     handlingDownUpSequence := handlingDownUpSequence t1;
     dispatched :=
       dispatchAll (evtCoordinate evt) (evtCoordinate evt)
         (modeEvents translatestart rotatestart scalestart m ++ [transformstart])
         (dispatched t1 ++ [mkEvent mousedown (_startCoord t1) (evtCoordinate evt)]) |}.

(** The drag state a press adds to [pressed]. *)
Definition withPrevCoord (c : Coordinate) (t : Transform) : Transform :=
  mkTransform (store t) (_selections t) (_prevSelections t) (_handleLayer t) (_mode t)
    (_isTransformed t) (_startCoord t) c (_rotationSelection t)
    (_scalingSelection t) (_headInverted t) (handlingDownUpSequence t) (dispatched t).

Definition withRotation (v : RotationSelection) (t : Transform) : Transform :=
  mkTransform (store t) (_selections t) (_prevSelections t) (_handleLayer t) (_mode t)
    (_isTransformed t) (_startCoord t) (_prevCoord t) v
    (_scalingSelection t) (_headInverted t) (handlingDownUpSequence t) (dispatched t).

Definition withScaling (v : ScalingSelection) (t : Transform) : Transform :=
  mkTransform (store t) (_selections t) (_prevSelections t) (_handleLayer t) (_mode t)
    (_isTransformed t) (_startCoord t) (_prevCoord t) (_rotationSelection t)
    v (_headInverted t) (handlingDownUpSequence t) (dispatched t).

(** The drag state a press on the scale handle [idx] of a shape records. *)
Definition scalingOf (a : R) (g : Geometry) (idx : Z) : ScalingSelection :=
  let e := normalExtent a g in
  let r := Ol.rotateCoord a (boxCenter g) in
  let opp := Z.rem (idx + halfRing) scaleHandlesLength in
  let anchor := boxHandle a g opp in
  mkScaling a
    (calcDistance (r (minX e, minY e)) (r (maxX e, minY e)))
    (calcDistance (r (minX e, maxY e)) (r (minX e, minY e)))
    idx opp anchor (rotatePoint (boxHandle a g idx) anchor (- a)).

(** The drag state a press on the rotate handle of a shape records. *)
Definition rotationOf (g : Geometry) (coord : Coordinate) : RotationSelection :=
  let center := boxCenter g in
  mkRotation (JsMath.atan2 (snd coord - snd center) (fst coord - fst center)) center.

(** The notifications of a frame in mode [m]. *)
Definition frameTypes (m : TransformMode) : list TransformEventType :=
  modeEvents translating rotating scaling m ++ [transforming].

(** The state after a frame: the overlay emptied, the store and the parts of
    the drag state the frame rewrites. *)
Definition framed (evt : MapBrowserEvent) (t : Transform) (st : Store)
    (prevs : list Feature) (prevCoord : Coordinate) (headInverted : bool) : Transform :=
  {| store := st;
     _selections := _selections t;
     _prevSelections := prevs;
     _handleLayer := [];
     _mode := _mode t;
     _isTransformed := true;
     _startCoord := _startCoord t;
     _prevCoord := prevCoord;
     _rotationSelection := _rotationSelection t;
     _scalingSelection := _scalingSelection t;
     _headInverted := headInverted;
     handlingDownUpSequence := handlingDownUpSequence t;
     dispatched := dispatchAll (_startCoord t) (evtCoordinate evt) (frameTypes (_mode t))
                     (dispatched t) |}.

(** [deltaAngle] of a rotate frame at pointer position [coord]. *)
Definition rotationDelta (rs : RotationSelection) (coord : Coordinate) : R :=
  JsMath.atan2 (snd coord - snd (rotCenter rs)) (fst coord - fst (rotCenter rs))
  - rotAngle rs.

(** The drag frames of a gesture, oldest first. *)
Fixpoint dragFrames (frames : list MapBrowserEvent) (t : Transform) : option Transform :=
  match frames with
  | [] => Some t
  | evt :: rest => t1 <- handleDragEvent evt t ;; dragFrames rest t1
  end.

(** The pointer position of the last frame, [start] when there is none. *)
Definition lastPointer (frames : list MapBrowserEvent) (start : Coordinate) : Coordinate :=
  last (map evtCoordinate frames) start.

(** The square of the scenarios, and the pointer events played on it. *)
Definition square : Geometry := Area (0, 0) [(10, 0); (10, 10); (0, 10)].

(** The application holds the square, with or without an ["angle"]. *)
Definition squareStore (a : option R) : Store := fun _ => mkFeature square a.

Definition pressOn (p : Pick) (coord : Coordinate) (additive : bool) : MapBrowserEvent :=
  mkMapEvent pointerdown coord [mkCandidate p true true true] additive.

Definition dragTo (coord : Coordinate) : MapBrowserEvent :=
  mkMapEvent pointerdrag coord [] false.

Definition releaseAt (coord : Coordinate) : MapBrowserEvent :=
  mkMapEvent pointerup coord [] false.

(** The interaction after the square was clicked once: it is the selection
    and the overlay shows its handles. *)
Definition selectedSquare (a : option R) : Transform :=
  {| store := squareStore a;
     _selections := [0%nat];
     _prevSelections := [mkFeature square a];
     _handleLayer := overlay (squareStore a) [0%nat];
     _mode := idle;
     _isTransformed := false;
     _startCoord := (5, 5);
     _prevCoord := (5, 5);
     _rotationSelection := mkRotation 0 (0, 0);
     _scalingSelection := mkScaling 0 0 0 (-1) (-1) (0, 0) (0, 0);
     _headInverted := false;
     handlingDownUpSequence := false;
     dispatched := [mkEvent mousedown (0, 0) (5, 5);
                    mkEvent translatestart (5, 5) (5, 5);
                    mkEvent transformstart (5, 5) (5, 5);
                    mkEvent mouseup (5, 5) (5, 5)] |}.

(** The overlay of the selected square, when its angle is [0] or absent. *)
Definition squareOverlay : list HandleFeature :=
  [mkHandle (Point (5, 10)) 0%nat rotate (-1);
   mkHandle (Point (0, 10)) 0%nat scale 0;
   mkHandle (Point (0, 5)) 0%nat scale 1;
   mkHandle (Point (0, 0)) 0%nat scale 2;
   mkHandle (Point (5, 0)) 0%nat scale 3;
   mkHandle (Point (10, 0)) 0%nat scale 4;
   mkHandle (Point (10, 5)) 0%nat scale 5;
   mkHandle (Point (10, 10)) 0%nat scale 6;
   mkHandle (Point (5, 10)) 0%nat scale 7;
   mkHandle (Area (0, 0) [(0, 10); (10, 10); (10, 0); (0, 0)]) 0%nat translate (-1)].

(** The attribute is [0] or absent. *)
Definition unrotated (a : option R) : Prop :=
  match a with
  | Some x => x = 0
  | None => True
  end.

(** The selection policy rewrites the selection and the overlay, nothing
    else. *)
Definition keeps (t t' : Transform) : Prop :=
  t' = setHandleLayer (setSelections t (_selections t')) (_handleLayer t').

(** A handled press, whatever was hit: the state is [pressed] from the
    selection policy's state, up to the drag state of the mode. *)
Definition sameButDragState (t t' : Transform) : Prop :=
  store t' = store t /\
  _selections t' = _selections t /\
  _prevSelections t' = _prevSelections t /\
  _handleLayer t' = _handleLayer t /\
  _mode t' = _mode t /\
  _isTransformed t' = _isTransformed t /\
  _startCoord t' = _startCoord t /\
  _headInverted t' = _headInverted t /\
  dispatched t' = dispatched t.

(** The overlay is drawn for the current selection: the rotate and scale
    handles of the first selected shape, then one translate handle per
    selected shape. *)
Definition overlayDrawn (t : Transform) : Prop :=
  exists handles,
    match _selections t with
    | [] => handles = []
    | first :: _ => genHandles t first = Some handles
    end /\
    _handleLayer t = handles ++ map (genTranslateHandle t) (_selections t).

(** The state after pressing the scale handle [k] of the selected square. *)
Definition squareGrabbed (a : option R) (k : Z) (coord : Coordinate) : Transform :=
  withScaling (scalingOf 0 square k)
    (pressed (pressOn (Handle (mkHandle (Point coord) 0%nat scale k)) coord false)
       (selectedSquare a) scale).

(** Sum and difference of coordinates. *)
Definition vadd (p v : Coordinate) : Coordinate := (fst p + fst v, snd p + snd v).
Definition vsub (p q : Coordinate) : Coordinate := (fst p - fst q, snd p - snd q).

(** Maps that send midpoints to midpoints commute with the handle ring. *)
Definition midpointPreserving (f : Coordinate -> Coordinate) : Prop :=
  forall p q, f (centerOf p q) = centerOf (f p) (f q).

(** The indices that name a handle of the ring. *)
Definition onRing (k : Z) : Prop := (0 <= k <= 7)%Z.

(** What a scale frame does to a geometry: it is scaled about [anchor] along
    the axes turned by [a]. *)
Definition scaledAbout (a sx sy : R) (anchor : Coordinate) (g : Geometry) : Geometry :=
  Ol.rotate a anchor (Ol.scale sx sy anchor (Ol.rotate (- a) anchor g)).

(** The anchor of a shape for the index [idx], as the scale frame computes
    it: the handle [idx] of the shape's freshly built oriented box. *)
Definition anchorOf (f : Feature) (idx : Z) : option Coordinate :=
  coords <- orientedBox (angleOrZero f) (geometry f) ;;
  calcScaleHandleCoord coords idx.

(** The square dragged through zero height, and turned back by the
    release. *)
Definition squareDragged : Geometry := Area (0, 0) [(20, 0); (20, -10); (0, -10)].
Definition squareTurned : Geometry := Area (20, -10) [(0, -10); (0, 0); (20, 0)].

(** The square turned a quarter clockwise about (5,5). *)
Definition squareQuarter : Geometry := Area (0, 10) [(0, 0); (10, 0); (10, 10)].

(** The state after pressing the rotate handle of the selected square. *)
Definition squareTurning (a : option R) : Transform :=
  withRotation (rotationOf square (5, 10))
    (pressed (pressOn (Handle (mkHandle (Point (5, 10)) 0%nat rotate (-1))) (5, 10) false)
       (selectedSquare a) rotate).

(** The corner or side middle [k] of an extent, in the order of the handle
    ring. *)
Definition cornerOf (e : Extent) (k : Z) : Coordinate :=
  handleOn (minX e, maxY e) (minX e, minY e) (maxX e, minY e) (maxX e, maxY e) k.

(** The indices of the four corner handles. *)
Definition cornerIndices : list Z := [0; 2; 4; 6]%Z.

(** [feat] taken out of a selection, where it first occurs. *)
Fixpoint removeFirst (feat : FeatId) (l : list FeatId) : list FeatId :=
  match l with
  | [] => []
  | x :: rest => if Nat.eqb x feat then rest else x :: removeFirst feat rest
  end.

(** The selection a press leaves, by what the press hits and by the add
    condition: nothing hit empties it, a handle leaves it alone, a shape is
    toggled under the add condition and otherwise becomes the selection,
    unless it is selected already. *)
Definition selectionAfter (sels : list FeatId) (hit : option Pick) (additive : bool)
    : list FeatId :=
  match hit with
  | None => []
  | Some (Handle _) => sels
  | Some (Body feat) =>
      if in_dec Nat.eq_dec feat sels
      then (if additive then removeFirst feat sels else sels)
      else (if additive then sels ++ [feat] else [feat])
  end.

(** The mode a press leaves, and whether the press is handled. *)
Definition modeAfter (m : TransformMode) (hit : option Pick) : TransformMode :=
  match hit with
  | None => m
  | Some (Body _) => translate
  | Some (Handle hf) => mode hf
  end.

Definition isHit (hit : option Pick) : bool :=
  match hit with
  | Some _ => true
  | None => false
  end.

(** The notifications of the given types, all with the start coordinate
    [start] and the pointer coordinate [coord]. *)
Definition stamp (start coord : Coordinate) (tys : list TransformEventType)
    : list TransformEvent :=
  map (fun ty => mkEvent ty start coord) tys.

(** The notifications a handled gesture adds to the log after its
    [mousedown]: the press at [start], the frames, the release. *)
Definition gestureLog (m : TransformMode) (start : Coordinate)
    (frames : list MapBrowserEvent) (up : MapBrowserEvent) : list TransformEvent :=
  stamp start start (modeEvents translatestart rotatestart scalestart m ++ [transformstart])
  ++ flat_map (fun f => stamp start (evtCoordinate f) (frameTypes m)) frames
  ++ stamp start (evtCoordinate up)
       (mouseup :: match frames with
                   | [] => []
                   | _ :: _ => modeEvents translateend rotateend scaleend m ++ [transformend]
                   end).

(** The point reflection [q |-> (ax - x, ay - y)] and its action on
    extents. *)
Definition flipCoord (ax ay : R) (q : Coordinate) : Coordinate :=
  (ax - fst q, ay - snd q).

Definition flipExtent (ax ay : R) (e : Extent) : Extent :=
  mkExtent (ax - maxX e) (ay - maxY e) (ax - minX e) (ay - minY e).

(** The pointer position at which a frame undoes a gesture: the press
    coordinate, and in scale mode the position of the grabbed handle, which
    the press recorded turned back by the angle about the anchor. *)
Definition home (down : MapBrowserEvent) (t1 : Transform) : Coordinate :=
  match _mode t1 with
  | scale =>
      rotatePoint (startCoord (_scalingSelection t1)) (oppositeCoord (_scalingSelection t1))
        (scAngle (_scalingSelection t1))
  | _ => evtCoordinate down
  end.

(** Every scale frame of the stream divides by a box width and a box height
    that are not zero: at each drag delivered in scale mode, the [w] and [h]
    the press recorded are not zero. *)
Fixpoint scaleFramesDivide (evts : list MapBrowserEvent) (t : Transform) : Prop :=
  match evts with
  | [] => True
  | evt :: rest =>
      (handlingDownUpSequence t = true -> evtType evt = pointerdrag -> _mode t = scale ->
       w (_scalingSelection t) <> 0 /\ h (_scalingSelection t) <> 0) /\
      match handleEvent evt t with
      | Some t1 => scaleFramesDivide rest t1
      | None => True
      end
  end.

(** An application that holds the square and, as every other shape, a
    point. *)
Definition squareAndPoint : Store :=
  fun j => match j with
           | O => mkFeature square None
           | S _ => mkFeature (Point (50, 50)) None
           end.

(** * Properties *)

(** ** Arithmetic facts *)

Lemma ltb_true (x y : R) : x < y -> JsMath.ltb x y = true.
Proof. intros H; unfold JsMath.ltb; destruct (Rlt_dec x y); [reflexivity | contradiction]. Qed.

Lemma ltb_false (x y : R) : y <= x -> JsMath.ltb x y = false.
Proof. intros H; unfold JsMath.ltb; destruct (Rlt_dec x y); [lra | reflexivity]. Qed.

Lemma Int_part_unit (x : R) : 0 <= x < 1 -> Int_part x = 0%Z.
Proof. intros H; symmetry; apply Int_part_spec; simpl; lra. Qed.

Lemma trunc_unit (x : R) : -1 < x < 1 -> JsMath.trunc x = 0%Z.
Proof.
  intros H; unfold JsMath.trunc.
  destruct (Rle_dec 0 x).
  - apply Int_part_unit; lra.
  - rewrite Int_part_unit by lra; reflexivity.
Qed.

(** A dividend smaller in magnitude than the divisor is its own remainder,
    sign included. *)
Lemma rem_small (n d : R) : 0 < d -> - d < n < d -> JsMath.rem n d = n.
Proof.
  intros Hd Hn; unfold JsMath.rem.
  rewrite trunc_unit; [simpl; lra|].
  split.
  - apply Rmult_lt_reg_r with d; [lra|]. unfold Rdiv.
    rewrite Rmult_assoc, Rinv_l by lra. lra.
  - apply Rmult_lt_reg_r with d; [lra|]. unfold Rdiv.
    rewrite Rmult_assoc, Rinv_l by lra. lra.
Qed.


Lemma atan2_up (y : R) : 0 < y -> JsMath.atan2 y 0 = PI / 2.
Proof.
  intros H; unfold JsMath.atan2.
  destruct (Rlt_dec 0 0); [lra|].
  destruct (Rlt_dec 0 y); [reflexivity | lra].
Qed.

Lemma atan2_right (x : R) : 0 < x -> JsMath.atan2 0 x = 0.
Proof.
  intros H; unfold JsMath.atan2.
  destruct (Rlt_dec 0 x); [|lra].
  unfold Rdiv; rewrite Rmult_0_l; apply atan_0.
Qed.

Lemma Rmin_Rmax_sum (a b : R) : Rmin a b + Rmax a b = a + b.
Proof. unfold Rmin, Rmax; destruct (Rle_dec a b); lra. Qed.

Lemma min4_rect (a b : R) : a <= b -> JsMath.min4 a a b b = a.
Proof.
  intros H; unfold JsMath.min4.
  rewrite (Rmin_left a a), (Rmin_left a b), (Rmin_left a b); lra.
Qed.

Lemma max4_rect (a b : R) : a <= b -> JsMath.max4 a a b b = b.
Proof.
  intros H; unfold JsMath.max4.
  rewrite (Rmax_left a a), (Rmax_right a b), (Rmax_left b b); lra.
Qed.

Lemma min4_rect' (a b : R) : a <= b -> JsMath.min4 a b b a = a.
Proof.
  intros H; unfold JsMath.min4.
  rewrite (Rmin_left a b), (Rmin_left a b), (Rmin_left a a); lra.
Qed.

Lemma max4_rect' (a b : R) : a <= b -> JsMath.max4 a b b a = b.
Proof.
  intros H; unfold JsMath.max4.
  rewrite (Rmax_right a b), (Rmax_left b b), (Rmax_left b a); lra.
Qed.

(** ** Extents *)

Lemma extendCoordinate_wf (e : Extent) (c : Coordinate) :
  wfExtent e -> wfExtent (Ol.extendCoordinate e c).
Proof.
  intros [Hx Hy]; split; simpl.
  - apply Rle_trans with (minX e); [apply Rmin_l|].
    apply Rle_trans with (maxX e); [exact Hx | apply Rmax_l].
  - apply Rle_trans with (minY e); [apply Rmin_l|].
    apply Rle_trans with (maxY e); [exact Hy | apply Rmax_l].
Qed.

Lemma fold_extend_wf (cs : list Coordinate) (e : Extent) :
  wfExtent e -> wfExtent (fold_left Ol.extendCoordinate cs e).
Proof.
  revert e; induction cs as [|c cs IH]; intros e He; simpl; [exact He|].
  apply IH, extendCoordinate_wf, He.
Qed.

Lemma boundingExtent_wf (c : Coordinate) (cs : list Coordinate) :
  wfExtent (Ol.boundingExtent c cs).
Proof. apply fold_extend_wf; split; simpl; lra. Qed.

Lemma getExtent_wf (g : Geometry) : wfExtent (Ol.getExtent g).
Proof. destruct g; apply boundingExtent_wf. Qed.

Lemma Rmin_axis (a s x y : R) : 0 <= s -> Rmin (a + s * x) (a + s * y) = a + s * Rmin x y.
Proof.
  intros Hs; unfold Rmin.
  destruct (Rle_dec x y), (Rle_dec (a + s * x) (a + s * y)); try reflexivity; nra.
Qed.

Lemma Rmax_axis (a s x y : R) : 0 <= s -> Rmax (a + s * x) (a + s * y) = a + s * Rmax x y.
Proof.
  intros Hs; unfold Rmax.
  destruct (Rle_dec x y), (Rle_dec (a + s * x) (a + s * y)); try reflexivity; nra.
Qed.

Lemma fold_extend_axisMap (ax ay sx sy : R) (cs : list Coordinate) (e : Extent) :
  0 <= sx -> 0 <= sy ->
  fold_left Ol.extendCoordinate (map (axisMap ax ay sx sy) cs) (axisMapExtent ax ay sx sy e)
  = axisMapExtent ax ay sx sy (fold_left Ol.extendCoordinate cs e).
Proof.
  intros Hx Hy; revert e; induction cs as [|c cs IH]; intros e; simpl; [reflexivity|].
  rewrite <- IH. f_equal.
  unfold Ol.extendCoordinate, axisMapExtent, axisMap; simpl.
  rewrite !Rmin_axis, !Rmax_axis by assumption. reflexivity.
Qed.

Lemma boundingExtent_axisMap (ax ay sx sy : R) (c : Coordinate) (cs : list Coordinate) :
  0 <= sx -> 0 <= sy ->
  Ol.boundingExtent (axisMap ax ay sx sy c) (map (axisMap ax ay sx sy) cs)
  = axisMapExtent ax ay sx sy (Ol.boundingExtent c cs).
Proof.
  intros Hx Hy; unfold Ol.boundingExtent.
  rewrite <- fold_extend_axisMap by assumption. reflexivity.
Qed.

Lemma applyTransform_ext (f f' : Coordinate -> Coordinate) (g : Geometry) :
  (forall p, f p = f' p) -> Ol.applyTransform f g = Ol.applyTransform f' g.
Proof.
  intros H; destruct g as [c | c cs]; simpl; rewrite H; [reflexivity|].
  f_equal. apply map_ext, H.
Qed.

Lemma applyTransform_compose (f f' : Coordinate -> Coordinate) (g : Geometry) :
  Ol.applyTransform f (Ol.applyTransform f' g) = Ol.applyTransform (fun p => f (f' p)) g.
Proof. destruct g as [c | c cs]; simpl; [reflexivity|]. rewrite map_map; reflexivity. Qed.

Lemma applyTransform_id (f : Coordinate -> Coordinate) (g : Geometry) :
  (forall p, f p = p) -> Ol.applyTransform f g = g.
Proof.
  intros H; destruct g as [c | c cs]; simpl; rewrite H; [reflexivity|].
  f_equal. rewrite <- (map_id cs) at 2. apply map_ext, H.
Qed.

Lemma getExtent_axisMap (ax ay sx sy : R) (g : Geometry) :
  0 <= sx -> 0 <= sy ->
  Ol.getExtent (Ol.applyTransform (axisMap ax ay sx sy) g)
  = axisMapExtent ax ay sx sy (Ol.getExtent g).
Proof.
  intros Hx Hy; destruct g as [c | c cs]; simpl.
  - apply (boundingExtent_axisMap ax ay sx sy c []); assumption.
  - apply boundingExtent_axisMap; assumption.
Qed.

(** ** The oriented box in closed form *)

Lemma rearrangeCoords_fromExtent (e : Extent) :
  wfExtent e -> rearrangeCoords (Ol.getCoordinates (Ol.fromExtent e)) = Some (ringOf e).
Proof.
  intros [Hx Hy]; unfold ringOf; simpl.
  rewrite (min4_rect _ _ Hx), (max4_rect _ _ Hx), (min4_rect' _ _ Hy), (max4_rect' _ _ Hy).
  reflexivity.
Qed.

Lemma orientedBox_eq (a : R) (g : Geometry) :
  orientedBox a g
  = Some (map (Ol.rotateCoord a (boxCenter g)) (ringOf (normalExtent a g))).
Proof.
  unfold orientedBox.
  rewrite rearrangeCoords_fromExtent by apply getExtent_wf.
  reflexivity.
Qed.

Lemma calcScaleHandleCoord_ring (tl bl br tr : Coordinate) (rest : list Coordinate) (k : Z) :
  calcScaleHandleCoord (tl :: bl :: br :: tr :: rest) k = Some (handleOn tl bl br tr k).
Proof.
  unfold calcScaleHandleCoord, handleOn; simpl.
  destruct k as [|p|p]; try reflexivity.
  do 3 (destruct p as [p|p|]; try reflexivity).
Qed.

Lemma centerOf_mid (a b : Coordinate) :
  centerOf a b = ((fst a + fst b) / 2, (snd a + snd b) / 2).
Proof.
  unfold centerOf, Ol.getCenter, Ol.boundingExtent; simpl.
  rewrite !Rmin_Rmax_sum. reflexivity.
Qed.

Lemma orientedBox_handle (a : R) (g : Geometry) (k : Z) :
  (coords <- orientedBox a g ;; calcScaleHandleCoord coords k) = Some (boxHandle a g k).
Proof.
  rewrite orientedBox_eq; unfold ringOf; simpl.
  rewrite calcScaleHandleCoord_ring. reflexivity.
Qed.

(** ** The overlay in closed form *)

Lemma genScaleHandles_ring (tl bl br tr : Coordinate) (rest : list Coordinate)
    (feat : FeatId) (n : nat) (i : Z) (acc : list HandleFeature) :
  genScaleHandles (tl :: bl :: br :: tr :: rest) feat n i acc
  = Some (acc ++ map (fun k => mkHandle (Point (handleOn tl bl br tr k)) feat scale k)
                     (indicesFrom n i)).
Proof.
  revert i acc; induction n as [|n IH]; intros i acc.
  - simpl. rewrite app_nil_r. reflexivity.
  - cbn [genScaleHandles]. rewrite calcScaleHandleCoord_ring. cbn [bind].
    rewrite IH, <- app_assoc. reflexivity.
Qed.

Lemma genHandles_eq (t : Transform) (feat : FeatId) :
  genHandles t feat = Some (boxHandles (store t) feat).
Proof.
  unfold genHandles, boxHandles.
  destruct (geometry (store t feat)) as [c | c cs] eqn:Hg; [reflexivity|].
  rewrite orientedBox_eq; unfold ringOf, boxHandle.
  cbn [map bind].
  rewrite calcScaleHandleCoord_ring.
  cbn [bind].
  rewrite genScaleHandles_ring.
  reflexivity.
Qed.

Lemma drawHandlesFrom_tail (sels : list FeatId) (i : nat) (t : Transform) :
  drawHandlesFrom sels (S i) t
  = Some (setHandleLayer t (_handleLayer t ++ map (translateHandleOf (store t)) sels)).
Proof.
  revert i t; induction sels as [|sel rest IH]; intros i t; simpl.
  - rewrite app_nil_r. destruct t; reflexivity.
  - rewrite IH; simpl. rewrite <- app_assoc. reflexivity.
Qed.

Lemma drawHandles_eq (t : Transform) :
  drawHandles t = Some (setHandleLayer t (overlay (store t) (_selections t))).
Proof.
  unfold drawHandles, overlay.
  destruct (_selections t) as [|sel rest]; [reflexivity|].
  simpl. rewrite genHandles_eq; simpl.
  rewrite drawHandlesFrom_tail; simpl.
  rewrite <- app_assoc. reflexivity.
Qed.

Lemma selPush_eq (feat : FeatId) (t : Transform) :
  selPush feat t
  = Some (setHandleLayer (setSelections t (_selections t ++ [feat]))
            (overlay (store t) (_selections t ++ [feat]))).
Proof. unfold selPush; rewrite drawHandles_eq; reflexivity. Qed.

Lemma selRemoveAt_in_range (i : nat) (t : Transform) :
  (i < length (_selections t))%nat ->
  selRemoveAt (Z.of_nat i) t
  = Some (setHandleLayer (setSelections t (removeNth i (_selections t)))
            (overlay (store t) (removeNth i (_selections t)))).
Proof.
  intros Hi; unfold selRemoveAt.
  replace (Z.of_nat i <? 0)%Z with false by (symmetry; apply Z.ltb_ge; lia).
  replace (Z.of_nat (length (_selections t)) <=? Z.of_nat i)%Z with false
    by (symmetry; apply Z.leb_gt; lia).
  simpl. rewrite drawHandles_eq, Nat2Z.id. reflexivity.
Qed.

Lemma removeNth_last {A : Type} (l : list A) (x : A) :
  removeNth (length l) (l ++ [x]) = l.
Proof.
  unfold removeNth; induction l as [|a l IH]; simpl; [reflexivity|].
  f_equal. exact IH.
Qed.

Lemma selClearLoop_eq (n : nat) (t : Transform) :
  (length (_selections t) <= n)%nat ->
  selClearLoop n t
  = Some (match _selections t with
          | [] => t
          | _ :: _ => setHandleLayer (setSelections t []) []
          end).
Proof.
  revert t; induction n as [|n IH]; intros t Hn.
  - destruct (_selections t); [reflexivity | simpl in Hn; lia].
  - simpl. destruct (_selections t) as [|x l] eqn:Hs; [reflexivity|].
    destruct (exists_last (l := x :: l)) as [l' [y Hl]]; [discriminate|].
    assert (Hlen : length (x :: l) = S (length l')).
    { rewrite Hl, length_app; simpl; lia. }
    replace (Z.of_nat (length (x :: l)) - 1)%Z with (Z.of_nat (length l'))
      by (rewrite Hlen; lia).
    rewrite selRemoveAt_in_range by (rewrite Hs, Hlen; lia).
    rewrite Hs, Hl, removeNth_last; simpl.
    rewrite IH by (simpl; rewrite Hlen in Hn; lia).
    simpl. destruct l' as [|z l'']; reflexivity.
Qed.

Lemma selClear_eq (t : Transform) :
  selClear t
  = Some (match _selections t with
          | [] => t
          | _ :: _ => setHandleLayer (setSelections t []) []
          end).
Proof. apply selClearLoop_eq; lia. Qed.

(** ** Hit testing *)

Lemma selectCallback_rejected (evt : MapBrowserEvent) (c : Candidate) (t : Transform) :
  accepted c = false -> selectCallback evt c t = Some (t, None).
Proof.
  unfold accepted, selectCallback; intros H.
  destruct (isFeature c), (hasGeometry c), (shouldGet c); simpl in *;
    try discriminate; reflexivity.
Qed.

Lemma selectCallback_accepted (evt : MapBrowserEvent) (c : Candidate) (t : Transform) :
  accepted c = true ->
  selectCallback evt c t
  = match target c with
    | Handle hf => Some (t, Some (Handle hf))
    | Body feat =>
        let i := indexOf feat (_selections t) in
        t1 <- (if addCondition evt
               then (if (i =? -1)%Z then selPush feat t else selRemoveAt i t)
               else (if (i =? -1)%Z
                     then t0 <- selClear t ;; selPush feat t0
                     else Some t)) ;;
        Some (t1, Some (Body feat))
    end.
Proof.
  unfold accepted, selectCallback; intros H.
  destruct (isFeature c), (hasGeometry c), (shouldGet c); simpl in *;
    try discriminate; reflexivity.
Qed.

Lemma forEach_none (evt : MapBrowserEvent) (cands : list Candidate) (t : Transform) :
  firstAccepted cands = None -> forEachFeatureAtPixel evt cands t = Some (t, None).
Proof.
  induction cands as [|c rest IH]; simpl; [reflexivity|].
  destruct (accepted c) eqn:Ha; [discriminate|]. intros H.
  rewrite selectCallback_rejected by exact Ha. simpl. apply IH, H.
Qed.

Lemma forEach_handle (evt : MapBrowserEvent) (cands : list Candidate) (t : Transform)
    (hf : HandleFeature) :
  firstAccepted cands = Some (Handle hf) ->
  forEachFeatureAtPixel evt cands t = Some (t, Some (Handle hf)).
Proof.
  induction cands as [|c rest IH]; simpl; [discriminate|].
  destruct (accepted c) eqn:Ha; intros H.
  - rewrite selectCallback_accepted by exact Ha.
    injection H as H; rewrite H. reflexivity.
  - rewrite selectCallback_rejected by exact Ha. simpl. apply IH, H.
Qed.

Lemma forEach_body (evt : MapBrowserEvent) (cands : list Candidate) (t : Transform)
    (feat : FeatId) :
  firstAccepted cands = Some (Body feat) ->
  forEachFeatureAtPixel evt cands t
  = (let i := indexOf feat (_selections t) in
     t1 <- (if addCondition evt
            then (if (i =? -1)%Z then selPush feat t else selRemoveAt i t)
            else (if (i =? -1)%Z
                  then t0 <- selClear t ;; selPush feat t0
                  else Some t)) ;;
     Some (t1, Some (Body feat))).
Proof.
  induction cands as [|c rest IH]; simpl; [discriminate|].
  destruct (accepted c) eqn:Ha; intros H.
  - rewrite selectCallback_accepted by exact Ha.
    injection H as H; rewrite H. simpl.
    destruct (addCondition evt), (indexOf feat (_selections t) =? -1)%Z; simpl.
    + rewrite selPush_eq; reflexivity.
    + destruct (selRemoveAt (indexOf feat (_selections t)) t); reflexivity.
    + rewrite selClear_eq; simpl. rewrite selPush_eq; reflexivity.
    + reflexivity.
  - rewrite selectCallback_rejected by exact Ha. simpl. apply IH, H.
Qed.

(** ** The loops over the selection, on the store *)

Lemma fold_storeModify (upd : Store -> FeatId -> Store) (F : Feature -> Feature) :
  (forall st id j, upd st id j = storeModify F id st j) ->
  forall sels st j,
    NoDup sels ->
    fold_left upd sels st j = if in_dec Nat.eq_dec j sels then F (st j) else st j.
Proof.
  intros Hupd sels; induction sels as [|a l IH]; intros st j Hnd; [reflexivity|].
  inversion Hnd as [|? ? Hnotin Hnd']; subst.
  cbn [fold_left]. rewrite IH by exact Hnd'.
  rewrite Hupd; unfold storeModify.
  destruct (in_dec Nat.eq_dec j l) as [Hin | Hout];
    destruct (in_dec Nat.eq_dec j (a :: l)) as [Hin' | Hout'];
    destruct (Nat.eqb_spec j a) as [-> | Hne]; try reflexivity;
    exfalso; simpl in *; intuition congruence.
Qed.

Lemma translateEach_frame (dx dy : R) (t : Transform) :
  translateEach dx dy t
  = setStore t (fold_left (translateStore dx dy) (_selections t) (store t)).
Proof.
  unfold translateEach.
  generalize (_selections t) as sels.
  intros sels; revert t; induction sels as [|a l IH]; intros t.
  - destruct t; reflexivity.
  - cbn [fold_left]. rewrite IH. reflexivity.
Qed.

Lemma translateStore_fold (dx dy : R) (sels : list FeatId) (st : Store) (j : FeatId) :
  NoDup sels ->
  fold_left (translateStore dx dy) sels st j
  = if in_dec Nat.eq_dec j sels then translateFeature dx dy (st j) else st j.
Proof.
  intros Hnd.
  apply (fold_storeModify (translateStore dx dy) (translateFeature dx dy)); [|exact Hnd].
  intros st0 id k; unfold translateStore, storeSetGeometry, storeModify, translateFeature.
  destruct (Nat.eqb_spec k id) as [-> | Hne]; reflexivity.
Qed.

Lemma halfTurn_eq (t : Transform) (sel : FeatId) :
  halfTurn t sel = setStore t (halfTurnStore (store t) sel).
Proof.
  unfold halfTurn, halfTurnStore.
  destruct (angle (store t sel)); [reflexivity | destruct t; reflexivity].
Qed.

Lemma halfTurn_fold_frame (sels : list FeatId) (t : Transform) :
  fold_left halfTurn sels t = setStore t (fold_left halfTurnStore sels (store t)).
Proof.
  revert t; induction sels as [|a l IH]; intros t.
  - destruct t; reflexivity.
  - simpl. rewrite halfTurn_eq, IH. reflexivity.
Qed.

Lemma halfTurn_fold_store (sels : list FeatId) (t : Transform) (j : FeatId) :
  NoDup sels ->
  store (fold_left halfTurn sels t) j
  = if in_dec Nat.eq_dec j sels then halfTurnFeature (store t j) else store t j.
Proof.
  intros Hnd. rewrite halfTurn_fold_frame. cbn [store setStore].
  apply (fold_storeModify halfTurnStore halfTurnFeature); [|exact Hnd].
  intros st id k; unfold halfTurnStore, storeModify, halfTurnFeature.
  destruct (angle (st id)) eqn:Ha; unfold storeSetAngle, storeSetGeometry.
  - destruct (Nat.eqb_spec k id) as [-> | Hne]; [rewrite Ha|]; reflexivity.
  - destruct (Nat.eqb_spec k id) as [-> | Hne]; [rewrite Ha|]; reflexivity.
Qed.

Lemma storeSetGeometry_angle (id : FeatId) (g : Geometry) (st : Store) (j : FeatId) :
  angle (storeSetGeometry id g st j) = angle (st j).
Proof. unfold storeSetGeometry; destruct (Nat.eqb j id); reflexivity. Qed.

Lemma assignFrom_total (geoms : list Geometry) (sels : list FeatId) (i : nat) (st : Store) :
  (i + length geoms <= length sels)%nat ->
  exists st', assignFrom geoms sels i st = Some st'.
Proof.
  revert i st; induction geoms as [|g rest IH]; intros i st Hlen; simpl in *.
  - eexists; reflexivity.
  - destruct (nth_error sels i) as [live|] eqn:Hi.
    + simpl. apply IH. lia.
    + apply nth_error_None in Hi. lia.
Qed.

Lemma assignFrom_spec (geoms : list Geometry) (sels : list FeatId) :
  NoDup sels ->
  forall (i : nat) (st st' : Store),
    assignFrom geoms sels i st = Some st' ->
    (forall k g live,
        nth_error geoms k = Some g -> nth_error sels (i + k) = Some live ->
        st' live = mkFeature g (angle (st live))) /\
    (forall j, (forall k, (k < length geoms)%nat -> nth_error sels (i + k) <> Some j) ->
               st' j = st j).
Proof.
  intros Hnd; induction geoms as [|g rest IH]; intros i st st' Hrun; simpl in Hrun.
  - injection Hrun as <-. split.
    + intros k g live Hk; destruct k; discriminate.
    + reflexivity.
  - destruct (nth_error sels i) as [live0|] eqn:Hi; [|discriminate].
    simpl in Hrun. destruct (IH _ _ _ Hrun) as [IHa IHb]. split.
    + intros k g' live Hk Hlive. destruct k as [|k].
      * simpl in Hk; injection Hk as <-.
        rewrite Nat.add_0_r, Hi in Hlive; injection Hlive as <-.
        rewrite IHb.
        -- unfold storeSetGeometry. rewrite Nat.eqb_refl. reflexivity.
        -- intros k Hk Hcontra.
           assert (Hlt : (i < length sels)%nat)
             by (apply nth_error_Some; rewrite Hi; discriminate).
           pose proof (proj1 (NoDup_nth_error sels) Hnd i (S i + k)%nat Hlt) as Hinj.
           rewrite Hi, Hcontra in Hinj. specialize (Hinj eq_refl). lia.
      * simpl in Hk.
        replace (i + S k)%nat with (S i + k)%nat in Hlive by lia.
        rewrite (IHa k g' live Hk Hlive), storeSetGeometry_angle. reflexivity.
    + intros j Hj. rewrite IHb.
      * unfold storeSetGeometry.
        destruct (Nat.eqb_spec j live0) as [-> | Hne]; [|reflexivity].
        exfalso. apply (Hj 0%nat); [simpl; lia|]. rewrite Nat.add_0_r. exact Hi.
      * intros k Hk. replace (S i + k)%nat with (i + S k)%nat by lia.
        apply Hj. simpl; lia.
Qed.

Lemma rotateEach_eq (da : R) (prevs : list Feature) (i : nat) (t : Transform) :
  rotateEach da prevs i t
  = (st <- assignFrom (map (rotatedGeometry da) prevs) (_selections t) i (store t) ;;
     Some (map (rotateSnapshot da) prevs, setStore t st)).
Proof.
  revert i t; induction prevs as [|sel rest IH]; intros i t.
  - simpl. destruct t; reflexivity.
  - cbn [rotateEach map assignFrom].
    destruct (nth_error (_selections t) i) as [live|]; [|reflexivity].
    cbn [bind]. rewrite IH. cbn [store setStore _selections].
    unfold rotatedGeometry at 2; unfold boxCenter.
    destruct (assignFrom _ _ _ _); reflexivity.
Qed.

Lemma scaleEach_eq (sx sy : R) (k : Z) (prevs : list Feature) (i : nat) (t : Transform) :
  scaleEach sx sy k prevs i t
  = (st <- assignFrom (map (scaledGeometry sx sy k) prevs) (_selections t) i (store t) ;;
     Some (setStore t st)).
Proof.
  revert i t; induction prevs as [|sel rest IH]; intros i t.
  - simpl. destruct t; reflexivity.
  - cbn [scaleEach map assignFrom].
    rewrite orientedBox_eq; unfold ringOf. cbn [map bind].
    rewrite calcScaleHandleCoord_ring. cbn [bind].
    destruct (nth_error (_selections t) i) as [live|]; [|reflexivity].
    cbn [bind]. rewrite IH. reflexivity.
Qed.

(** ** The handlers in closed form *)

Ltac proj_state :=
  cbn [store _selections _prevSelections _handleLayer _mode _isTransformed
       _startCoord _prevCoord _rotationSelection _scalingSelection _headInverted
       handlingDownUpSequence dispatched
       setStore setSelections setPrevSelections setHandleLayer setMode
       setIsTransformed setStartCoord setPrevCoord setRotationSelection
       setScalingSelection setHeadInverted setHandling setDispatched] in *.

Lemma dispatchAll_types (start coord : Coordinate) (tys : list TransformEventType)
    (log : list TransformEvent) :
  map type (dispatchAll start coord tys log) = map type log ++ tys.
Proof.
  unfold dispatchAll; revert log; induction tys as [|ty rest IH]; intros log; simpl.
  - rewrite app_nil_r; reflexivity.
  - rewrite IH, map_app, <- app_assoc. reflexivity.
Qed.

Lemma handleUpEvent_eq (evt : MapBrowserEvent) (t : Transform) :
  handleUpEvent evt t = Some (released evt t, false).
Proof.
  unfold handleUpEvent, released, releasedStore, upTypes.
  rewrite halfTurn_fold_frame, drawHandles_eq.
  destruct t as [st sels prevs layer m tr sc pc rs ss hi hd log].
  destruct m, hi, tr; reflexivity.
Qed.

Lemma handleDownEvent_body (evt : MapBrowserEvent) (t t1 : Transform) (feat : FeatId) :
  selectFeature evt t = Some (t1, Some (Body feat)) ->
  handleDownEvent evt t
  = Some (withPrevCoord (evtCoordinate evt) (pressed evt t1 translate), true).
Proof.
  intros Hsel; unfold handleDownEvent. rewrite Hsel.
  destruct t1; reflexivity.
Qed.

Lemma handleDownEvent_none (evt : MapBrowserEvent) (t : Transform) :
  firstAccepted (atPixel evt) = None ->
  exists t1,
    handleDownEvent evt t = Some (t1, false) /\
    _selections t1 = [] /\
    store t1 = store t /\
    dispatched t1 = dispatched t ++ [mkEvent mousedown (_startCoord t) (evtCoordinate evt)].
Proof.
  intros Hnone; unfold handleDownEvent, selectFeature.
  rewrite (forEach_none _ _ _ Hnone). cbn [bind].
  rewrite selClear_eq. cbn [bind].
  destruct t as [st sels prevs layer m tr sc pc rs ss hi hd log].
  destruct sels; eexists; (split; [reflexivity|]); repeat split; reflexivity.
Qed.

Lemma initHandleGesture_scale (evt : MapBrowserEvent) (hf : HandleFeature) (t : Transform) :
  mode hf = scale ->
  initHandleGesture evt hf t
  = Some (setScalingSelection (setMode t scale)
            (scalingOf (angleOrZero (store t (body hf))) (geometry (store t (body hf)))
               (index hf))).
Proof.
  intros Hmode; unfold initHandleGesture.
  replace (_mode (setMode t (mode hf))) with scale by (rewrite Hmode; reflexivity).
  replace (store (setMode t (mode hf))) with (store t) by reflexivity.
  rewrite orientedBox_eq; unfold ringOf. cbn [map bind].
  rewrite !calcScaleHandleCoord_ring. cbn [bind nth_error].
  rewrite Hmode. reflexivity.
Qed.

Lemma handleDownEvent_scale (evt : MapBrowserEvent) (t : Transform) (hf : HandleFeature) :
  firstAccepted (atPixel evt) = Some (Handle hf) ->
  mode hf = scale ->
  handleDownEvent evt t
  = Some (withScaling
            (scalingOf (angleOrZero (store t (body hf))) (geometry (store t (body hf)))
               (index hf))
            (pressed evt t scale),
          true).
Proof.
  intros Hpick Hmode; unfold handleDownEvent, selectFeature.
  rewrite (forEach_handle _ _ _ _ Hpick). cbn [bind].
  rewrite (initHandleGesture_scale _ _ _ Hmode). cbn [bind].
  destruct t; reflexivity.
Qed.

Lemma handleDownEvent_rotate (evt : MapBrowserEvent) (t : Transform) (hf : HandleFeature) :
  firstAccepted (atPixel evt) = Some (Handle hf) ->
  mode hf = rotate ->
  handleDownEvent evt t
  = Some (withRotation (rotationOf (geometry (store t (body hf))) (evtCoordinate evt))
            (pressed evt t rotate),
          true).
Proof.
  intros Hpick Hmode; unfold handleDownEvent, selectFeature.
  rewrite (forEach_handle _ _ _ _ Hpick). cbn [bind].
  unfold initHandleGesture.
  replace (_mode (setMode _ (mode hf))) with rotate by (rewrite Hmode; reflexivity).
  cbn [bind]. rewrite Hmode. destruct t; reflexivity.
Qed.

Lemma handleDragEvent_translate (evt : MapBrowserEvent) (t : Transform) :
  _mode t = translate ->
  handleDragEvent evt t
  = Some (framed evt t
            (fold_left (translateStore (fst (evtCoordinate evt) - fst (_prevCoord t))
                                       (snd (evtCoordinate evt) - snd (_prevCoord t)))
                       (_selections t) (store t))
            (_prevSelections t) (evtCoordinate evt) (_headInverted t)).
Proof.
  intros Hmode; unfold handleDragEvent, framed.
  destruct t as [st sels prevs layer m tr sc pc rs ss hi hd log].
  cbn in Hmode; subst m.
  cbn [_mode _prevCoord setIsTransformed setHandleLayer].
  destruct evt as [ty [x y] cands add], pc as [px py].
  cbn [bind fst snd evtCoordinate].
  rewrite translateEach_frame. reflexivity.
Qed.

Lemma handleDragEvent_rotate (evt : MapBrowserEvent) (t : Transform) :
  _mode t = rotate ->
  handleDragEvent evt t
  = (st' <- assignFrom
              (map (rotatedGeometry (rotationDelta (_rotationSelection t) (evtCoordinate evt)))
                   (_prevSelections t))
              (_selections t) 0 (store t) ;;
     Some (framed evt t st'
             (map (rotateSnapshot (rotationDelta (_rotationSelection t) (evtCoordinate evt)))
                  (_prevSelections t))
             (_prevCoord t) (_headInverted t))).
Proof.
  intros Hmode; unfold handleDragEvent.
  replace (_mode (setIsTransformed (setHandleLayer t []) true)) with rotate
    by (rewrite <- Hmode; reflexivity).
  unfold rotationDelta in *.
  destruct evt as [ty [x y] cands add]. cbn [fst snd evtCoordinate] in *.
  rewrite rotateEach_eq.
  destruct t as [st sels prevs layer m tr sc pc rs ss hi hd log].
  cbn in Hmode; subst m. proj_state.
  destruct (assignFrom _ sels 0 st); reflexivity.
Qed.

Lemma handleDragEvent_scale (evt : MapBrowserEvent) (t : Transform) :
  _mode t = scale ->
  handleDragEvent evt t
  = (st' <- assignFrom
              (map (scaledGeometry
                      (fst (scaleFactors (_scalingSelection t) (evtCoordinate evt)))
                      (snd (scaleFactors (_scalingSelection t) (evtCoordinate evt)))
                      (oppositeIdx (_scalingSelection t)))
                   (_prevSelections t))
              (_selections t) 0 (store t) ;;
     Some (framed evt t st' (_prevSelections t) (_prevCoord t)
             (JsMath.ltb (snd (scaleFactors (_scalingSelection t) (evtCoordinate evt))) 0))).
Proof.
  intros Hmode; unfold handleDragEvent.
  replace (_mode (setIsTransformed (setHandleLayer t []) true)) with scale
    by (rewrite <- Hmode; reflexivity).
  destruct t as [st sels prevs layer m tr sc pc rs ss hi hd log].
  cbn in Hmode; subst m. proj_state.
  destruct (scaleFactors ss (evtCoordinate evt)) as [sx sy].
  cbn [fst snd] in *.
  rewrite scaleEach_eq. proj_state.
  destruct (assignFrom _ sels 0 st); reflexivity.
Qed.

Lemma handleDragEvent_idle (evt : MapBrowserEvent) (t : Transform) :
  _mode t = idle ->
  handleDragEvent evt t
  = Some (framed evt t (store t) (_prevSelections t) (_prevCoord t) (_headInverted t)).
Proof.
  intros Hmode; unfold handleDragEvent.
  replace (_mode (setIsTransformed (setHandleLayer t []) true)) with idle
    by (rewrite <- Hmode; reflexivity).
  destruct t as [st sels prevs layer m tr sc pc rs ss hi hd log].
  cbn in Hmode; subst m. reflexivity.
Qed.

(** Whatever the mode, a frame that returns leaves a [framed] state. *)
Lemma handleDragEvent_framed (evt : MapBrowserEvent) (t t' : Transform) :
  handleDragEvent evt t = Some t' ->
  exists st prevs pc hi, t' = framed evt t st prevs pc hi.
Proof.
  destruct (_mode t) eqn:Hmode.
  - rewrite (handleDragEvent_idle _ _ Hmode). intros H; injection H as <-.
    do 4 eexists; reflexivity.
  - rewrite (handleDragEvent_translate _ _ Hmode). intros H; injection H as <-.
    do 4 eexists; reflexivity.
  - rewrite (handleDragEvent_scale _ _ Hmode).
    destruct (assignFrom _ _ _ _); cbn [bind]; [|discriminate].
    intros H; injection H as <-. do 4 eexists; reflexivity.
  - rewrite (handleDragEvent_rotate _ _ Hmode).
    destruct (assignFrom _ _ _ _); cbn [bind]; [|discriminate].
    intros H; injection H as <-. do 4 eexists; reflexivity.
Qed.

(** ** Translation *)

Lemma translate_translate (dx dy dx' dy' : R) (g : Geometry) :
  Ol.translate dx' dy' (Ol.translate dx dy g) = Ol.translate (dx + dx') (dy + dy') g.
Proof.
  unfold Ol.translate. rewrite applyTransform_compose.
  apply applyTransform_ext. intros [x y]; unfold Ol.translateCoord; simpl.
  f_equal; ring.
Qed.

Lemma translate_zero (dx dy : R) (g : Geometry) :
  dx = 0 -> dy = 0 -> Ol.translate dx dy g = g.
Proof.
  intros -> ->. apply applyTransform_id.
  intros [x y]; unfold Ol.translateCoord; simpl. f_equal; ring.
Qed.

Lemma translateFeature_compose (dx dy dx' dy' : R) (f : Feature) :
  translateFeature dx' dy' (translateFeature dx dy f) = translateFeature (dx + dx') (dy + dy') f.
Proof. unfold translateFeature; simpl. rewrite translate_translate. reflexivity. Qed.

Lemma translateFeature_zero (dx dy : R) (f : Feature) :
  dx = 0 -> dy = 0 -> translateFeature dx dy f = f.
Proof.
  intros Hx Hy; unfold translateFeature. rewrite translate_zero by assumption.
  destruct f; reflexivity.
Qed.

Lemma last_cons {A : Type} (l : list A) (a d : A) : last (a :: l) d = last l a.
Proof.
  revert a d; induction l as [|b l IH]; intros a d; [reflexivity|].
  change (last (a :: b :: l) d) with (last (b :: l) d).
  rewrite (IH b d), (IH b a). reflexivity.
Qed.

Lemma lastPointer_cons (evt : MapBrowserEvent) (frames : list MapBrowserEvent)
    (start : Coordinate) :
  lastPointer (evt :: frames) start = lastPointer frames (evtCoordinate evt).
Proof. unfold lastPointer. cbn [map]. apply last_cons. Qed.

Lemma dragFrames_translate (frames : list MapBrowserEvent) (t : Transform) :
  _mode t = translate ->
  NoDup (_selections t) ->
  exists t',
    dragFrames frames t = Some t' /\
    _mode t' = translate /\
    _selections t' = _selections t /\
    _headInverted t' = _headInverted t /\
    (forall j,
        store t' j
        = if in_dec Nat.eq_dec j (_selections t)
          then translateFeature (fst (lastPointer frames (_prevCoord t)) - fst (_prevCoord t))
                                (snd (lastPointer frames (_prevCoord t)) - snd (_prevCoord t))
                                (store t j)
          else store t j).
Proof.
  revert t; induction frames as [|evt rest IH]; intros t Hmode Hnd.
  - exists t. split; [reflexivity|]. split; [exact Hmode|]. do 2 (split; [reflexivity|]).
    intros j. destruct (in_dec Nat.eq_dec j (_selections t)); [|reflexivity].
    unfold lastPointer; simpl. rewrite translateFeature_zero; [reflexivity | ring | ring].
  - cbn [dragFrames]. rewrite (handleDragEvent_translate _ _ Hmode). cbn [bind].
    match goal with |- context [dragFrames rest ?u] => set (t1 := u) end.
    destruct (IH t1 Hmode Hnd) as (t' & Hrun & Hm & Hs & Hh & Hst).
    exists t'. do 4 (split; [assumption|]).
    intros j. rewrite Hst, lastPointer_cons.
    subst t1; cbn [store _selections _prevCoord framed].
    rewrite translateStore_fold by exact Hnd.
    destruct (in_dec Nat.eq_dec j (_selections t)); [|reflexivity].
    rewrite translateFeature_compose. f_equal; ring.
Qed.

Lemma handleDownEvent_translate_prevCoord (evt : MapBrowserEvent) (t t1 : Transform) :
  handleDownEvent evt t = Some (t1, true) ->
  _mode t1 = translate ->
  _prevCoord t1 = evtCoordinate evt.
Proof.
  unfold handleDownEvent.
  destruct (selectFeature evt t) as [[t0 [picked|]]|]; cbn [bind]; [| |discriminate].
  - destruct picked as [feat | hf].
    + cbn [bind]. intros H _; injection H as <-. reflexivity.
    + destruct (mode hf) eqn:Hm.
      * unfold initHandleGesture.
        replace (_mode (setMode _ (mode hf))) with idle by (rewrite Hm; reflexivity).
        cbn [bind]. intros H Hmode; injection H as <-.
        rewrite Hm in Hmode. discriminate Hmode.
      * unfold initHandleGesture.
        replace (_mode (setMode _ (mode hf))) with translate by (rewrite Hm; reflexivity).
        cbn [bind]. intros H _; injection H as <-. rewrite Hm. reflexivity.
      * rewrite (initHandleGesture_scale _ _ _ Hm). cbn [bind].
        intros H Hmode; injection H as <-. discriminate Hmode.
      * unfold initHandleGesture.
        replace (_mode (setMode _ (mode hf))) with rotate by (rewrite Hm; reflexivity).
        cbn [bind]. intros H Hmode; injection H as <-.
        rewrite Hm in Hmode. discriminate Hmode.
  - destruct (selClear t0); cbn [bind]; discriminate.
Qed.

(** C9. In translate mode the per-frame deltas add up: whatever frames lead
    from the press point [A] to the last pointer position [B], after the
    release every selected shape is displaced by exactly [B - A] (its
    attribute untouched) and every other shape is where it was. *)
Theorem translate_composition
    (t0 t1 : Transform) (down up : MapBrowserEvent) (frames : list MapBrowserEvent) :
  handleDownEvent down t0 = Some (t1, true) ->
  _mode t1 = translate ->
  NoDup (_selections t1) ->
  exists t2 t3,
    dragFrames frames t1 = Some t2 /\
    handleUpEvent up t2 = Some (t3, false) /\
    forall id,
      (In id (_selections t1) ->
       store t3 id
       = translateFeature
           (fst (lastPointer frames (evtCoordinate down)) - fst (evtCoordinate down))
           (snd (lastPointer frames (evtCoordinate down)) - snd (evtCoordinate down))
           (store t1 id)) /\
      (~ In id (_selections t1) -> store t3 id = store t1 id).
Proof.
  intros Hdown Hmode Hnd.
  pose proof (handleDownEvent_translate_prevCoord _ _ _ Hdown Hmode) as Hprev.
  destruct (dragFrames_translate frames t1 Hmode Hnd) as (t2 & Hrun & Hm & Hs & Hh & Hst).
  exists t2, (released up t2). split; [exact Hrun|]. split; [apply handleUpEvent_eq|].
  intros id. cbn [store released]. unfold releasedStore. rewrite Hm. cbn [mode_eqb andb].
  rewrite Hst, Hprev.
  destruct (in_dec Nat.eq_dec id (_selections t1)) as [Hin | Hout]; split; intros H;
    try reflexivity; contradiction.
Qed.

(** ** The scenarios of the specification: one square *)

Lemma select_fresh_square (a : option R) (coord : Coordinate) :
  selectFeature (pressOn (Body 0%nat) coord false) (newTransform (squareStore a))
  = Some (setHandleLayer (setSelections (newTransform (squareStore a)) [0%nat])
            (overlay (squareStore a) [0%nat]),
          Some (Body 0%nat)).
Proof.
  unfold selectFeature. rewrite (forEach_body _ _ _ 0%nat) by reflexivity.
  cbn [newTransform _selections indexOf indexOfFrom Z.eqb pressOn addCondition].
  rewrite selClear_eq. cbn [bind _selections].
  rewrite selPush_eq. reflexivity.
Qed.

Lemma selectedSquare_reached (a : option R) :
  handleEvents [pressOn (Body 0%nat) (5, 5) false; releaseAt (5, 5)]
    (newTransform (squareStore a))
  = Some (selectedSquare a).
Proof.
  cbn [handleEvents handleEvent newTransform handlingDownUpSequence pressOn evtType].
  rewrite (handleDownEvent_body _ _ _ _ (select_fresh_square a (5, 5))).
  cbn [bind]. unfold handleEvent at 1.
  cbn [handlingDownUpSequence setHandling releaseAt evtType].
  rewrite handleUpEvent_eq. reflexivity.
Qed.

(** Resolving [Rmin] and [Rmax] of numerals. *)
Ltac Rminmax :=
  repeat match goal with
  | |- context [Rmin ?a ?b] =>
      first [rewrite (Rmin_left a b) by lra | rewrite (Rmin_right a b) by lra]
  | |- context [Rmax ?a ?b] =>
      first [rewrite (Rmax_left a b) by lra | rewrite (Rmax_right a b) by lra]
  end.

(** Equality of coordinates and geometries, componentwise. *)
Ltac coords :=
  repeat match goal with
  | |- Area _ _ = Area _ _ => f_equal
  | |- Point _ = Point _ => f_equal
  | |- Some _ = Some _ => f_equal
  | |- mkExtent _ _ _ _ = mkExtent _ _ _ _ => f_equal
  | |- (_ :: _) = (_ :: _) => f_equal
  | |- (_, _) = (_, _) => f_equal
  | |- @eq R _ _ => lra
  end.

Lemma rotateCoord_zero (a : R) (c p : Coordinate) : a = 0 -> Ol.rotateCoord a c p = p.
Proof.
  intros ->. unfold Ol.rotateCoord. rewrite cos_0, sin_0. destruct p; simpl. f_equal; ring.
Qed.

Lemma rotate_zero (a : R) (c : Coordinate) (g : Geometry) : a = 0 -> Ol.rotate a c g = g.
Proof. intros H. apply applyTransform_id. intros p. apply rotateCoord_zero, H. Qed.

Lemma rotatePoint_zero (a : R) (p c : Coordinate) : a = 0 -> rotatePoint p c a = p.
Proof.
  intros ->. destruct p, c; unfold rotatePoint. rewrite cos_0, sin_0. f_equal; ring.
Qed.

Lemma boxHandle_zero (g : Geometry) (k : Z) :
  boxHandle 0 g k
  = handleOn (minX (Ol.getExtent g), maxY (Ol.getExtent g))
             (minX (Ol.getExtent g), minY (Ol.getExtent g))
             (maxX (Ol.getExtent g), minY (Ol.getExtent g))
             (maxX (Ol.getExtent g), maxY (Ol.getExtent g)) k.
Proof.
  unfold boxHandle, normalExtent.
  rewrite rotate_zero by ring.
  rewrite !rotateCoord_zero by reflexivity. reflexivity.
Qed.

Lemma calcDistance_eq (c1 c2 : Coordinate) :
  calcDistance c1 c2 = sqrt ((fst c1 - fst c2) ^ 2 + (snd c1 - snd c2) ^ 2).
Proof.
  unfold calcDistance, calcSize. rewrite !pow2_abs. reflexivity.
Qed.

Lemma sqrt_of_square (x y : R) : 0 <= y -> x = y * y -> sqrt x = y.
Proof. intros Hy ->. apply sqrt_square, Hy. Qed.

Lemma square_extent : Ol.getExtent square = mkExtent 0 0 10 10.
Proof.
  unfold square, Ol.getExtent, Ol.boundingExtent, Ol.extendCoordinate. simpl.
  Rminmax. reflexivity.
Qed.

Lemma square_handles (k : Z) :
  boxHandle 0 square k = handleOn (0, 10) (0, 0) (10, 0) (10, 10) k.
Proof. rewrite boxHandle_zero, square_extent. reflexivity. Qed.

Lemma unrotated_angle (a : option R) :
  unrotated a -> angleOrZero (mkFeature square a) = 0.
Proof. destruct a; simpl; intros H; [exact H | reflexivity]. Qed.

Lemma squareOverlay_eq (a : option R) :
  unrotated a -> overlay (squareStore a) [0%nat] = squareOverlay.
Proof.
  intros Ha. unfold overlay, boxHandles, translateHandleOf, squareStore.
  cbn [geometry square]. fold square.
  rewrite (unrotated_angle a Ha), square_extent.
  cbn [map ringIndices app Ol.fromExtent minX minY maxX maxY].
  rewrite !square_handles. cbn [handleOn]. rewrite !centerOf_mid. cbn [fst snd].
  unfold squareOverlay. repeat (f_equal; try lra).
Qed.

Lemma select_selected_body (a : option R) (coord : Coordinate) :
  selectFeature (pressOn (Body 0%nat) coord false) (selectedSquare a)
  = Some (selectedSquare a, Some (Body 0%nat)).
Proof.
  unfold selectFeature. rewrite (forEach_body _ _ _ 0%nat) by reflexivity.
  reflexivity.
Qed.

Lemma NoDup_single (x : FeatId) : NoDup [x].
Proof. constructor; [intros [] | constructor]. Qed.

(** The scenario of C9: a press on the body at (5,5), frames to (6,4) and
    (8,3), release: the square ends up displaced by (3,-2). *)
Lemma translate_composition_witness :
  exists t1 t2 t3,
    handleDownEvent (pressOn (Body 0%nat) (5, 5) false) (selectedSquare None) = Some (t1, true) /\
    dragFrames [dragTo (6, 4); dragTo (8, 3)] t1 = Some t2 /\
    handleUpEvent (releaseAt (8, 3)) t2 = Some (t3, false) /\
    geometry (store t3 0%nat) = Area (3, -2) [(13, -2); (13, 8); (3, 8)].
Proof.
  pose (down := pressOn (Body 0%nat) (5, 5) false).
  pose (t1 := withPrevCoord (evtCoordinate down) (pressed down (selectedSquare None) translate)).
  assert (Hdown : handleDownEvent down (selectedSquare None) = Some (t1, true))
    by (apply (handleDownEvent_body _ _ _ 0%nat), select_selected_body).
  destruct (translate_composition (selectedSquare None) t1 down (releaseAt (8, 3))
              [dragTo (6, 4); dragTo (8, 3)] Hdown eq_refl (NoDup_single 0%nat))
    as (t2 & t3 & Hdrag & Hup & Hstore).
  exists t1, t2, t3. split; [exact Hdown|]. split; [exact Hdrag|]. split; [exact Hup|].
  destruct (Hstore 0%nat) as [Hin _]. rewrite Hin by (left; reflexivity).
  unfold lastPointer; simpl. unfold Ol.translateCoord; simpl. coords.
Defined.

(** ** Toggling a selected shape off *)

Lemma indexOfFrom_found (feat : FeatId) (l : list FeatId) (k : Z) :
  In feat l ->
  exists i, indexOfFrom feat l k = (k + Z.of_nat i)%Z /\ nth_error l i = Some feat.
Proof.
  revert k; induction l as [|x rest IH]; intros k Hin; [contradiction|].
  simpl. destruct (Nat.eqb_spec x feat) as [-> | Hne].
  - exists 0%nat. split; [lia | reflexivity].
  - destruct Hin as [E | Hin]; [contradiction|].
    destruct (IH (k + 1)%Z Hin) as (i & Hi & Hnth).
    exists (S i). split; [rewrite Hi; lia | exact Hnth].
Qed.

Lemma removeNth_split {A : Type} (l1 l2 : list A) (x : A) :
  removeNth (length l1) (l1 ++ x :: l2) = l1 ++ l2.
Proof.
  unfold removeNth; induction l1 as [|a l1 IH]; simpl; [reflexivity|].
  f_equal. exact IH.
Qed.

Lemma removeNth_NoDup (l : list FeatId) (i : nat) (feat : FeatId) :
  NoDup l -> nth_error l i = Some feat ->
  NoDup (removeNth i l) /\
  ~ In feat (removeNth i l) /\
  (forall x, x <> feat -> (In x (removeNth i l) <-> In x l)).
Proof.
  intros Hnd Hnth.
  destruct (nth_error_split l i Hnth) as (l1 & l2 & -> & <-).
  rewrite removeNth_split.
  split; [exact (NoDup_remove_1 _ _ _ Hnd)|].
  split; [exact (NoDup_remove_2 _ _ _ Hnd)|].
  intros x Hx. rewrite !in_app_iff. simpl. intuition congruence.
Qed.

(** C10. A press on a selected body with the additive modifier held removes
    the shape from the selection and still starts a translate gesture: the
    hit is reported as handled, the mode is translate, [translatestart] and
    [transformstart] follow [mousedown], and the frames move the shapes that
    remain selected, by the pointer's displacement, and not the shape that
    was taken out. *)
Theorem toggle_off_starts_translate
    (t : Transform) (evt : MapBrowserEvent) (feat : FeatId) :
  NoDup (_selections t) ->
  In feat (_selections t) ->
  addCondition evt = true ->
  firstAccepted (atPixel evt) = Some (Body feat) ->
  exists t1,
    handleDownEvent evt t = Some (t1, true) /\
    ~ In feat (_selections t1) /\
    (forall x, x <> feat -> (In x (_selections t1) <-> In x (_selections t))) /\
    _mode t1 = translate /\
    map type (dispatched t1)
    = map type (dispatched t) ++ [mousedown; translatestart; transformstart] /\
    forall frames,
    exists t2,
      dragFrames frames t1 = Some t2 /\
      store t2 feat = store t feat /\
      forall x,
        In x (_selections t1) ->
        store t2 x
        = translateFeature
            (fst (lastPointer frames (evtCoordinate evt)) - fst (evtCoordinate evt))
            (snd (lastPointer frames (evtCoordinate evt)) - snd (evtCoordinate evt))
            (store t x).
Proof.
  intros Hnd Hin Hadd Hpick.
  destruct (indexOfFrom_found feat (_selections t) 0 Hin) as (i & Hi & Hnth).
  assert (Hlt : (i < length (_selections t))%nat)
    by (apply nth_error_Some; rewrite Hnth; discriminate).
  destruct (removeNth_NoDup _ _ _ Hnd Hnth) as (Hnd' & Hout & Hrest).
  set (sels' := removeNth i (_selections t)) in *.
  set (t0 := setHandleLayer (setSelections t sels') (overlay (store t) sels')).
  assert (Hsel : selectFeature evt t = Some (t0, Some (Body feat))).
  { unfold selectFeature. rewrite (forEach_body _ _ _ feat Hpick).
    cbv zeta. rewrite Hadd. unfold indexOf. rewrite Hi.
    replace (0 + Z.of_nat i =? -1)%Z with false by (symmetry; apply Z.eqb_neq; lia).
    replace (0 + Z.of_nat i)%Z with (Z.of_nat i) by lia.
    rewrite (selRemoveAt_in_range i t Hlt). reflexivity. }
  exists (withPrevCoord (evtCoordinate evt) (pressed evt t0 translate)).
  split; [exact (handleDownEvent_body _ _ _ _ Hsel)|].
  split; [exact Hout|]. split; [exact Hrest|]. split; [reflexivity|].
  split.
  { cbn [dispatched withPrevCoord pressed]. rewrite dispatchAll_types, map_app.
    cbn [modeEvents app map type dispatched t0 setHandleLayer setSelections].
    rewrite <- app_assoc. reflexivity. }
  intros frames.
  destruct (dragFrames_translate frames
              (withPrevCoord (evtCoordinate evt) (pressed evt t0 translate))
              eq_refl Hnd') as (t2 & Hrun & _ & _ & _ & Hst).
  exists t2. split; [exact Hrun|].
  cbn [store _selections _prevCoord withPrevCoord pressed] in Hst.
  change (store t0) with (store t) in Hst.
  change (_selections t0) with sels' in Hst.
  split.
  - rewrite Hst. destruct (in_dec Nat.eq_dec feat sels'); [contradiction | reflexivity].
  - intros x Hx. rewrite Hst. destruct (in_dec Nat.eq_dec x sels'); [reflexivity | contradiction].
Qed.

(** The square, selected, pressed with the additive modifier: it leaves the
    selection, the gesture starts, and a frame moves nothing. *)
Lemma toggle_off_starts_translate_witness :
  exists t1 t2,
    handleDownEvent (pressOn (Body 0%nat) (5, 5) true) (selectedSquare None) = Some (t1, true) /\
    _selections t1 = [] /\
    _mode t1 = translate /\
    dragFrames [dragTo (8, 3)] t1 = Some t2 /\
    store t2 0%nat = mkFeature square None.
Proof.
  destruct (toggle_off_starts_translate (selectedSquare None)
              (pressOn (Body 0%nat) (5, 5) true) 0%nat
              (NoDup_single 0%nat) (or_introl eq_refl) eq_refl eq_refl)
    as (t1 & Hdown & Hout & Hrest & Hmode & Hlog & Hframes).
  destruct (Hframes [dragTo (8, 3)]) as (t2 & Hrun & Hfeat & _).
  exists t1, t2. split; [exact Hdown|]. split.
  { destruct (_selections t1) as [|x l] eqn:Hs; [reflexivity|].
    exfalso. destruct (Nat.eq_dec x 0%nat) as [-> | Hne].
    - apply Hout. left; reflexivity.
    - assert (Hx : In x (x :: l)) by (left; reflexivity).
      apply (Hrest x Hne) in Hx. destruct Hx as [E | []]. apply Hne. symmetry. exact E. }
  split; [exact Hmode|]. split; [exact Hrun|]. exact Hfeat.
Defined.

(** ** What a press keeps *)

Lemma keeps_refl (t : Transform) : keeps t t.
Proof. unfold keeps; destruct t; reflexivity. Qed.

Lemma keeps_trans (t t' t'' : Transform) : keeps t t' -> keeps t' t'' -> keeps t t''.
Proof. unfold keeps; intros H1 H2. rewrite H2, H1. reflexivity. Qed.

Lemma keeps_closed (t : Transform) (sels : list FeatId) (layer : list HandleFeature) :
  keeps t (setHandleLayer (setSelections t sels) layer).
Proof. reflexivity. Qed.

Lemma selRemoveAt_keeps (i : Z) (t t' : Transform) :
  selRemoveAt i t = Some t' -> keeps t t'.
Proof.
  unfold selRemoveAt.
  destruct ((i <? 0)%Z || (Z.of_nat (length (_selections t)) <=? i)%Z).
  - intros H; injection H as <-. apply keeps_refl.
  - rewrite drawHandles_eq. intros H; injection H as <-. reflexivity.
Qed.

Lemma selectCallback_keeps (evt : MapBrowserEvent) (c : Candidate) (t t' : Transform)
    (r : option Pick) :
  selectCallback evt c t = Some (t', r) -> keeps t t'.
Proof.
  destruct (accepted c) eqn:Ha.
  - rewrite (selectCallback_accepted _ _ _ Ha).
    destruct (target c) as [feat | hf].
    + cbv zeta.
      destruct (addCondition evt), (indexOf feat (_selections t) =? -1)%Z.
      * rewrite selPush_eq. cbn [bind]. intros H; injection H as Ht Hpick; rewrite <- Ht. reflexivity.
      * destruct (selRemoveAt _ t) as [t1|] eqn:Hr; cbn [bind]; [|discriminate].
        intros H; injection H as Ht Hpick; rewrite <- Ht. exact (selRemoveAt_keeps _ _ _ Hr).
      * rewrite selClear_eq. cbn [bind]. rewrite selPush_eq. cbn [bind].
        intros H; injection H as Ht Hpick; rewrite <- Ht.
        destruct (_selections t); reflexivity.
      * cbn [bind]. intros H; injection H as Ht Hpick; rewrite <- Ht. apply keeps_refl.
    + intros H; injection H as Ht Hpick; rewrite <- Ht. apply keeps_refl.
  - rewrite (selectCallback_rejected _ _ _ Ha).
    intros H; injection H as Ht Hpick; rewrite <- Ht. apply keeps_refl.
Qed.

Lemma selectFeature_keeps (evt : MapBrowserEvent) (t t' : Transform) (r : option Pick) :
  selectFeature evt t = Some (t', r) -> keeps t t'.
Proof.
  unfold selectFeature. generalize (atPixel evt) as cands.
  intros cands; revert t; induction cands as [|c rest IH]; intros t; cbn [forEachFeatureAtPixel].
  - intros H; injection H as Ht Hpick; rewrite <- Ht. apply keeps_refl.
  - destruct (selectCallback evt c t) as [[t1 r1]|] eqn:Hc; cbn [bind]; [|discriminate].
    pose proof (selectCallback_keeps _ _ _ _ _ Hc) as Hk.
    destruct r1 as [p|].
    + intros H; injection H as Ht Hpick; rewrite <- Ht. exact Hk.
    + intros H. exact (keeps_trans _ _ _ Hk (IH _ H)).
Qed.

Lemma handleDownEvent_handled (evt : MapBrowserEvent) (t t1 : Transform) :
  handleDownEvent evt t = Some (t1, true) ->
  exists tsel picked,
    selectFeature evt t = Some (tsel, Some picked) /\
    keeps t tsel /\
    sameButDragState (pressed evt tsel (_mode t1)) t1.
Proof.
  unfold handleDownEvent.
  destruct (selectFeature evt t) as [[t0 [picked|]]|] eqn:Hsel; cbn [bind]; [| |discriminate].
  - pose proof (selectFeature_keeps _ _ _ _ Hsel) as Hk.
    intros Hrun. exists t0, picked. split; [reflexivity|]. split; [exact Hk|]. revert Hrun.
    destruct picked as [feat | hf].
    + cbn [bind]. intros H; injection H as <-.
      destruct t0; repeat split.
    + destruct (mode hf) eqn:Hm.
      * unfold initHandleGesture.
        replace (_mode (setMode _ (mode hf))) with idle by (rewrite Hm; reflexivity).
        cbn [bind]. intros H; injection H as <-. rewrite Hm.
        destruct t0; repeat split.
      * unfold initHandleGesture.
        replace (_mode (setMode _ (mode hf))) with translate by (rewrite Hm; reflexivity).
        cbn [bind]. intros H; injection H as <-. rewrite Hm.
        destruct t0; repeat split.
      * rewrite (initHandleGesture_scale _ _ _ Hm). cbn [bind].
        intros H; injection H as <-.
        destruct t0; repeat split.
      * unfold initHandleGesture.
        replace (_mode (setMode _ (mode hf))) with rotate by (rewrite Hm; reflexivity).
        cbn [bind]. intros H; injection H as <-. rewrite Hm.
        destruct t0; repeat split.
  - destruct (selClear t0); cbn [bind]; discriminate.
Qed.

(** ** Notifications and the overlay along a gesture *)

Lemma dragFrames_frame (frames : list MapBrowserEvent) (t t' : Transform) :
  dragFrames frames t = Some t' ->
  _mode t' = _mode t /\
  _selections t' = _selections t /\
  _scalingSelection t' = _scalingSelection t /\
  (frames = [] -> t' = t) /\
  (frames <> [] -> _isTransformed t' = true /\ _handleLayer t' = []).
Proof.
  revert t; induction frames as [|evt rest IH]; intros t; cbn [dragFrames].
  - intros H; injection H as <-.
    do 4 (split; [reflexivity|]). intros Hne; contradiction.
  - destruct (handleDragEvent evt t) as [t1|] eqn:Hd; cbn [bind]; [|discriminate].
    intros Hrun.
    destruct (handleDragEvent_framed _ _ _ Hd) as (st & prevs & pc & hi & ->).
    destruct (IH _ Hrun) as (Hm & Hs & Hsc & Hnil & Hcons).
    split; [rewrite Hm; reflexivity|].
    split; [rewrite Hs; reflexivity|].
    split; [rewrite Hsc; reflexivity|].
    split; [discriminate|].
    intros _. destruct rest as [|e l].
    + rewrite (Hnil eq_refl). split; reflexivity.
    + apply Hcons. discriminate.
Qed.

(** The flag [_isTransformed] outside a down-up sequence: a press leaves it
    as it is, a frame sets it inside the sequence, and the release that ends
    the sequence clears it; so it is clear in every state the interaction
    reaches from its construction while no sequence is open. *)
Lemma handleDownEvent_isTransformed (evt : MapBrowserEvent) (t t1 : Transform) (b : bool) :
  handleDownEvent evt t = Some (t1, b) -> _isTransformed t1 = _isTransformed t.
Proof.
  intros Hdown. destruct b.
  - destruct (handleDownEvent_handled _ _ _ Hdown) as (tsel & picked & _ & Hk & Hsame).
    destruct Hsame as (_ & _ & _ & _ & _ & Htr & _).
    rewrite Htr. cbn [_isTransformed pressed]. rewrite Hk. reflexivity.
  - unfold handleDownEvent in Hdown.
    destruct (selectFeature evt t) as [[tsel r]|] eqn:Hsel; [|discriminate].
    pose proof (selectFeature_keeps _ _ _ _ Hsel) as Hk.
    cbn [bind] in Hdown. destruct r as [picked|].
    + cbn [bind] in Hdown. destruct picked as [feat | hf].
      * cbn [bind] in Hdown. discriminate.
      * destruct (initHandleGesture evt hf _); cbn [bind] in Hdown; discriminate.
    + rewrite selClear_eq in Hdown. cbn [bind] in Hdown.
      injection Hdown as <-. rewrite Hk.
      cbn [_selections setHandleLayer setSelections].
      destruct (_selections tsel); reflexivity.
Qed.

Lemma handleEvent_settled (evt : MapBrowserEvent) (t t' : Transform) :
  (handlingDownUpSequence t = false -> _isTransformed t = false) ->
  handleEvent evt t = Some t' ->
  handlingDownUpSequence t' = false -> _isTransformed t' = false.
Proof.
  intros Hinv Hrun. unfold handleEvent in Hrun.
  destruct (handlingDownUpSequence t) eqn:Hh.
  - destruct (evtType evt).
    + injection Hrun as <-. rewrite Hh. discriminate.
    + destruct (handleDragEvent_framed _ _ _ Hrun) as (st & prevs & pc & hi & ->).
      cbn [handlingDownUpSequence framed]. rewrite Hh. discriminate.
    + rewrite handleUpEvent_eq in Hrun. cbn [bind] in Hrun. injection Hrun as <-.
      intros _. reflexivity.
    + injection Hrun as <-. rewrite Hh. discriminate.
  - specialize (Hinv eq_refl). destruct (evtType evt).
    + destruct (handleDownEvent evt t) as [[t1 b]|] eqn:Hdown; [|discriminate].
      cbn [bind] in Hrun. injection Hrun as <-.
      cbn [handlingDownUpSequence _isTransformed setHandling]. intros _.
      rewrite (handleDownEvent_isTransformed _ _ _ _ Hdown). exact Hinv.
    + injection Hrun as <-. intros _. exact Hinv.
    + injection Hrun as <-. intros _. exact Hinv.
    + injection Hrun as <-. intros _. exact Hinv.
Qed.

Lemma handleEvents_settled (st : Store) (evts : list MapBrowserEvent) (t : Transform) :
  handleEvents evts (newTransform st) = Some t ->
  handlingDownUpSequence t = false -> _isTransformed t = false.
Proof.
  assert (Hgen : forall evts t0 t,
             (handlingDownUpSequence t0 = false -> _isTransformed t0 = false) ->
             handleEvents evts t0 = Some t ->
             handlingDownUpSequence t = false -> _isTransformed t = false).
  { clear. induction evts as [|evt rest IH]; intros t0 t Hinv Hrun; cbn [handleEvents] in Hrun.
    - injection Hrun as <-. exact Hinv.
    - destruct (handleEvent evt t0) as [u|] eqn:Hstep; [|discriminate].
      cbn [bind] in Hrun.
      exact (IH u t (handleEvent_settled _ _ _ Hinv Hstep) Hrun). }
  intros Hrun. apply (Hgen evts (newTransform st) t); [|exact Hrun].
  intros _. reflexivity.
Qed.

(** C6. The end notifications of a handled gesture, in any state the
    interaction reaches from its construction while no down-up sequence is
    open: the release dispatches [mouseup], and after it the mode's end
    notification and [transformend] exactly when the gesture had at least one
    drag frame; the press itself dispatched [mousedown], the mode's start
    notification and [transformstart]. *)
Theorem end_notifications_need_a_frame
    (st : Store) (evts : list MapBrowserEvent)
    (t0 t1 t2 : Transform) (down up : MapBrowserEvent) (frames : list MapBrowserEvent) :
  handleEvents evts (newTransform st) = Some t0 ->
  handlingDownUpSequence t0 = false ->
  handleDownEvent down t0 = Some (t1, true) ->
  dragFrames frames t1 = Some t2 ->
  exists t3,
    handleUpEvent up t2 = Some (t3, false) /\
    map type (dispatched t1)
    = map type (dispatched t0)
      ++ mousedown :: modeEvents translatestart rotatestart scalestart (_mode t1)
      ++ [transformstart] /\
    map type (dispatched t3)
    = map type (dispatched t2)
      ++ mouseup :: match frames with
                    | [] => []
                    | _ :: _ =>
                        modeEvents translateend rotateend scaleend (_mode t1)
                        ++ [transformend]
                    end.
Proof.
  intros Hreach Hidle Hdown Hrun.
  pose proof (handleEvents_settled _ _ _ Hreach Hidle) as Hfresh.
  destruct (handleDownEvent_handled _ _ _ Hdown) as (tsel & picked & _ & Hk & Hsame).
  destruct Hsame as (_ & _ & _ & _ & _ & Htr & _ & _ & Hlog).
  destruct (dragFrames_frame _ _ _ Hrun) as (Hm & _ & _ & Hnil & Hcons).
  exists (released up t2). split; [apply handleUpEvent_eq|]. split.
  - rewrite Hlog. cbn [dispatched pressed]. rewrite dispatchAll_types, map_app.
    rewrite Hk. cbn [dispatched setHandleLayer setSelections map type].
    rewrite <- app_assoc. reflexivity.
  - cbn [dispatched released]. rewrite dispatchAll_types. unfold upTypes.
    destruct frames as [|e l].
    + rewrite (Hnil eq_refl), Htr. cbn [_isTransformed pressed].
      rewrite Hk. cbn [_isTransformed setHandleLayer setSelections]. rewrite Hfresh.
      reflexivity.
    + destruct (Hcons ltac:(discriminate)) as [-> _]. rewrite Hm. reflexivity.
Qed.

(** The square, selected by a click, is then pressed, dragged by one frame
    and released: the release dispatches [mouseup], [translateend] and
    [transformend]. *)
Lemma end_notifications_need_a_frame_witness :
  exists t1 t2 t3,
    handleEvents [pressOn (Body 0%nat) (5, 5) false; releaseAt (5, 5)]
      (newTransform (squareStore None)) = Some (selectedSquare None) /\
    handleDownEvent (pressOn (Body 0%nat) (5, 5) false) (selectedSquare None)
    = Some (t1, true) /\
    dragFrames [dragTo (7, 8)] t1 = Some t2 /\
    handleUpEvent (releaseAt (7, 8)) t2 = Some (t3, false) /\
    map type (dispatched t1)
    = map type (dispatched (selectedSquare None))
      ++ [mousedown; translatestart; transformstart] /\
    map type (dispatched t3)
    = map type (dispatched t2) ++ [mouseup; translateend; transformend].
Proof.
  pose (down := pressOn (Body 0%nat) (5, 5) false).
  pose (t1 := withPrevCoord (5, 5) (pressed down (selectedSquare None) translate)).
  assert (Hdown : handleDownEvent down (selectedSquare None) = Some (t1, true))
    by exact (handleDownEvent_body down (selectedSquare None) (selectedSquare None) 0%nat
                (select_selected_body None (5, 5))).
  destruct (dragFrames_translate [dragTo (7, 8)] t1 eq_refl (NoDup_single 0%nat))
    as (t2 & Hrun & _).
  destruct (end_notifications_need_a_frame (squareStore None)
              [pressOn (Body 0%nat) (5, 5) false; releaseAt (5, 5)]
              (selectedSquare None) t1 t2 down (releaseAt (7, 8)) [dragTo (7, 8)]
              (selectedSquare_reached None) eq_refl Hdown Hrun)
    as (t3 & Hup & Hstart & Hend).
  exists t1, t2, t3.
  split; [exact (selectedSquare_reached None)|]. split; [exact Hdown|].
  split; [exact Hrun|]. split; [exact Hup|].
  split; [exact Hstart | exact Hend].
Defined.

(** The claim as stated fails: a press-release without a drag also emits the
    start notifications, here [translatestart] and [transformstart]. *)
Lemma click_emits_start_notifications :
  exists t,
    handleEvents [pressOn (Body 0%nat) (5, 5) false; releaseAt (5, 5)]
      (newTransform (squareStore None)) = Some t /\
    map type (dispatched t) = [mousedown; translatestart; transformstart; mouseup] /\
    map type (dispatched t) <> [mousedown; mouseup].
Proof.
  exists (selectedSquare None). split; [apply selectedSquare_reached|].
  split; [reflexivity | discriminate].
Qed.

Lemma overlay_drawn (t : Transform) (sels : list FeatId) :
  overlayDrawn (setHandleLayer (setSelections t sels) (overlay (store t) sels)).
Proof.
  unfold overlayDrawn. cbn [_selections _handleLayer setHandleLayer setSelections].
  destruct sels as [|first rest].
  - exists []. split; reflexivity.
  - exists (boxHandles (store t) first). split; [rewrite genHandles_eq|]; reflexivity.
Qed.

(** C7. The overlay is emptied by every drag frame and stays empty until
    the release; it is drawn again, for the whole selection, by the release
    and by every change of the selection (a push, a removal, a clear of a
    non-empty selection). *)
Theorem overlay_cleared_by_frames_redrawn_on_release :
  (forall evt t t', handleDragEvent evt t = Some t' -> _handleLayer t' = []) /\
  (forall frames t t',
      frames <> [] -> dragFrames frames t = Some t' -> _handleLayer t' = []) /\
  (forall evt t,
      exists t', handleUpEvent evt t = Some (t', false) /\
                 _selections t' = _selections t /\ overlayDrawn t') /\
  (forall feat t,
      exists t', selPush feat t = Some t' /\
                 _selections t' = _selections t ++ [feat] /\ overlayDrawn t') /\
  (forall i t,
      (i < length (_selections t))%nat ->
      exists t', selRemoveAt (Z.of_nat i) t = Some t' /\
                 _selections t' = removeNth i (_selections t) /\ overlayDrawn t') /\
  (forall t,
      _selections t <> [] ->
      exists t', selClear t = Some t' /\ _selections t' = [] /\ _handleLayer t' = []).
Proof.
  repeat apply conj.
  - intros evt t t' H.
    destruct (handleDragEvent_framed _ _ _ H) as (st & prevs & pc & hi & ->). reflexivity.
  - intros frames t t' Hne H.
    destruct (dragFrames_frame _ _ _ H) as (_ & _ & _ & _ & Hcons).
    apply Hcons, Hne.
  - intros evt t. exists (released evt t). split; [apply handleUpEvent_eq|].
    split; [reflexivity|].
    unfold overlayDrawn. cbn [_selections _handleLayer released].
    destruct (_selections t) as [|first rest] eqn:Hs.
    + exists []. split; reflexivity.
    + exists (boxHandles (releasedStore t) first).
      split; [rewrite genHandles_eq|]; reflexivity.
  - intros feat t. eexists. split; [apply selPush_eq|].
    split; [reflexivity | apply overlay_drawn].
  - intros i t Hi. eexists. split; [apply (selRemoveAt_in_range i t Hi)|].
    split; [reflexivity | apply overlay_drawn].
  - intros t Hne. eexists. split; [apply selClear_eq|].
    destruct (_selections t); [contradiction|]. split; reflexivity.
Qed.

(** The square is selected and dragged by its body: after the frame the
    overlay is empty, after the release it shows the ten handles again. *)
Lemma overlay_cleared_by_frames_redrawn_on_release_witness :
  exists t1 t2 t3,
    handleDownEvent (pressOn (Body 0%nat) (5, 5) false) (selectedSquare None) = Some (t1, true) /\
    handleDragEvent (dragTo (6, 4)) t1 = Some t2 /\
    _handleLayer t2 = [] /\
    handleUpEvent (releaseAt (6, 4)) t2 = Some (t3, false) /\
    overlayDrawn t3.
Proof.
  destruct overlay_cleared_by_frames_redrawn_on_release as (Hframe & _ & Hup & _).
  pose (down := pressOn (Body 0%nat) (5, 5) false).
  pose (t1 := withPrevCoord (evtCoordinate down) (pressed down (selectedSquare None) translate)).
  assert (Hdown : handleDownEvent down (selectedSquare None) = Some (t1, true))
    by (apply (handleDownEvent_body _ _ _ 0%nat), select_selected_body).
  assert (Hdrag : exists t2, handleDragEvent (dragTo (6, 4)) t1 = Some t2)
    by (eexists; apply handleDragEvent_translate; reflexivity).
  destruct Hdrag as (t2 & Hdrag).
  destruct (Hup (releaseAt (6, 4)) t2) as (t3 & Hrel & _ & Hdrawn).
  exists t1, t2, t3.
  split; [exact Hdown|]. split; [exact Hdrag|]. split; [exact (Hframe _ _ _ Hdrag)|].
  split; [exact Hrel | exact Hdrawn].
Defined.

(** The claim as stated fails: at the end of a drag frame the overlay holds
    no handle at all, although the square is still selected. *)
Lemma overlay_empty_after_frame :
  exists t1 t2,
    handleDownEvent (pressOn (Body 0%nat) (5, 5) false) (selectedSquare None) = Some (t1, true) /\
    handleDragEvent (dragTo (6, 4)) t1 = Some t2 /\
    _selections t2 = [0%nat] /\
    _handleLayer t2 = [] /\
    ~ In (genTranslateHandle t2 0%nat) (_handleLayer t2).
Proof.
  pose (down := pressOn (Body 0%nat) (5, 5) false).
  pose (t1 := withPrevCoord (evtCoordinate down) (pressed down (selectedSquare None) translate)).
  exists t1. eexists.
  split; [apply (handleDownEvent_body _ _ _ 0%nat), select_selected_body|].
  split; [apply handleDragEvent_translate; reflexivity|].
  split; [reflexivity|]. split; [reflexivity|]. intros [].
Qed.

(** ** Scaling the square *)

Lemma square_scaling (k : Z) :
  scalingOf 0 square k
  = mkScaling 0 10 10 k (Z.rem (k + halfRing) scaleHandlesLength)
      (handleOn (0, 10) (0, 0) (10, 0) (10, 10) (Z.rem (k + halfRing) scaleHandlesLength))
      (handleOn (0, 10) (0, 0) (10, 0) (10, 10) k).
Proof.
  unfold scalingOf, normalExtent.
  rewrite rotate_zero by ring. rewrite square_extent. cbn [minX minY maxX maxY].
  rewrite !rotateCoord_zero by reflexivity.
  rewrite !square_handles, rotatePoint_zero by ring.
  rewrite !calcDistance_eq. cbn [fst snd].
  rewrite (sqrt_of_square _ 10), (sqrt_of_square _ 10); [reflexivity | lra | ring | lra | ring].
Qed.

(** The geometry a scale frame assigns to the unrotated square anchored at
    the handle [k]. *)
Lemma square_scaled (a : option R) (sx sy : R) (k : Z) :
  unrotated a ->
  scaledGeometry sx sy k (mkFeature square a)
  = Ol.scale sx sy (handleOn (0, 10) (0, 0) (10, 0) (10, 10) k) square.
Proof.
  intros Ha. unfold scaledGeometry. rewrite (unrotated_angle a Ha).
  cbn [geometry]. rewrite square_handles.
  rewrite (rotate_zero (- 0)) by ring. apply rotate_zero. reflexivity.
Qed.

Lemma press_square_handle (a : option R) (k : Z) (coord : Coordinate) :
  unrotated a ->
  handleDownEvent (pressOn (Handle (mkHandle (Point coord) 0%nat scale k)) coord false)
    (selectedSquare a)
  = Some (squareGrabbed a k coord, true).
Proof.
  intros Ha. rewrite (handleDownEvent_scale _ _ (mkHandle (Point coord) 0%nat scale k))
    by reflexivity.
  replace (angleOrZero (store (selectedSquare a) _)) with 0
    by (symmetry; exact (unrotated_angle a Ha)).
  reflexivity.
Qed.

Lemma drag_square_handle (a : option R) (k : Z) (coord c : Coordinate) :
  unrotated a ->
  exists t2,
    handleDragEvent (dragTo c) (squareGrabbed a k coord) = Some t2 /\
    _selections t2 = [0%nat] /\
    _mode t2 = scale /\
    _headInverted t2
    = JsMath.ltb (snd (scaleFactors (scalingOf 0 square k) c)) 0 /\
    store t2 0%nat
    = mkFeature
        (Ol.scale (fst (scaleFactors (scalingOf 0 square k) c))
                  (snd (scaleFactors (scalingOf 0 square k) c))
                  (handleOn (0, 10) (0, 0) (10, 0) (10, 10)
                     (Z.rem (k + halfRing) scaleHandlesLength))
                  square)
        a.
Proof.
  intros Ha. eexists. split.
  - rewrite handleDragEvent_scale by reflexivity.
    cbn [squareGrabbed withScaling pressed _scalingSelection _prevSelections _selections
         store snapshotOf selectedSquare map dragTo evtCoordinate clone squareStore
         geometry angle assignFrom nth_error bind].
    reflexivity.
  - split; [reflexivity|]. split; [reflexivity|]. split; [reflexivity|].
    cbn [store framed storeSetGeometry Nat.eqb squareStore angle].
    rewrite (square_scaled a _ _ _ Ha).
    rewrite square_scaling at 3. cbn [oppositeIdx]. reflexivity.
Qed.

Lemma squareOverlay_index4 (hf : HandleFeature) :
  In hf squareOverlay -> mode hf = scale -> index hf = 4%Z -> hgeometry hf = Point (10, 0).
Proof.
  unfold squareOverlay. cbn [In].
  intros H Hm Hi.
  repeat (destruct H as [<- | H]; [cbn in Hm, Hi; try discriminate; try reflexivity|]).
  contradiction.
Qed.

(** The claim as stated fails on the ring index: the scale handle at (10,10)
    carries index 6, and the one with index 4 sits at (10,0). *)
Lemma handle_at_10_10_is_not_index_4 :
  In (mkHandle (Point (10, 10)) 0%nat scale 6) (_handleLayer (selectedSquare None)) /\
  (forall hf,
      In hf (_handleLayer (selectedSquare None)) ->
      mode hf = scale -> index hf = 4%Z -> hgeometry hf = Point (10, 0)) /\
  ~ In (mkHandle (Point (10, 10)) 0%nat scale 4) (_handleLayer (selectedSquare None)).
Proof.
  cbn [_handleLayer selectedSquare]. rewrite (squareOverlay_eq None I).
  split; [|split].
  - unfold squareOverlay. cbn [In]. do 7 right. left. reflexivity.
  - apply squareOverlay_index4.
  - intros Hin. pose proof (squareOverlay_index4 _ Hin eq_refl eq_refl) as H.
    cbn in H. injection H as H. lra.
Qed.

(** C2. The square with corners (0,0), (10,0), (10,10), (0,10) and angle 0
    (or none) is selected.  The scale handle at (10,10) has ring index 6
    (top-right); pressing it records the opposite index 2 with the anchor
    (0,0), and dragging to (20,20) gives [scaleX = 2], [scaleY = 2] and the
    corners (0,0), (20,0), (20,20), (0,20). *)
Theorem square_scaled_from_top_right (a : option R) :
  unrotated a ->
  In (mkHandle (Point (10, 10)) 0%nat scale 6) (_handleLayer (selectedSquare a)) /\
  exists t1 t2,
    handleDownEvent (pressOn (Handle (mkHandle (Point (10, 10)) 0%nat scale 6)) (10, 10) false)
      (selectedSquare a) = Some (t1, true) /\
    _mode t1 = scale /\
    _scalingSelection t1 = mkScaling 0 10 10 6 2 (0, 0) (10, 10) /\
    scaleFactors (_scalingSelection t1) (20, 20) = (2, 2) /\
    handleDragEvent (dragTo (20, 20)) t1 = Some t2 /\
    geometry (store t2 0%nat) = Area (0, 0) [(20, 0); (20, 20); (0, 20)].
Proof.
  intros Ha.
  assert (Hsc : scalingOf 0 square 6 = mkScaling 0 10 10 6 2 (0, 0) (10, 10))
    by (rewrite square_scaling; reflexivity).
  assert (Hf : scaleFactors (scalingOf 0 square 6) (20, 20) = (2, 2)).
  { rewrite Hsc. unfold scaleFactors. cbn [startCoord oppositeCoord scAngle handleIdx w h].
    rewrite rotatePoint_zero by ring. cbn [scaleDeltas]. coords. }
  split.
  - cbn [_handleLayer selectedSquare]. rewrite (squareOverlay_eq a Ha).
    unfold squareOverlay. cbn [In]. do 7 right. left. reflexivity.
  - destruct (drag_square_handle a 6 (10, 10) (20, 20) Ha) as (t2 & Hdrag & _ & _ & _ & Hst).
    exists (squareGrabbed a 6 (10, 10)), t2.
    split; [exact (press_square_handle a 6 (10, 10) Ha)|].
    split; [reflexivity|].
    split; [exact Hsc|].
    split; [exact Hf|].
    split; [exact Hdrag|].
    rewrite Hst, Hf. cbn [geometry fst snd].
    change (Z.rem (6 + halfRing) scaleHandlesLength) with 2%Z. cbn [handleOn].
    unfold Ol.scale, square, Ol.applyTransform, Ol.scaleCoord. cbn [map fst snd]. coords.
Qed.

(** The scenario with the attribute absent. *)
Lemma square_scaled_from_top_right_witness :
  unrotated None /\
  exists t1 t2,
    handleDownEvent (pressOn (Handle (mkHandle (Point (10, 10)) 0%nat scale 6)) (10, 10) false)
      (selectedSquare None) = Some (t1, true) /\
    handleDragEvent (dragTo (20, 20)) t1 = Some t2 /\
    geometry (store t2 0%nat) = Area (0, 0) [(20, 0); (20, 20); (0, 20)].
Proof.
  split; [exact I|].
  destruct (square_scaled_from_top_right None I)
    as (_ & t1 & t2 & Hdown & _ & _ & _ & Hdrag & Hgeom).
  exists t1, t2. split; [exact Hdown|]. split; [exact Hdrag | exact Hgeom].
Defined.

(** ** Rotations, and the anchor of a scale frame *)

(** Rotating about another center differs by a translation. *)
Lemma rotateCoord_recenter (a : R) (c c' p : Coordinate) :
  Ol.rotateCoord a c p = vadd (Ol.rotateCoord a c' p) (vsub c (Ol.rotateCoord a c' c)).
Proof.
  destruct c as [cx cy], c' as [dx dy], p as [px py].
  unfold Ol.rotateCoord, vadd, vsub; cbn [fst snd]. f_equal; ring.
Qed.

Lemma rotateCoord_center (a : R) (c : Coordinate) : Ol.rotateCoord a c c = c.
Proof. destruct c as [cx cy]. unfold Ol.rotateCoord; cbn [fst snd]. f_equal; ring. Qed.

Lemma rotateCoord_back (a : R) (c p : Coordinate) :
  Ol.rotateCoord a c (Ol.rotateCoord (- a) c p) = p.
Proof.
  destruct c as [cx cy], p as [px py].
  unfold Ol.rotateCoord; cbn [fst snd]. rewrite cos_neg, sin_neg.
  pose proof (sin2_cos2 a) as H. unfold Rsqr in H.
  set (C := cos a) in *; set (S := sin a) in *.
  f_equal.
  - replace (cx + (cx + (px - cx) * C - (py - cy) * - S - cx) * C
             - (cy + (px - cx) * - S + (py - cy) * C - cy) * S)
      with (cx + (px - cx) * (S * S + C * C)) by ring.
    rewrite H. ring.
  - replace (cy + (cx + (px - cx) * C - (py - cy) * - S - cx) * S
             + (cy + (px - cx) * - S + (py - cy) * C - cy) * C)
      with (cy + (py - cy) * (S * S + C * C)) by ring.
    rewrite H. ring.
Qed.

Lemma rotateCoord_forth (a : R) (c p : Coordinate) :
  Ol.rotateCoord (- a) c (Ol.rotateCoord a c p) = p.
Proof.
  rewrite <- (Ropp_involutive a) at 2. apply rotateCoord_back.
Qed.

Lemma rotateCoord_midpoint (a : R) (c : Coordinate) : midpointPreserving (Ol.rotateCoord a c).
Proof.
  intros [px py] [qx qy]. rewrite !centerOf_mid.
  destruct c as [cx cy]. unfold Ol.rotateCoord; cbn [fst snd]. f_equal; field.
Qed.

Lemma axisMap_midpoint (ax ay sx sy : R) : midpointPreserving (axisMap ax ay sx sy).
Proof.
  intros [px py] [qx qy]. rewrite !centerOf_mid.
  unfold axisMap; cbn [fst snd]. f_equal; field.
Qed.

Lemma midpoint_compose (f f' : Coordinate -> Coordinate) :
  midpointPreserving f -> midpointPreserving f' -> midpointPreserving (fun p => f (f' p)).
Proof. intros Hf Hf' p q. rewrite Hf', Hf. reflexivity. Qed.

Lemma handleOn_off_ring (tl bl br tr : Coordinate) (k : Z) :
  ~ onRing k -> handleOn tl bl br tr k = (0, 0).
Proof.
  unfold onRing; intros Hk. destruct k as [|p|p]; try reflexivity; try (exfalso; lia).
  do 3 (destruct p as [p|p|]; try reflexivity; try (exfalso; lia)).
Qed.

Lemma handleOn_map (f : Coordinate -> Coordinate) (tl bl br tr : Coordinate) (k : Z) :
  midpointPreserving f -> onRing k ->
  handleOn (f tl) (f bl) (f br) (f tr) k = f (handleOn tl bl br tr k).
Proof.
  unfold onRing; intros Hf Hk. destruct k as [|p|p]; try reflexivity; try lia.
  do 3 (destruct p as [p|p|]; try reflexivity; try lia; try (cbn [handleOn]; rewrite Hf; reflexivity)).
Qed.

(** In the frame of the un-rotated shape, a scale frame is an axis-aligned
    map, whatever center the new box is rebuilt around. *)
Lemma scaledAbout_normal (a sx sy : R) (anchor c0 c1 p : Coordinate) :
  Ol.rotateCoord (- a) c1
    (Ol.rotateCoord a anchor
       (Ol.scaleCoord sx sy anchor (Ol.rotateCoord (- a) anchor p)))
  = axisMap
      (fst anchor + fst (vsub c1 (Ol.rotateCoord (- a) anchor c1))
       - sx * fst (Ol.rotateCoord (- a) c0 anchor))
      (snd anchor + snd (vsub c1 (Ol.rotateCoord (- a) anchor c1))
       - sy * snd (Ol.rotateCoord (- a) c0 anchor))
      sx sy (Ol.rotateCoord (- a) c0 p).
Proof.
  rewrite (rotateCoord_recenter (- a) c1 anchor), rotateCoord_forth.
  rewrite (rotateCoord_recenter (- a) anchor c0 p).
  set (q := Ol.rotateCoord (- a) c0 p).
  set (o := Ol.rotateCoord (- a) c0 anchor).
  set (v := vsub c1 (Ol.rotateCoord (- a) anchor c1)).
  unfold Ol.scaleCoord, vadd, vsub, axisMap; cbn [fst snd]. f_equal; ring.
Qed.

Lemma anchor_fixed (a sx sy : R) (k : Z) (g : Geometry) :
  0 <= sx -> 0 <= sy ->
  boxHandle a (scaledAbout a sx sy (boxHandle a g k) g) k = boxHandle a g k.
Proof.
  intros Hsx Hsy.
  destruct (Z_le_dec 0 k) as [Hk0 | Hk0]; [destruct (Z_le_dec k 7) as [Hk7 | Hk7]|];
    try (unfold boxHandle; rewrite !handleOn_off_ring by (unfold onRing; lia); reflexivity).
  assert (Hk : onRing k) by (split; assumption).
  set (anchor := boxHandle a g k).
  set (g' := scaledAbout a sx sy anchor g).
  set (c0 := boxCenter g). set (c1 := boxCenter g').
  set (ax := fst anchor + fst (vsub c1 (Ol.rotateCoord (- a) anchor c1))
             - sx * fst (Ol.rotateCoord (- a) c0 anchor)).
  set (ay := snd anchor + snd (vsub c1 (Ol.rotateCoord (- a) anchor c1))
             - sy * snd (Ol.rotateCoord (- a) c0 anchor)).
  assert (Hext : normalExtent a g' = axisMapExtent ax ay sx sy (normalExtent a g)).
  { unfold normalExtent. fold c0 c1. unfold g', scaledAbout, Ol.rotate, Ol.scale.
    rewrite !applyTransform_compose.
    rewrite (applyTransform_ext _
               (fun p => axisMap ax ay sx sy (Ol.rotateCoord (- a) c0 p)) g).
    - rewrite <- (applyTransform_compose (axisMap ax ay sx sy) (Ol.rotateCoord (- a) c0)).
      apply getExtent_axisMap; assumption.
    - intros p. apply scaledAbout_normal. }
  assert (Hanchor : Ol.rotateCoord (- a) c0 anchor
                    = handleOn (minX (normalExtent a g), maxY (normalExtent a g))
                               (minX (normalExtent a g), minY (normalExtent a g))
                               (maxX (normalExtent a g), minY (normalExtent a g))
                               (maxX (normalExtent a g), maxY (normalExtent a g)) k).
  { unfold anchor, boxHandle. fold c0.
    rewrite (handleOn_map (Ol.rotateCoord a c0))
      by first [apply rotateCoord_midpoint | exact Hk].
    apply rotateCoord_forth. }
  unfold boxHandle at 1. fold c1. rewrite Hext.
  cbn [minX minY maxX maxY axisMapExtent].
  change (handleOn
            (Ol.rotateCoord a c1 (axisMap ax ay sx sy (minX (normalExtent a g), maxY (normalExtent a g))))
            (Ol.rotateCoord a c1 (axisMap ax ay sx sy (minX (normalExtent a g), minY (normalExtent a g))))
            (Ol.rotateCoord a c1 (axisMap ax ay sx sy (maxX (normalExtent a g), minY (normalExtent a g))))
            (Ol.rotateCoord a c1 (axisMap ax ay sx sy (maxX (normalExtent a g), maxY (normalExtent a g))))
            k = anchor).
  rewrite (handleOn_map (fun p => Ol.rotateCoord a c1 (axisMap ax ay sx sy p)))
    by first [exact Hk
             | apply midpoint_compose; [apply rotateCoord_midpoint | apply axisMap_midpoint]].
  rewrite <- Hanchor.
  replace (axisMap ax ay sx sy (Ol.rotateCoord (- a) c0 anchor))
    with (Ol.rotateCoord (- a) c1 anchor).
  - apply rotateCoord_back.
  - rewrite (rotateCoord_recenter (- a) c1 anchor anchor), rotateCoord_center.
    unfold axisMap, vadd, ax, ay; cbn [fst snd]. f_equal; ring.
Qed.

(** ** Scale gestures *)

Lemma forEach_handle_inv (evt : MapBrowserEvent) (cands : list Candidate)
    (t t' : Transform) (hf : HandleFeature) :
  forEachFeatureAtPixel evt cands t = Some (t', Some (Handle hf)) -> t' = t.
Proof.
  revert t; induction cands as [|c rest IH]; intros t; cbn [forEachFeatureAtPixel].
  - discriminate.
  - destruct (accepted c) eqn:Ha.
    + rewrite (selectCallback_accepted _ _ _ Ha).
      destruct (target c) as [feat | hf'].
      * cbv zeta.
        match goal with
        | |- context [bind (if ?c then ?x else ?y) _] =>
            destruct (if c then x else y) as [t1|]
        end; cbn [bind]; discriminate.
      * cbn [bind]. intros H; injection H as Ht _. symmetry; exact Ht.
    + rewrite (selectCallback_rejected _ _ _ Ha). cbn [bind]. apply IH.
Qed.

(** A handled press that ends in scale mode was a press on a scale handle;
    the selection is untouched and the snapshot is its clone. *)
Lemma handleDownEvent_scale_inv (evt : MapBrowserEvent) (t t1 : Transform) :
  handleDownEvent evt t = Some (t1, true) ->
  _mode t1 = scale ->
  exists hf,
    mode hf = scale /\
    t1 = withScaling
           (scalingOf (angleOrZero (store t (body hf))) (geometry (store t (body hf)))
              (index hf))
           (pressed evt t scale).
Proof.
  intros Hdown Hmode.
  assert (Hpick : exists hf, selectFeature evt t = Some (t, Some (Handle hf)) /\ mode hf = scale).
  { revert Hdown Hmode. unfold handleDownEvent.
    destruct (selectFeature evt t) as [[t0 [picked|]]|] eqn:Hsel; cbn [bind]; [| |discriminate].
    - destruct picked as [feat | hf].
      + cbn [bind]. intros H; injection H as <-. discriminate.
      + rewrite (forEach_handle_inv _ _ _ _ _ Hsel) in *.
        destruct (mode hf) eqn:Hm.
        * unfold initHandleGesture.
          replace (_mode (setMode _ (mode hf))) with idle by (rewrite Hm; reflexivity).
          cbn [bind]. intros H; injection H as <-. rewrite Hm. discriminate.
        * unfold initHandleGesture.
          replace (_mode (setMode _ (mode hf))) with translate by (rewrite Hm; reflexivity).
          cbn [bind]. intros H; injection H as <-. rewrite Hm. discriminate.
        * intros _ _. exists hf. split; [reflexivity | exact Hm].
        * unfold initHandleGesture.
          replace (_mode (setMode _ (mode hf))) with rotate by (rewrite Hm; reflexivity).
          cbn [bind]. intros H; injection H as <-. rewrite Hm. discriminate.
    - destruct (selClear t0); cbn [bind]; discriminate. }
  destruct Hpick as (hf & Hsel & Hm). exists hf. split; [exact Hm|].
  revert Hdown. unfold handleDownEvent. rewrite Hsel. cbn [bind].
  rewrite (initHandleGesture_scale _ _ _ Hm). cbn [bind].
  intros H; injection H as <-. destruct t; reflexivity.
Qed.

Lemma assignFrom_angle (geoms : list Geometry) (sels : list FeatId) (i : nat)
    (st st' : Store) (j : FeatId) :
  assignFrom geoms sels i st = Some st' -> angle (st' j) = angle (st j).
Proof.
  revert i st; induction geoms as [|g rest IH]; intros i st; cbn [assignFrom].
  - intros H; injection H as <-. reflexivity.
  - destruct (nth_error sels i) as [live|]; cbn [bind]; [|discriminate].
    intros H. rewrite (IH _ _ H). apply storeSetGeometry_angle.
Qed.

(** Scale frames run to the end on an index-aligned snapshot; they rewrite
    geometries only. *)
Lemma dragFrames_scale (frames : list MapBrowserEvent) (t : Transform) :
  _mode t = scale ->
  length (_prevSelections t) = length (_selections t) ->
  exists t',
    dragFrames frames t = Some t' /\
    _mode t' = scale /\
    _prevSelections t' = _prevSelections t /\
    _selections t' = _selections t /\
    _scalingSelection t' = _scalingSelection t /\
    (forall j, angle (store t' j) = angle (store t j)).
Proof.
  revert t; induction frames as [|evt rest IH]; intros t Hmode Hlen.
  - exists t. repeat split; try reflexivity; assumption.
  - cbn [dragFrames]. rewrite (handleDragEvent_scale _ _ Hmode).
    destruct (assignFrom_total
                (map (scaledGeometry
                        (fst (scaleFactors (_scalingSelection t) (evtCoordinate evt)))
                        (snd (scaleFactors (_scalingSelection t) (evtCoordinate evt)))
                        (oppositeIdx (_scalingSelection t)))
                     (_prevSelections t))
                (_selections t) 0 (store t)) as (st' & Hst).
    { rewrite length_map, Hlen. simpl; lia. }
    rewrite Hst. cbn [bind].
    match goal with |- context [dragFrames rest ?u] => set (t1 := u) end.
    destruct (IH t1 Hmode Hlen) as (t' & Hrun & Hm & Hp & Hs & Hsc & Ha).
    exists t'. split; [exact Hrun|]. split; [exact Hm|]. split; [exact Hp|].
    split; [exact Hs|]. split; [exact Hsc|].
    intros j. rewrite Ha. subst t1; cbn [store framed].
    exact (assignFrom_angle _ _ _ _ _ j Hst).
Qed.

Lemma anchorOf_eq (f : Feature) (idx : Z) :
  anchorOf f idx = Some (boxHandle (angleOrZero f) (geometry f) idx).
Proof. apply orientedBox_handle. Qed.

(** The last scale frame of a gesture, on a live shape of the selection. *)
Lemma scale_frame_result
    (t1 : Transform) (frames : list MapBrowserEvent) (evt : MapBrowserEvent) :
  _mode t1 = scale ->
  NoDup (_selections t1) ->
  _prevSelections t1 = snapshotOf t1 ->
  exists t2,
    dragFrames (frames ++ [evt]) t1 = Some t2 /\
    _mode t2 = scale /\
    _selections t2 = _selections t1 /\
    _headInverted t2
    = JsMath.ltb (snd (scaleFactors (_scalingSelection t1) (evtCoordinate evt))) 0 /\
    forall live,
      In live (_selections t1) ->
      store t2 live
      = mkFeature
          (scaledGeometry (fst (scaleFactors (_scalingSelection t1) (evtCoordinate evt)))
                          (snd (scaleFactors (_scalingSelection t1) (evtCoordinate evt)))
                          (oppositeIdx (_scalingSelection t1))
                          (store t1 live))
          (angle (store t1 live)).
Proof.
  intros Hmode Hnd Hsnap.
  assert (Hlen : length (_prevSelections t1) = length (_selections t1))
    by (rewrite Hsnap; unfold snapshotOf; apply length_map).
  destruct (dragFrames_scale frames t1 Hmode Hlen) as (t' & Hrun & Hm & Hp & Hs & Hsc & Ha).
  assert (Hcat : forall l t, dragFrames (l ++ [evt]) t
                             = (u <- dragFrames l t ;; handleDragEvent evt u)).
  { induction l as [|e l IH]; intros t; cbn [app dragFrames bind].
    - destruct (handleDragEvent evt t); reflexivity.
    - destruct (handleDragEvent e t); cbn [bind]; [apply IH | reflexivity]. }
  rewrite Hcat, Hrun. cbn [bind].
  rewrite (handleDragEvent_scale _ _ Hm), Hp, Hs, Hsc.
  destruct (assignFrom_total
              (map (scaledGeometry
                      (fst (scaleFactors (_scalingSelection t1) (evtCoordinate evt)))
                      (snd (scaleFactors (_scalingSelection t1) (evtCoordinate evt)))
                      (oppositeIdx (_scalingSelection t1)))
                   (_prevSelections t1))
              (_selections t1) 0 (store t')) as (st' & Hst).
  { rewrite length_map, Hlen. simpl; lia. }
  rewrite Hst. cbn [bind]. eexists. split; [reflexivity|].
  split; [exact Hm|]. split; [exact Hs|]. split; [reflexivity|].
  intros live Hin. cbn [store framed].
  destruct (In_nth_error _ _ Hin) as (i & Hi).
  destruct (assignFrom_spec _ _ Hnd _ _ _ Hst) as (Hset & _).
  assert (Hprev : nth_error (_prevSelections t1) i = Some (clone (store t1 live))).
  { rewrite Hsnap. unfold snapshotOf.
    rewrite nth_error_map, Hi. reflexivity. }
  rewrite (Hset i _ live (map_nth_error _ _ _ Hprev) Hi), Ha.
  unfold scaledGeometry, clone, angleOrZero; cbn [geometry angle]. reflexivity.
Qed.

Lemma halfTurnStore_fold (sels : list FeatId) (st : Store) (j : FeatId) :
  NoDup sels ->
  fold_left halfTurnStore sels st j
  = if in_dec Nat.eq_dec j sels then halfTurnFeature (st j) else st j.
Proof.
  intros Hnd.
  exact (eq_trans (eq_sym (f_equal (fun u => store u j)
                             (halfTurn_fold_frame sels (setStore (newTransform st) st))))
                  (halfTurn_fold_store sels (setStore (newTransform st) st) j Hnd)).
Qed.

Lemma scaled_press_snapshot (evt : MapBrowserEvent) (t t1 : Transform) :
  handleDownEvent evt t = Some (t1, true) ->
  _mode t1 = scale ->
  _prevSelections t1 = snapshotOf t1 /\
  oppositeIdx (_scalingSelection t1)
  = Z.rem (handleIdx (_scalingSelection t1) + 4) 8.
Proof.
  intros Hdown Hmode.
  destruct (handleDownEvent_scale_inv _ _ _ Hdown Hmode) as (hf & _ & ->).
  split; reflexivity.
Qed.

(** C8. A scale frame whose factors [scaleX] and [scaleY] are not negative
    (on a grabbed box of non-zero width and height) keeps the anchor of every
    selected shape, whatever its stored angle: the handle with the opposite
    index [(handleIndex + 4) mod 8] of the oriented box rebuilt from the
    transformed shape is where the same handle of the shape's box was before
    the drag. *)
Theorem scale_anchor_fixed
    (t0 t1 : Transform) (down evt : MapBrowserEvent) (frames : list MapBrowserEvent) :
  handleDownEvent down t0 = Some (t1, true) ->
  _mode t1 = scale ->
  NoDup (_selections t1) ->
  w (_scalingSelection t1) <> 0 ->
  h (_scalingSelection t1) <> 0 ->
  0 <= fst (scaleFactors (_scalingSelection t1) (evtCoordinate evt)) ->
  0 <= snd (scaleFactors (_scalingSelection t1) (evtCoordinate evt)) ->
  oppositeIdx (_scalingSelection t1)
  = Z.rem (handleIdx (_scalingSelection t1) + 4) 8 /\
  exists t2,
    dragFrames (frames ++ [evt]) t1 = Some t2 /\
    forall live,
      In live (_selections t1) ->
      exists anchor,
        anchorOf (store t1 live) (oppositeIdx (_scalingSelection t1)) = Some anchor /\
        anchorOf (store t2 live) (oppositeIdx (_scalingSelection t1)) = Some anchor.
Proof.
  intros Hdown Hmode Hnd _ _ Hsx Hsy.
  destruct (scaled_press_snapshot _ _ _ Hdown Hmode) as (Hsnap & Hopp).
  split; [exact Hopp|].
  destruct (scale_frame_result t1 frames evt Hmode Hnd Hsnap)
    as (t2 & Hrun & _ & _ & _ & Hst).
  exists t2. split; [exact Hrun|].
  intros live Hin. eexists. split; [apply anchorOf_eq|].
  rewrite anchorOf_eq, (Hst live Hin). f_equal.
  unfold angleOrZero at 1. cbn [angle geometry]. fold (angleOrZero (store t1 live)).
  apply (anchor_fixed (angleOrZero (store t1 live)) _ _ _ _ Hsx Hsy).
Qed.

Lemma square_scaling6 : scalingOf 0 square 6 = mkScaling 0 10 10 6 2 (0, 0) (10, 10).
Proof. rewrite square_scaling. reflexivity. Qed.

Lemma square_factors6 (x y : R) :
  scaleFactors (scalingOf 0 square 6) (x, y) = ((x - 10) / 10 + 1, (y - 10) / 10 + 1).
Proof.
  rewrite square_scaling6. unfold scaleFactors.
  cbn [startCoord oppositeCoord scAngle handleIdx w h].
  rewrite rotatePoint_zero by ring. reflexivity.
Qed.

(** Evaluating the extent of a geometry with numeral coordinates. *)
Ltac extent_eval :=
  unfold Ol.getExtent, Ol.boundingExtent, Ol.extendCoordinate;
  cbn [fold_left fst snd minX minY maxX maxY];
  Rminmax.

Lemma square_anchor (a : option R) (k : Z) :
  unrotated a ->
  anchorOf (mkFeature square a) k = Some (handleOn (0, 10) (0, 0) (10, 0) (10, 10) k).
Proof.
  intros Ha. rewrite anchorOf_eq, (unrotated_angle a Ha). cbn [geometry].
  rewrite square_handles. reflexivity.
Qed.

(** The square, grabbed by its top-right handle and dragged to (20,20):
    the anchor, handle 2, is (0,0) before and after. *)
Lemma scale_anchor_fixed_witness :
  exists t1 t2,
    handleDownEvent (pressOn (Handle (mkHandle (Point (10, 10)) 0%nat scale 6)) (10, 10) false)
      (selectedSquare None) = Some (t1, true) /\
    dragFrames [dragTo (20, 20)] t1 = Some t2 /\
    anchorOf (store t1 0%nat) 2 = Some (0, 0) /\
    anchorOf (store t2 0%nat) 2 = Some (0, 0).
Proof.
  pose (t1 := squareGrabbed None 6 (10, 10)).
  assert (Hf : scaleFactors (_scalingSelection t1) (evtCoordinate (dragTo (20, 20))) = (2, 2)).
  { cbn [t1 squareGrabbed withScaling _scalingSelection dragTo evtCoordinate].
    rewrite square_factors6. coords. }
  assert (Hsc : _scalingSelection t1 = mkScaling 0 10 10 6 2 (0, 0) (10, 10))
    by exact square_scaling6.
  destruct (scale_anchor_fixed (selectedSquare None) t1
              (pressOn (Handle (mkHandle (Point (10, 10)) 0%nat scale 6)) (10, 10) false)
              (dragTo (20, 20)) []
              (press_square_handle None 6 (10, 10) I) eq_refl (NoDup_single 0%nat))
    as (Hopp & t2 & Hrun & Hanchor).
  - rewrite Hsc. cbn [w]. lra.
  - rewrite Hsc. cbn [h]. lra.
  - rewrite Hf. cbn [fst]. lra.
  - rewrite Hf. cbn [snd]. lra.
  - exists t1, t2. split; [exact (press_square_handle None 6 (10, 10) I)|].
    split; [exact Hrun|].
    destruct (Hanchor 0%nat (or_introl eq_refl)) as (anchor & H1 & H2).
    rewrite Hsc in H1, H2. cbn [oppositeIdx] in H1, H2.
    change (store t1 0%nat) with (mkFeature square None) in H1.
    rewrite (square_anchor None 2 I) in H1.
    rewrite H2, <- H1. split; [exact (square_anchor None 2 I) | reflexivity].
Defined.

(** The claim as stated fails when a factor is negative: dragging the
    top-right handle of the square to (-10,20) gives [scaleX = -1]; the
    anchor was handle 2 at (0,0), and handle 2 of the rebuilt box is at
    (-10,0). *)
Lemma anchor_index_moves_when_mirrored :
  exists t1 t2,
    handleDownEvent (pressOn (Handle (mkHandle (Point (10, 10)) 0%nat scale 6)) (10, 10) false)
      (selectedSquare None) = Some (t1, true) /\
    handleDragEvent (dragTo (-10, 20)) t1 = Some t2 /\
    oppositeIdx (_scalingSelection t1) = 2%Z /\
    scaleFactors (_scalingSelection t1) (-10, 20) = (-1, 2) /\
    anchorOf (store t1 0%nat) 2 = Some (0, 0) /\
    anchorOf (store t2 0%nat) 2 = Some (-10, 0) /\
    anchorOf (store t2 0%nat) 2 <> anchorOf (store t1 0%nat) 2.
Proof.
  destruct (drag_square_handle None 6 (10, 10) (-10, 20) I)
    as (t2 & Hdrag & _ & _ & _ & Hst).
  assert (Hf : scaleFactors (scalingOf 0 square 6) (-10, 20) = (-1, 2))
    by (rewrite square_factors6; coords).
  assert (H1 : anchorOf (mkFeature square None) 2 = Some (0, 0))
    by exact (square_anchor None 2 I).
  assert (H2 : anchorOf (store t2 0%nat) 2 = Some (-10, 0)).
  { rewrite anchorOf_eq, Hst, Hf. cbn [angleOrZero angle geometry fst snd].
    change (Z.rem (6 + halfRing) scaleHandlesLength) with 2%Z. cbn [handleOn].
    rewrite boxHandle_zero.
    unfold Ol.scale, square, Ol.applyTransform, Ol.scaleCoord. cbn [map fst snd].
    extent_eval. cbn [handleOn]. coords. }
  exists (squareGrabbed None 6 (10, 10)), t2.
  split; [exact (press_square_handle None 6 (10, 10) I)|].
  split; [exact Hdrag|].
  split; [cbn [squareGrabbed withScaling _scalingSelection]; rewrite square_scaling6;
          reflexivity|].
  split; [exact Hf|].
  split; [exact H1|].
  split; [exact H2|].
  rewrite H2. change (store (squareGrabbed None 6 (10, 10)) 0%nat) with (mkFeature square None).
  rewrite H1. intros H; injection H as H. lra.
Qed.

(** ** Head inversion *)

Lemma rem_half_turn : JsMath.rem (0 + PI) (2 * PI) = PI.
Proof.
  pose proof PI_RGT_0 as Hpi.
  replace (0 + PI) with PI by ring. apply rem_small; lra.
Qed.

Lemma rem_full_turn : JsMath.rem (PI + PI) (2 * PI) = 0.
Proof.
  pose proof PI_RGT_0 as Hpi. unfold JsMath.rem, JsMath.trunc.
  replace ((PI + PI) / (2 * PI)) with 1 by (field; lra).
  destruct (Rle_dec 0 1) as [_ | Hn]; [|lra].
  replace (Int_part 1) with 1%Z by (apply Int_part_spec; simpl; lra).
  simpl. ring.
Qed.

(** C4. When the last frame of a scale gesture computed [scaleY < 0] (on a
    grabbed box of non-zero width and height, so that both factors of the
    frame are numbers), the release turns every selected shape
    that carries an ["angle"] attribute by [PI] about the center of its own
    bounding box, starting from the geometry the last frame left, and
    advances the attribute by [PI] under [% (2 * PI)]: an attribute of [0]
    becomes [PI].  A selected shape without the attribute is left as the
    last frame set it. *)
Theorem head_inversion_half_turn
    (t0 t1 : Transform) (down evt up : MapBrowserEvent) (frames : list MapBrowserEvent) :
  handleDownEvent down t0 = Some (t1, true) ->
  _mode t1 = scale ->
  NoDup (_selections t1) ->
  w (_scalingSelection t1) <> 0 ->
  h (_scalingSelection t1) <> 0 ->
  snd (scaleFactors (_scalingSelection t1) (evtCoordinate evt)) < 0 ->
  exists t2 t3,
    dragFrames (frames ++ [evt]) t1 = Some t2 /\
    _headInverted t2 = true /\
    handleUpEvent up t2 = Some (t3, false) /\
    _mode t3 = idle /\
    forall live,
      In live (_selections t1) ->
      match angle (store t1 live) with
      | Some a =>
          geometry (store t3 live)
          = Ol.rotate PI (Ol.getCenter (Ol.getExtent (geometry (store t2 live))))
              (geometry (store t2 live)) /\
          angle (store t3 live) = Some (JsMath.rem (a + PI) (2 * PI)) /\
          (a = 0 -> angle (store t3 live) = Some PI)
      | None => store t3 live = store t2 live
      end.
Proof.
  intros Hdown Hmode Hnd _ _ Hneg.
  destruct (scaled_press_snapshot _ _ _ Hdown Hmode) as (Hsnap & _).
  destruct (scale_frame_result t1 frames evt Hmode Hnd Hsnap)
    as (t2 & Hrun & Hm & Hs & Hhi & Hst).
  rewrite (ltb_true _ _ Hneg) in Hhi.
  exists t2, (released up t2).
  split; [exact Hrun|]. split; [exact Hhi|]. split; [apply handleUpEvent_eq|].
  split; [reflexivity|].
  intros live Hin. cbn [store released]. unfold releasedStore.
  rewrite Hm, Hhi, Hs. cbn [mode_eqb andb].
  rewrite (halfTurnStore_fold _ _ live Hnd).
  destruct (in_dec Nat.eq_dec live (_selections t1)) as [_ | Hout]; [|contradiction].
  rewrite (Hst live Hin). unfold halfTurnFeature. cbn [angle geometry].
  destruct (angle (store t1 live)) as [a|]; [|reflexivity].
  cbn [angle geometry]. split; [reflexivity|]. split; [reflexivity|].
  intros ->. rewrite rem_half_turn. reflexivity.
Qed.

Lemma squareDragged_eq : Ol.scale 2 (-1) (0, 0) square = squareDragged.
Proof.
  unfold Ol.scale, square, squareDragged, Ol.applyTransform, Ol.scaleCoord.
  cbn [map fst snd]. coords.
Qed.

Lemma squareDragged_center : boxCenter squareDragged = (10, -5).
Proof. unfold boxCenter, squareDragged, Ol.getCenter. extent_eval. cbn [minX minY maxX maxY]. coords. Qed.

Lemma squareTurned_center : boxCenter squareTurned = (10, -5).
Proof. unfold boxCenter, squareTurned, Ol.getCenter. extent_eval. cbn [minX minY maxX maxY]. coords. Qed.

Lemma squareDragged_turned : Ol.rotate PI (boxCenter squareDragged) squareDragged = squareTurned.
Proof.
  rewrite squareDragged_center.
  unfold Ol.rotate, squareDragged, squareTurned, Ol.applyTransform, Ol.rotateCoord.
  cbn [map fst snd]. rewrite cos_PI, sin_PI. coords.
Qed.

Lemma squareTurned_turned : Ol.rotate PI (boxCenter squareTurned) squareTurned = squareDragged.
Proof.
  rewrite squareTurned_center.
  unfold Ol.rotate, squareDragged, squareTurned, Ol.applyTransform, Ol.rotateCoord.
  cbn [map fst snd]. rewrite cos_PI, sin_PI. coords.
Qed.

Lemma squareDragged_not_turned : squareDragged <> squareTurned.
Proof. unfold squareDragged, squareTurned. intros H; injection H as H. lra. Qed.

(** Dragging the top-right handle of the selected square to (20,-10). *)
Lemma drag_square_inverted (a : option R) :
  unrotated a ->
  exists t2,
    handleDragEvent (dragTo (20, -10)) (squareGrabbed a 6 (10, 10)) = Some t2 /\
    _selections t2 = [0%nat] /\
    _mode t2 = scale /\
    _headInverted t2 = true /\
    store t2 0%nat = mkFeature squareDragged a.
Proof.
  intros Ha.
  destruct (drag_square_handle a 6 (10, 10) (20, -10) Ha)
    as (t2 & Hdrag & Hs & Hm & Hhi & Hst).
  assert (Hf : scaleFactors (scalingOf 0 square 6) (20, -10) = (2, -1))
    by (rewrite square_factors6; coords).
  exists t2. split; [exact Hdrag|]. split; [exact Hs|]. split; [exact Hm|].
  rewrite Hf in Hhi, Hst. cbn [fst snd] in Hhi, Hst.
  split; [rewrite Hhi; apply ltb_true; lra|].
  rewrite Hst. change (Z.rem (6 + halfRing) scaleHandlesLength) with 2%Z.
  cbn [handleOn]. rewrite squareDragged_eq. reflexivity.
Qed.

(** The scenario of C4: the square with angle 0, its top-right handle
    dragged to (20,-10) and released. *)
Lemma head_inversion_half_turn_witness :
  exists t1 t2 t3,
    handleDownEvent (pressOn (Handle (mkHandle (Point (10, 10)) 0%nat scale 6)) (10, 10) false)
      (selectedSquare (Some 0)) = Some (t1, true) /\
    dragFrames [dragTo (20, -10)] t1 = Some t2 /\
    handleUpEvent (releaseAt (20, -10)) t2 = Some (t3, false) /\
    store t3 0%nat = mkFeature squareTurned (Some PI).
Proof.
  pose (t1 := squareGrabbed (Some 0) 6 (10, 10)).
  assert (Hsc : _scalingSelection t1 = mkScaling 0 10 10 6 2 (0, 0) (10, 10))
    by exact square_scaling6.
  assert (Hf : scaleFactors (_scalingSelection t1) (evtCoordinate (dragTo (20, -10))) = (2, -1)).
  { change (_scalingSelection t1) with (scalingOf 0 square 6).
    cbn [dragTo evtCoordinate]. rewrite square_factors6. coords. }
  destruct (head_inversion_half_turn (selectedSquare (Some 0)) t1
              (pressOn (Handle (mkHandle (Point (10, 10)) 0%nat scale 6)) (10, 10) false)
              (dragTo (20, -10)) (releaseAt (20, -10)) []
              (press_square_handle (Some 0) 6 (10, 10) eq_refl) eq_refl (NoDup_single 0%nat))
    as (t2 & t3 & Hrun & Hhi & Hup & Hidle & Hlive).
  - rewrite Hsc. cbn [w]. lra.
  - rewrite Hsc. cbn [h]. lra.
  - rewrite Hf. cbn [snd]. lra.
  - exists t1, t2, t3.
    split; [exact (press_square_handle (Some 0) 6 (10, 10) eq_refl)|].
    split; [exact Hrun|]. split; [exact Hup|].
    specialize (Hlive 0%nat (or_introl eq_refl)).
    change (angle (store t1 0%nat)) with (Some 0) in Hlive.
    destruct Hlive as (Hg & _ & Ha). specialize (Ha eq_refl).
    destruct (drag_square_inverted (Some 0) eq_refl) as (t2' & Hdrag & _ & _ & _ & Hst).
    assert (Ht2 : t2' = t2).
    { cbn [app dragFrames] in Hrun. fold t1 in Hdrag. rewrite Hdrag in Hrun.
      cbn [bind] in Hrun. injection Hrun as Hrun. exact Hrun. }
    subst t2'. rewrite Hst in Hg. cbn [geometry] in Hg.
    fold (boxCenter squareDragged) in Hg. rewrite squareDragged_turned in Hg.
    destruct (store t3 0%nat) as [g3 a3]. cbn [geometry angle] in Hg, Ha.
    rewrite Hg, Ha. reflexivity.
Defined.

(** The claim as stated fails for a selected shape without the attribute:
    the square with no ["angle"], dragged the same way, is released as the
    last frame left it, not turned by [PI]. *)
Lemma no_half_turn_without_angle :
  exists t1 t2 t3,
    handleDownEvent (pressOn (Handle (mkHandle (Point (10, 10)) 0%nat scale 6)) (10, 10) false)
      (selectedSquare None) = Some (t1, true) /\
    handleDragEvent (dragTo (20, -10)) t1 = Some t2 /\
    _mode t2 = scale /\
    _headInverted t2 = true /\
    handleUpEvent (releaseAt (20, -10)) t2 = Some (t3, false) /\
    store t3 0%nat = store t2 0%nat /\
    geometry (store t3 0%nat)
    <> Ol.rotate PI (Ol.getCenter (Ol.getExtent (geometry (store t2 0%nat))))
         (geometry (store t2 0%nat)).
Proof.
  destruct (drag_square_inverted None I) as (t2 & Hdrag & Hs & Hm & Hhi & Hst).
  exists (squareGrabbed None 6 (10, 10)), t2, (released (releaseAt (20, -10)) t2).
  split; [exact (press_square_handle None 6 (10, 10) I)|].
  split; [exact Hdrag|]. split; [exact Hm|]. split; [exact Hhi|].
  split; [apply handleUpEvent_eq|].
  assert (Hrel : store (released (releaseAt (20, -10)) t2) 0%nat = store t2 0%nat).
  { cbn [store released]. unfold releasedStore. rewrite Hm, Hhi, Hs.
    cbn [mode_eqb andb fold_left]. unfold halfTurnStore. rewrite Hst.
    cbn [angle]. rewrite Hst. reflexivity. }
  split; [exact Hrel|].
  rewrite Hrel, Hst. cbn [geometry]. fold (boxCenter squareDragged).
  rewrite squareDragged_turned. apply squareDragged_not_turned.
Qed.

(** ** A stale head-inversion flag *)

Lemma squareTurned_normal : Ol.rotate (- PI) (10, -5) squareTurned = squareDragged.
Proof.
  unfold Ol.rotate, squareDragged, squareTurned, Ol.applyTransform, Ol.rotateCoord.
  cbn [map fst snd]. rewrite cos_neg, sin_neg, cos_PI, sin_PI. coords.
Qed.

Lemma squareTurned_handle6 : boxHandle PI squareTurned 6 = (0, -10).
Proof.
  unfold boxHandle, normalExtent. rewrite squareTurned_center, squareTurned_normal.
  unfold squareDragged. extent_eval. cbn [minX minY maxX maxY handleOn].
  unfold Ol.rotateCoord. cbn [fst snd]. rewrite cos_PI, sin_PI. coords.
Qed.

(** C5, on the code.  The square with angle 0 is scaled through zero height
    and released: it is turned and its angle is [PI].  The next gesture is a
    press on a scale handle and a release with no frame in between: the
    release turns the square again and resets its angle to [0], because
    [_headInverted] still holds the value of the previous gesture. *)
Theorem stale_head_inversion_turns_again :
  exists t1 t2 t3 t4 t5,
    handleDownEvent (pressOn (Handle (mkHandle (Point (10, 10)) 0%nat scale 6)) (10, 10) false)
      (selectedSquare (Some 0)) = Some (t1, true) /\
    handleDragEvent (dragTo (20, -10)) t1 = Some t2 /\
    handleUpEvent (releaseAt (20, -10)) t2 = Some (t3, false) /\
    _mode t3 = idle /\
    _isTransformed t3 = false /\
    _headInverted t3 = true /\
    store t3 0%nat = mkFeature squareTurned (Some PI) /\
    In (mkHandle (Point (0, -10)) 0%nat scale 6) (_handleLayer t3) /\
    handleDownEvent (pressOn (Handle (mkHandle (Point (0, -10)) 0%nat scale 6)) (0, -10) false)
      t3 = Some (t4, true) /\
    handleUpEvent (releaseAt (0, -10)) t4 = Some (t5, false) /\
    store t5 0%nat = mkFeature squareDragged (Some 0) /\
    store t5 0%nat <> store t3 0%nat.
Proof.
  destruct (drag_square_inverted (Some 0) eq_refl) as (t2 & Hdrag & Hs & Hm & Hhi & Hst).
  set (t3 := released (releaseAt (20, -10)) t2).
  assert (Hst3 : store t3 0%nat = mkFeature squareTurned (Some PI)).
  { cbn [t3 store released]. unfold releasedStore. rewrite Hm, Hhi, Hs.
    cbn [mode_eqb andb fold_left]. unfold halfTurnStore. rewrite Hst.
    cbn [angle geometry]. unfold storeSetAngle, storeSetGeometry. cbn [Nat.eqb geometry].
    rewrite squareDragged_turned, rem_half_turn. reflexivity. }
  set (hf := mkHandle (Point (0, -10)) 0%nat scale 6).
  set (down := pressOn (Handle hf) (0, -10) false).
  set (t4 := withScaling
               (scalingOf (angleOrZero (store t3 (body hf))) (geometry (store t3 (body hf)))
                  (index hf))
               (pressed down t3 scale)).
  assert (Hst5 : store (released (releaseAt (0, -10)) t4) 0%nat
                 = mkFeature squareDragged (Some 0)).
  { cbn [store released]. unfold releasedStore.
    change (_mode t4) with scale. change (_headInverted t4) with (_headInverted t2).
    change (_selections t4) with (_selections t2). change (store t4) with (store t3).
    rewrite Hhi, Hs. cbn [mode_eqb andb fold_left]. unfold halfTurnStore. rewrite Hst3.
    cbn [angle geometry]. unfold storeSetAngle, storeSetGeometry. cbn [Nat.eqb geometry].
    rewrite squareTurned_turned, rem_full_turn. reflexivity. }
  exists (squareGrabbed (Some 0) 6 (10, 10)), t2, t3, t4, (released (releaseAt (0, -10)) t4).
  split; [exact (press_square_handle (Some 0) 6 (10, 10) eq_refl)|].
  split; [exact Hdrag|].
  split; [apply handleUpEvent_eq|].
  split; [reflexivity|]. split; [reflexivity|]. split; [exact Hhi|].
  split; [exact Hst3|].
  split.
  { cbn [t3 _handleLayer released]. rewrite Hs. unfold overlay, boxHandles.
    change (releasedStore t2 0%nat) with (store t3 0%nat). rewrite Hst3.
    cbn [geometry squareTurned angleOrZero angle]. fold squareTurned.
    cbn [map ringIndices app In]. do 7 right. left.
    rewrite squareTurned_handle6. reflexivity. }
  split; [exact (handleDownEvent_scale down t3 hf eq_refl eq_refl)|].
  split; [apply handleUpEvent_eq|].
  split; [exact Hst5|].
  rewrite Hst5, Hst3. intros H.
  apply squareDragged_not_turned. exact (f_equal geometry H).
Qed.

(** ** Rotate gestures *)

Lemma handleDownEvent_rotate_inv (evt : MapBrowserEvent) (t t1 : Transform) :
  handleDownEvent evt t = Some (t1, true) ->
  _mode t1 = rotate ->
  exists hf,
    mode hf = rotate /\
    t1 = withRotation (rotationOf (geometry (store t (body hf))) (evtCoordinate evt))
           (pressed evt t rotate).
Proof.
  intros Hdown Hmode.
  assert (Hpick : exists hf, selectFeature evt t = Some (t, Some (Handle hf)) /\ mode hf = rotate).
  { revert Hdown Hmode. unfold handleDownEvent.
    destruct (selectFeature evt t) as [[t0 [picked|]]|] eqn:Hsel; cbn [bind]; [| |discriminate].
    - destruct picked as [feat | hf].
      + cbn [bind]. intros H; injection H as <-. discriminate.
      + rewrite (forEach_handle_inv _ _ _ _ _ Hsel) in *.
        destruct (mode hf) eqn:Hm.
        * unfold initHandleGesture.
          replace (_mode (setMode _ (mode hf))) with idle by (rewrite Hm; reflexivity).
          cbn [bind]. intros H; injection H as <-. rewrite Hm. discriminate.
        * unfold initHandleGesture.
          replace (_mode (setMode _ (mode hf))) with translate by (rewrite Hm; reflexivity).
          cbn [bind]. intros H; injection H as <-. rewrite Hm. discriminate.
        * rewrite (initHandleGesture_scale _ _ _ Hm). cbn [bind].
          intros H; injection H as <-. discriminate.
        * intros _ _. exists hf. split; [reflexivity | exact Hm].
    - destruct (selClear t0); cbn [bind]; discriminate. }
  destruct Hpick as (hf & Hsel & Hm). exists hf. split; [exact Hm|].
  revert Hdown. unfold handleDownEvent. rewrite Hsel. cbn [bind].
  unfold initHandleGesture.
  replace (_mode (setMode _ (mode hf))) with rotate by (rewrite Hm; reflexivity).
  cbn [bind]. rewrite Hm.
  intros H; injection H as <-. destruct t; reflexivity.
Qed.

Lemma rotatedGeometry_ext (da : R) (prevs prevs' : list Feature) :
  map geometry prevs' = map geometry prevs ->
  map (rotatedGeometry da) prevs' = map (rotatedGeometry da) prevs.
Proof.
  revert prevs'; induction prevs as [|f l IH]; intros [|f' l'] H; try discriminate;
    [reflexivity|].
  cbn [map] in *. injection H as Hg Hl. unfold rotatedGeometry at 1 3.
  rewrite Hg, (IH _ Hl). reflexivity.
Qed.

Lemma rotateSnapshot_geometry (da : R) (prevs : list Feature) :
  map geometry (map (rotateSnapshot da) prevs) = map geometry prevs.
Proof.
  induction prevs as [|f l IH]; [reflexivity|]. cbn [map]. rewrite IH. f_equal.
  unfold rotateSnapshot. destruct (angle f); reflexivity.
Qed.

(** Rotate frames run to the end on an index-aligned snapshot; they keep
    the snapshot's geometries and the live attributes. *)
Lemma dragFrames_rotate (frames : list MapBrowserEvent) (t : Transform) :
  _mode t = rotate ->
  length (_prevSelections t) = length (_selections t) ->
  exists t',
    dragFrames frames t = Some t' /\
    _mode t' = rotate /\
    map geometry (_prevSelections t') = map geometry (_prevSelections t) /\
    _selections t' = _selections t /\
    _rotationSelection t' = _rotationSelection t /\
    (forall j, angle (store t' j) = angle (store t j)).
Proof.
  revert t; induction frames as [|evt rest IH]; intros t Hmode Hlen.
  - exists t. repeat split; try reflexivity; assumption.
  - cbn [dragFrames]. rewrite (handleDragEvent_rotate _ _ Hmode).
    destruct (assignFrom_total
                (map (rotatedGeometry
                        (rotationDelta (_rotationSelection t) (evtCoordinate evt)))
                     (_prevSelections t))
                (_selections t) 0 (store t)) as (st' & Hst).
    { rewrite length_map, Hlen. simpl; lia. }
    rewrite Hst. cbn [bind].
    match goal with |- context [dragFrames rest ?u] => set (t1 := u) end.
    destruct (IH t1 Hmode) as (t' & Hrun & Hm & Hp & Hs & Hrs & Ha).
    { subst t1; cbn [_prevSelections _selections framed]. rewrite length_map. exact Hlen. }
    exists t'. split; [exact Hrun|]. split; [exact Hm|].
    split; [rewrite Hp; subst t1; cbn [_prevSelections framed];
            apply rotateSnapshot_geometry|].
    split; [exact Hs|]. split; [exact Hrs|].
    intros j. rewrite Ha. subst t1; cbn [store framed].
    exact (assignFrom_angle _ _ _ _ _ j Hst).
Qed.

Lemma square_center : boxCenter square = (5, 5).
Proof. unfold boxCenter, Ol.getCenter. rewrite square_extent. cbn [minX minY maxX maxY]. coords. Qed.

Lemma square_rotation : rotationOf square (5, 10) = mkRotation (PI / 2) (5, 5).
Proof.
  unfold rotationOf. rewrite square_center. cbn [fst snd]. f_equal.
  replace (5 - 5) with 0 by ring. apply atan2_up. lra.
Qed.

Lemma square_delta : rotationDelta (mkRotation (PI / 2) (5, 5)) (10, 5) = - (PI / 2).
Proof.
  unfold rotationDelta. cbn [rotAngle rotCenter fst snd].
  replace (5 - 5) with 0 by ring. rewrite atan2_right by lra. ring.
Qed.

Lemma rem_quarter_back : JsMath.rem (0 + - (PI / 2)) (2 * PI) = - (PI / 2).
Proof.
  pose proof PI_RGT_0 as Hpi.
  replace (0 + - (PI / 2)) with (- (PI / 2)) by ring. apply rem_small; lra.
Qed.

Lemma square_quarter : Ol.rotate (- (PI / 2)) (boxCenter square) square = squareQuarter.
Proof.
  rewrite square_center.
  unfold Ol.rotate, square, squareQuarter, Ol.applyTransform, Ol.rotateCoord.
  cbn [map fst snd]. rewrite cos_neg, sin_neg, cos_PI2, sin_PI2. coords.
Qed.

(** The last rotate frame of a gesture, on a live shape of the selection. *)
Lemma rotate_frame_result
    (t1 : Transform) (frames : list MapBrowserEvent) (evt : MapBrowserEvent) :
  _mode t1 = rotate ->
  NoDup (_selections t1) ->
  _prevSelections t1 = snapshotOf t1 ->
  exists t2,
    dragFrames (frames ++ [evt]) t1 = Some t2 /\
    forall live,
      In live (_selections t1) ->
      store t2 live
      = mkFeature
          (rotatedGeometry (rotationDelta (_rotationSelection t1) (evtCoordinate evt))
             (store t1 live))
          (angle (store t1 live)).
Proof.
  intros Hmode Hnd Hsnap.
  assert (Hlen : length (_prevSelections t1) = length (_selections t1))
    by (rewrite Hsnap; unfold snapshotOf; apply length_map).
  destruct (dragFrames_rotate frames t1 Hmode Hlen) as (t' & Hrun & Hm & Hp & Hs & Hrs & Ha).
  assert (Hcat : forall l t, dragFrames (l ++ [evt]) t
                             = (u <- dragFrames l t ;; handleDragEvent evt u)).
  { induction l as [|e l IH]; intros t; cbn [app dragFrames bind].
    - destruct (handleDragEvent evt t); reflexivity.
    - destruct (handleDragEvent e t); cbn [bind]; [apply IH | reflexivity]. }
  rewrite Hcat, Hrun. cbn [bind].
  rewrite (handleDragEvent_rotate _ _ Hm), Hs, Hrs.
  rewrite (rotatedGeometry_ext _ _ _ Hp).
  destruct (assignFrom_total
              (map (rotatedGeometry (rotationDelta (_rotationSelection t1) (evtCoordinate evt)))
                   (_prevSelections t1))
              (_selections t1) 0 (store t')) as (st' & Hst).
  { rewrite length_map, Hlen. simpl; lia. }
  rewrite Hst. cbn [bind]. eexists. split; [reflexivity|].
  intros live Hin. cbn [store framed].
  destruct (In_nth_error _ _ Hin) as (i & Hi).
  destruct (assignFrom_spec _ _ Hnd _ _ _ Hst) as (Hset & _).
  assert (Hprev : nth_error (_prevSelections t1) i = Some (clone (store t1 live))).
  { rewrite Hsnap. unfold snapshotOf. rewrite nth_error_map, Hi. reflexivity. }
  rewrite (Hset i _ live (map_nth_error _ _ _ Hprev) Hi), Ha.
  reflexivity.
Qed.

Lemma press_square_rotate (a : option R) :
  handleDownEvent (pressOn (Handle (mkHandle (Point (5, 10)) 0%nat rotate (-1))) (5, 10) false)
    (selectedSquare a)
  = Some (squareTurning a, true).
Proof.
  rewrite (handleDownEvent_rotate _ (selectedSquare a)
             (mkHandle (Point (5, 10)) 0%nat rotate (-1))) by reflexivity.
  reflexivity.
Qed.

(** The frame to (10,5): the live square is turned, its attribute is kept,
    and the snapshot's attribute is overwritten. *)
Lemma drag_square_rotate (a : option R) :
  exists t2,
    handleDragEvent (dragTo (10, 5)) (squareTurning a) = Some t2 /\
    store t2 0%nat = mkFeature squareQuarter a /\
    _prevSelections t2 = [rotateSnapshot (- (PI / 2)) (mkFeature square a)].
Proof.
  eexists. split.
  - rewrite handleDragEvent_rotate by reflexivity.
    cbn [squareTurning withRotation pressed _rotationSelection _prevSelections _selections
         store snapshotOf selectedSquare map dragTo evtCoordinate clone squareStore
         geometry angle assignFrom nth_error bind].
    reflexivity.
  - cbn [store _prevSelections framed storeSetGeometry Nat.eqb squareStore angle map].
    rewrite square_rotation, square_delta.
    change (clone (squareStore a 0%nat)) with (mkFeature square a).
    unfold rotatedGeometry. cbn [geometry]. rewrite square_quarter.
    split; reflexivity.
Qed.





(** C3, on the code.  The snapshot taken at the press of the scenario holds
    the square with angle [0]; after one rotate frame the snapshot shape's
    attribute is [- PI / 2]: the frame wrote into the snapshot. *)
Theorem rotate_frame_writes_the_snapshot :
  exists t1 t2,
    handleDownEvent
      (pressOn (Handle (mkHandle (Point (5, 10)) 0%nat rotate (-1))) (5, 10) false)
      (selectedSquare (Some 0)) = Some (t1, true) /\
    _prevSelections t1 = [mkFeature square (Some 0)] /\
    handleDragEvent (dragTo (10, 5)) t1 = Some t2 /\
    _prevSelections t2 = [mkFeature square (Some (- (PI / 2)))] /\
    _prevSelections t2 <> _prevSelections t1.
Proof.
  pose proof PI_RGT_0 as Hpi.
  destruct (drag_square_rotate (Some 0)) as (t2 & Hdrag & _ & Hprev).
  assert (Hp2 : _prevSelections t2 = [mkFeature square (Some (- (PI / 2)))]).
  { rewrite Hprev. unfold rotateSnapshot. cbn [angle geometry].
    rewrite rem_quarter_back. reflexivity. }
  exists (squareTurning (Some 0)), t2.
  split; [exact (press_square_rotate (Some 0))|].
  split; [reflexivity|]. split; [exact Hdrag|]. split; [exact Hp2|].
  rewrite Hp2. cbn [squareTurning withRotation pressed _prevSelections snapshotOf
                    selectedSquare map clone squareStore store _selections geometry angle].
  intros H. injection H as H. lra.
Qed.

(** ** The selection never holds a shape twice *)

Lemma indexOfFrom_absent (feat : FeatId) (l : list FeatId) (k : Z) :
  (0 <= k)%Z -> indexOfFrom feat l k = (-1)%Z -> ~ In feat l.
Proof.
  revert k; induction l as [|x rest IH]; intros k Hk; cbn [indexOfFrom]; [intros _ []|].
  destruct (Nat.eqb_spec x feat) as [-> | Hne]; [lia|].
  intros H [E | Hin]; [contradiction|]. apply (IH (k + 1)%Z); [lia | exact H | exact Hin].
Qed.

Lemma NoDup_snoc (l : list FeatId) (x : FeatId) : NoDup l -> ~ In x l -> NoDup (l ++ [x]).
Proof.
  intros Hnd Hout. induction l as [|a l IH]; [apply NoDup_single|].
  inversion Hnd as [|? ? Ha Hl]; subst. cbn [app]. constructor.
  - rewrite in_app_iff. intros [Hin | [E | []]]; [contradiction|].
    apply Hout. left. symmetry. exact E.
  - apply IH; [exact Hl|]. intros Hin. apply Hout. right. exact Hin.
Qed.

Lemma selRemoveAt_NoDup (i : Z) (t t' : Transform) :
  NoDup (_selections t) -> selRemoveAt i t = Some t' -> NoDup (_selections t').
Proof.
  intros Hnd. unfold selRemoveAt.
  destruct ((i <? 0)%Z || (Z.of_nat (length (_selections t)) <=? i)%Z) eqn:Hr.
  - intros H; injection H as <-. exact Hnd.
  - rewrite drawHandles_eq. intros H; injection H as <-.
    cbn [_selections setHandleLayer setSelections].
    apply orb_false_iff in Hr. destruct Hr as [H0 Hlen].
    apply Z.ltb_ge in H0. apply Z.leb_gt in Hlen.
    destruct (nth_error (_selections t) (Z.to_nat i)) as [x|] eqn:Hx.
    + exact (proj1 (removeNth_NoDup _ _ _ Hnd Hx)).
    + apply nth_error_None in Hx. lia.
Qed.

Lemma selectCallback_NoDup (evt : MapBrowserEvent) (c : Candidate) (t t' : Transform)
    (r : option Pick) :
  NoDup (_selections t) -> selectCallback evt c t = Some (t', r) -> NoDup (_selections t').
Proof.
  intros Hnd. destruct (accepted c) eqn:Ha.
  - rewrite (selectCallback_accepted _ _ _ Ha).
    destruct (target c) as [feat | hf].
    + cbv zeta.
      destruct (addCondition evt), (indexOf feat (_selections t) =? -1)%Z eqn:Hi.
      * rewrite selPush_eq. cbn [bind]. intros H; injection H as Ht Hpick; rewrite <- Ht.
        cbn [_selections setHandleLayer setSelections].
        apply NoDup_snoc; [exact Hnd|].
        apply Z.eqb_eq in Hi. exact (indexOfFrom_absent _ _ 0 (Z.le_refl 0) Hi).
      * destruct (selRemoveAt _ t) as [t1|] eqn:Hr; cbn [bind]; [|discriminate].
        intros H; injection H as Ht Hpick; rewrite <- Ht.
        exact (selRemoveAt_NoDup _ _ _ Hnd Hr).
      * rewrite selClear_eq. cbn [bind]. rewrite selPush_eq. cbn [bind].
        intros H; injection H as Ht Hpick; rewrite <- Ht.
        apply Z.eqb_eq in Hi. pose proof (indexOfFrom_absent _ _ 0 (Z.le_refl 0) Hi) as Hout.
        destruct (_selections t) eqn:Hs; cbn [_selections setHandleLayer setSelections];
          rewrite ?Hs; apply NoDup_single.
      * cbn [bind]. intros H; injection H as Ht Hpick; rewrite <- Ht. exact Hnd.
    + intros H; injection H as Ht Hpick; rewrite <- Ht. exact Hnd.
  - rewrite (selectCallback_rejected _ _ _ Ha).
    intros H; injection H as Ht Hpick; rewrite <- Ht. exact Hnd.
Qed.

Lemma selectFeature_NoDup (evt : MapBrowserEvent) (t t' : Transform) (r : option Pick) :
  NoDup (_selections t) -> selectFeature evt t = Some (t', r) -> NoDup (_selections t').
Proof.
  unfold selectFeature. generalize (atPixel evt) as cands.
  intros cands; revert t; induction cands as [|c rest IH]; intros t Hnd;
    cbn [forEachFeatureAtPixel].
  - intros H; injection H as Ht Hpick; rewrite <- Ht. exact Hnd.
  - destruct (selectCallback evt c t) as [[t1 r1]|] eqn:Hc; cbn [bind]; [|discriminate].
    pose proof (selectCallback_NoDup _ _ _ _ _ Hnd Hc) as Hnd1.
    destruct r1 as [p|].
    + intros H; injection H as Ht Hpick; rewrite <- Ht. exact Hnd1.
    + apply IH, Hnd1.
Qed.

(** Every handled press leaves a duplicate-free selection, so the
    selections the gestures above start from are duplicate-free in every
    state reached from a new interaction. *)
Lemma handleDownEvent_NoDup (evt : MapBrowserEvent) (t t1 : Transform) :
  NoDup (_selections t) ->
  handleDownEvent evt t = Some (t1, true) ->
  NoDup (_selections t1).
Proof.
  intros Hnd Hdown.
  destruct (handleDownEvent_handled _ _ _ Hdown) as (tsel & picked & Hsel & _ & Hsame).
  destruct Hsame as (_ & Hs & _). rewrite Hs. cbn [_selections pressed].
  exact (selectFeature_NoDup _ _ _ _ Hnd Hsel).
Qed.

(** ** The snapshot outside rotate frames *)

(** Translate frames, scale frames and the release leave the snapshot as
    the press took it; only the rotate frame writes into it. *)
Lemma snapshot_kept_outside_rotate (evt : MapBrowserEvent) (t t' : Transform) :
  (_mode t <> rotate ->
   handleDragEvent evt t = Some t' -> _prevSelections t' = _prevSelections t) /\
  (forall b, handleUpEvent evt t = Some (t', b) -> _prevSelections t' = _prevSelections t).
Proof.
  split.
  - intros Hmode. destruct (_mode t) eqn:Hm.
    + rewrite (handleDragEvent_idle _ _ Hm). intros H; injection H as <-. reflexivity.
    + rewrite (handleDragEvent_translate _ _ Hm). intros H; injection H as <-. reflexivity.
    + rewrite (handleDragEvent_scale _ _ Hm).
      destruct (assignFrom _ _ _ _); cbn [bind]; [|discriminate].
      intros H; injection H as <-. reflexivity.
    + contradiction.
  - intros b. rewrite handleUpEvent_eq. intros H; injection H as <- _. reflexivity.
Qed.

(** * Further properties of the code *)

(** ** util: [rearrangeCoords] *)

Lemma min4_le (a b c d x : R) : In x [a; b; c; d] -> JsMath.min4 a b c d <= x.
Proof.
  unfold JsMath.min4. cbn [In]. intros [<- | [<- | [<- | [<- | []]]]].
  - eapply Rle_trans; [apply Rmin_l|]. eapply Rle_trans; [apply Rmin_l|]. apply Rmin_l.
  - eapply Rle_trans; [apply Rmin_l|]. eapply Rle_trans; [apply Rmin_l|]. apply Rmin_r.
  - eapply Rle_trans; [apply Rmin_l|]. apply Rmin_r.
  - apply Rmin_r.
Qed.

Lemma max4_ge (a b c d x : R) : In x [a; b; c; d] -> x <= JsMath.max4 a b c d.
Proof.
  unfold JsMath.max4. cbn [In]. intros [<- | [<- | [<- | [<- | []]]]].
  - eapply Rle_trans; [|apply Rmax_l]. eapply Rle_trans; [|apply Rmax_l]. apply Rmax_l.
  - eapply Rle_trans; [|apply Rmax_l]. eapply Rle_trans; [|apply Rmax_l]. apply Rmax_r.
  - eapply Rle_trans; [|apply Rmax_l]. apply Rmax_r.
  - apply Rmax_r.
Qed.

Lemma min4_in (a b c d : R) : In (JsMath.min4 a b c d) [a; b; c; d].
Proof.
  unfold JsMath.min4, Rmin. cbn [In].
  destruct (Rle_dec a b); destruct (Rle_dec _ c); destruct (Rle_dec _ d); auto.
Qed.

Lemma max4_in (a b c d : R) : In (JsMath.max4 a b c d) [a; b; c; d].
Proof.
  unfold JsMath.max4, Rmax. cbn [In].
  destruct (Rle_dec a b); destruct (Rle_dec _ c); destruct (Rle_dec _ d); auto.
Qed.

Lemma min4_perm (a b c d a' b' c' d' : R) :
  Permutation [a; b; c; d] [a'; b'; c'; d'] ->
  JsMath.min4 a b c d = JsMath.min4 a' b' c' d'.
Proof.
  intros Hp. apply Rle_antisym.
  - apply min4_le. apply (Permutation_in _ (Permutation_sym Hp)), min4_in.
  - apply min4_le. apply (Permutation_in _ Hp), min4_in.
Qed.

Lemma max4_perm (a b c d a' b' c' d' : R) :
  Permutation [a; b; c; d] [a'; b'; c'; d'] ->
  JsMath.max4 a b c d = JsMath.max4 a' b' c' d'.
Proof.
  intros Hp. apply Rle_antisym.
  - apply max4_ge. apply (Permutation_in _ Hp), max4_in.
  - apply max4_ge. apply (Permutation_in _ (Permutation_sym Hp)), max4_in.
Qed.

(** X1. [rearrangeCoords] reads the first four coordinates only and fails
    when there are fewer.  Its result is the closed ring
    [[minX,maxY], [minX,minY], [maxX,minY], [maxX,maxY], [minX,maxY]] of the
    tightest axis-aligned rectangle around the four: each bound is attained
    by one of them and holds for all of them.  Applied to its own result it
    returns it unchanged. *)
Theorem rearrangeCoords_bounding_ring :
  (forall coords, (length coords < 4)%nat -> rearrangeCoords coords = None) /\
  (forall c0 c1 c2 c3 rest,
      exists x0 y0 x1 y1,
        rearrangeCoords (c0 :: c1 :: c2 :: c3 :: rest)
        = Some [(x0, y1); (x0, y0); (x1, y0); (x1, y1); (x0, y1)] /\
        (forall c, In c [c0; c1; c2; c3] ->
                   x0 <= fst c <= x1 /\ y0 <= snd c <= y1) /\
        In x0 (map fst [c0; c1; c2; c3]) /\ In x1 (map fst [c0; c1; c2; c3]) /\
        In y0 (map snd [c0; c1; c2; c3]) /\ In y1 (map snd [c0; c1; c2; c3]) /\
        rearrangeCoords [(x0, y1); (x0, y0); (x1, y0); (x1, y1); (x0, y1)]
        = Some [(x0, y1); (x0, y0); (x1, y0); (x1, y1); (x0, y1)]).
Proof.
  split.
  - intros coords Hlen.
    destruct coords as [|c0 [|c1 [|c2 [|c3 rest]]]]; try reflexivity.
    simpl in Hlen; lia.
  - intros c0 c1 c2 c3 rest.
    exists (JsMath.min4 (fst c0) (fst c1) (fst c2) (fst c3)),
           (JsMath.min4 (snd c0) (snd c1) (snd c2) (snd c3)),
           (JsMath.max4 (fst c0) (fst c1) (fst c2) (fst c3)),
           (JsMath.max4 (snd c0) (snd c1) (snd c2) (snd c3)).
    split; [reflexivity|].
    split.
    { intros c Hc.
      assert (Hx : In (fst c) [fst c0; fst c1; fst c2; fst c3])
        by (apply (in_map fst) in Hc; exact Hc).
      assert (Hy : In (snd c) [snd c0; snd c1; snd c2; snd c3])
        by (apply (in_map snd) in Hc; exact Hc).
      repeat split;
        [apply min4_le | apply max4_ge | apply min4_le | apply max4_ge]; assumption. }
    split; [apply min4_in|]. split; [apply max4_in|].
    split; [apply min4_in|]. split; [apply max4_in|].
    set (x0 := JsMath.min4 (fst c0) (fst c1) (fst c2) (fst c3)).
    set (x1 := JsMath.max4 (fst c0) (fst c1) (fst c2) (fst c3)).
    set (y0 := JsMath.min4 (snd c0) (snd c1) (snd c2) (snd c3)).
    set (y1 := JsMath.max4 (snd c0) (snd c1) (snd c2) (snd c3)).
    assert (Hx : x0 <= x1).
    { apply Rle_trans with (fst c0); [apply min4_le | apply max4_ge]; left; reflexivity. }
    assert (Hy : y0 <= y1).
    { apply Rle_trans with (snd c0); [apply min4_le | apply max4_ge]; left; reflexivity. }
    cbn [rearrangeCoords fst snd].
    rewrite (min4_rect _ _ Hx), (max4_rect _ _ Hx).
    replace (JsMath.min4 y1 y0 y0 y1) with y0.
    2:{ symmetry. apply Rle_antisym.
        - apply min4_le. right; left; reflexivity.
        - destruct (min4_in y1 y0 y0 y1) as [E | [E | [E | [E | []]]]]; rewrite <- E; lra. }
    replace (JsMath.max4 y1 y0 y0 y1) with y1.
    2:{ symmetry. apply Rle_antisym.
        - destruct (max4_in y1 y0 y0 y1) as [E | [E | [E | [E | []]]]]; rewrite <- E; lra.
        - apply max4_ge. left; reflexivity. }
    reflexivity.
Qed.

(** X2. The result of [rearrangeCoords] does not depend on the order in
    which the four corners are given, nor on what follows them. *)
Theorem rearrangeCoords_order_free
    (c0 c1 c2 c3 d0 d1 d2 d3 : Coordinate) (rest rest' : list Coordinate) :
  Permutation [c0; c1; c2; c3] [d0; d1; d2; d3] ->
  rearrangeCoords (c0 :: c1 :: c2 :: c3 :: rest)
  = rearrangeCoords (d0 :: d1 :: d2 :: d3 :: rest').
Proof.
  intros Hp.
  pose proof (Permutation_map fst Hp) as Hx. pose proof (Permutation_map snd Hp) as Hy.
  cbn [map] in Hx, Hy. cbn [rearrangeCoords].
  rewrite (min4_perm _ _ _ _ _ _ _ _ Hx), (max4_perm _ _ _ _ _ _ _ _ Hx),
    (min4_perm _ _ _ _ _ _ _ _ Hy), (max4_perm _ _ _ _ _ _ _ _ Hy).
  reflexivity.
Qed.

(** The ring of [fromExtent], which starts at [minX,minY] and runs
    clockwise, gives the same result read backwards. *)
Lemma rearrangeCoords_order_free_witness :
  rearrangeCoords [(0, 0); (0, 10); (10, 10); (10, 0); (0, 0)]
  = rearrangeCoords [(10, 0); (10, 10); (0, 10); (0, 0)].
Proof.
  apply rearrangeCoords_order_free.
  apply Permutation_rev with (l := [(0, 0); (0, 10); (10, 10); (10, 0)]).
Defined.

(** ** util: [calcSize], [calcDistance]; [rotatePoint] *)

Lemma rotatePoint_rotateCoord (p c : Coordinate) (a : R) :
  rotatePoint p c a = Ol.rotateCoord a c p.
Proof.
  destruct p as [x y], c as [cx cy]. unfold rotatePoint, Ol.rotateCoord; cbn [fst snd].
  f_equal; ring.
Qed.

Lemma turn_norm (x y a : R) :
  (x * cos a - y * sin a) ^ 2 + (x * sin a + y * cos a) ^ 2 = x ^ 2 + y ^ 2.
Proof.
  pose proof (sin2_cos2 a) as H. unfold Rsqr in H.
  replace ((x * cos a - y * sin a) ^ 2 + (x * sin a + y * cos a) ^ 2)
    with ((x ^ 2 + y ^ 2) * (sin a * sin a + cos a * cos a)) by ring.
  rewrite H. ring.
Qed.

Lemma calcDistance_rotateCoord (a : R) (c p q : Coordinate) :
  calcDistance (Ol.rotateCoord a c p) (Ol.rotateCoord a c q) = calcDistance p q.
Proof.
  rewrite !calcDistance_eq. destruct p as [px py], q as [qx qy], c as [cx cy].
  unfold Ol.rotateCoord; cbn [fst snd]. f_equal.
  rewrite <- (turn_norm (px - qx) (py - qy) a). ring.
Qed.

Lemma calcDistance_nonneg (p q : Coordinate) : 0 <= calcDistance p q.
Proof. rewrite calcDistance_eq. apply sqrt_pos. Qed.

Lemma norm_triangle (a b c d : R) :
  sqrt ((a + c) ^ 2 + (b + d) ^ 2) <= sqrt (a ^ 2 + b ^ 2) + sqrt (c ^ 2 + d ^ 2).
Proof.
  set (s1 := sqrt (a ^ 2 + b ^ 2)). set (s2 := sqrt (c ^ 2 + d ^ 2)).
  assert (H1 : 0 <= s1) by apply sqrt_pos.
  assert (H2 : 0 <= s2) by apply sqrt_pos.
  assert (E1 : s1 * s1 = a ^ 2 + b ^ 2) by (apply sqrt_sqrt; nra).
  assert (E2 : s2 * s2 = c ^ 2 + d ^ 2) by (apply sqrt_sqrt; nra).
  assert (Hcs : a * c + b * d <= s1 * s2).
  { destruct (Rle_dec (a * c + b * d) 0) as [Hn | Hp]; [nra|].
    apply Rnot_le_lt in Hp.
    assert (Hsq : (a * c + b * d) * (a * c + b * d) <= (s1 * s2) * (s1 * s2)).
    { replace ((s1 * s2) * (s1 * s2)) with ((s1 * s1) * (s2 * s2)) by ring.
      rewrite E1, E2. pose proof (pow2_ge_0 (a * d - b * c)). nra. }
    assert (Hs : 0 <= s1 * s2) by (apply Rmult_le_pos; assumption).
    nra. }
  rewrite <- (sqrt_square (s1 + s2)) by lra.
  apply sqrt_le_1_alt. nra.
Qed.

(** X3. [calcDistance] is a distance: symmetric, never negative, zero
    exactly between equal coordinates, and it obeys the triangle inequality.
    It is unchanged when both coordinates are turned by [rotatePoint] about
    the same anchor or shifted by the same offset; [calcSize] is symmetric
    and its two sides never exceed the distance. *)
Theorem calcDistance_is_a_metric (p q r c : Coordinate) (a dx dy : R) :
  calcDistance p q = calcDistance q p /\
  0 <= calcDistance p q /\
  (calcDistance p q = 0 <-> p = q) /\
  calcDistance p r <= calcDistance p q + calcDistance q r /\
  calcDistance (rotatePoint p c a) (rotatePoint q c a) = calcDistance p q /\
  calcDistance (Ol.translateCoord dx dy p) (Ol.translateCoord dx dy q) = calcDistance p q /\
  calcSize p q = calcSize q p /\
  fst (calcSize p q) <= calcDistance p q /\ snd (calcSize p q) <= calcDistance p q.
Proof.
  split.
  { rewrite !calcDistance_eq. f_equal. ring. }
  split; [apply calcDistance_nonneg|].
  split.
  { rewrite calcDistance_eq. destruct p as [px py], q as [qx qy]; cbn [fst snd]. split.
    - intros H.
      pose proof (pow2_ge_0 (px - qx)) as Hx. pose proof (pow2_ge_0 (py - qy)) as Hy.
      apply sqrt_eq_0 in H; [|lra].
      assert (Ex : (px - qx) ^ 2 = 0) by lra. assert (Ey : (py - qy) ^ 2 = 0) by lra.
      assert (px - qx = 0) by (apply Rsqr_0_uniq; unfold Rsqr; lra).
      assert (py - qy = 0) by (apply Rsqr_0_uniq; unfold Rsqr; lra).
      f_equal; lra.
    - intros E; injection E as -> ->.
      replace ((qx - qx) ^ 2 + (qy - qy) ^ 2) with 0 by ring. apply sqrt_0. }
  split.
  { rewrite !calcDistance_eq.
    replace (fst p - fst r) with ((fst p - fst q) + (fst q - fst r)) by ring.
    replace (snd p - snd r) with ((snd p - snd q) + (snd q - snd r)) by ring.
    apply norm_triangle. }
  split.
  { rewrite !rotatePoint_rotateCoord. apply calcDistance_rotateCoord. }
  split.
  { rewrite !calcDistance_eq. unfold Ol.translateCoord; cbn [fst snd]. f_equal. ring. }
  split.
  { unfold calcSize. f_equal; apply Rabs_minus_sym. }
  rewrite calcDistance_eq. unfold calcSize; cbn [fst snd].
  pose proof (pow2_ge_0 (fst p - fst q)) as Hx. pose proof (pow2_ge_0 (snd p - snd q)) as Hy.
  split.
  - rewrite <- sqrt_Rsqr_abs. apply sqrt_le_1_alt. unfold Rsqr. lra.
  - rewrite <- sqrt_Rsqr_abs. apply sqrt_le_1_alt. unfold Rsqr. lra.
Qed.

(** X4. [rotatePoint] turns about its anchor: the anchor stays, turning by
    [a] and then by [b] is turning by [a + b], turning by [- a] undoes
    turning by [a], a full turn changes nothing, and it is the same map as
    the geometry's own [rotate] on each coordinate. *)
Theorem rotatePoint_is_a_rotation (p c : Coordinate) (a b : R) :
  rotatePoint c c a = c /\
  rotatePoint (rotatePoint p c a) c b = rotatePoint p c (a + b) /\
  rotatePoint (rotatePoint p c a) c (- a) = p /\
  rotatePoint p c 0 = p /\
  rotatePoint p c (2 * PI) = p /\
  Ol.rotate a c (Point p) = Point (rotatePoint p c a).
Proof.
  destruct p as [x y], c as [cx cy].
  split.
  { unfold rotatePoint. f_equal; ring. }
  split.
  { unfold rotatePoint. rewrite cos_plus, sin_plus. f_equal; ring. }
  split.
  { unfold rotatePoint. rewrite cos_neg, sin_neg.
    pose proof (sin2_cos2 a) as H. unfold Rsqr in H.
    f_equal.
    - replace x with (cx + (x - cx) * (sin a * sin a + cos a * cos a)) at 3
        by (rewrite H; ring). ring.
    - replace y with (cy + (y - cy) * (sin a * sin a + cos a * cos a)) at 3
        by (rewrite H; ring). ring. }
  split.
  { unfold rotatePoint. rewrite cos_0, sin_0. f_equal; ring. }
  split.
  { unfold rotatePoint. rewrite cos_2PI, sin_2PI. f_equal; ring. }
  unfold Ol.rotate. cbn [Ol.applyTransform]. rewrite rotatePoint_rotateCoord. reflexivity.
Qed.

(** ** The oriented box *)

Lemma fold_extend_bounds (cs : list Coordinate) (e : Extent) :
  let e' := fold_left Ol.extendCoordinate cs e in
  (minX e' <= minX e /\ maxX e <= maxX e' /\ minY e' <= minY e /\ maxY e <= maxY e') /\
  (forall p, In p cs ->
             minX e' <= fst p <= maxX e' /\ minY e' <= snd p <= maxY e').
Proof.
  revert e. induction cs as [|c cs IH]; intros e; cbn [fold_left In].
  - split; [lra | intros p []].
  - destruct (IH (Ol.extendCoordinate e c)) as [Hm Hin]. cbv zeta in Hm, Hin.
    set (e' := fold_left Ol.extendCoordinate cs (Ol.extendCoordinate e c)) in *.
    cbn [Ol.extendCoordinate minX minY maxX maxY] in Hm.
    pose proof (Rmin_l (minX e) (fst c)). pose proof (Rmin_r (minX e) (fst c)).
    pose proof (Rmin_l (minY e) (snd c)). pose proof (Rmin_r (minY e) (snd c)).
    pose proof (Rmax_l (maxX e) (fst c)). pose proof (Rmax_r (maxX e) (fst c)).
    pose proof (Rmax_l (maxY e) (snd c)). pose proof (Rmax_r (maxY e) (snd c)).
    split; [lra|].
    intros p [<- | Hp]; [lra | apply Hin, Hp].
Qed.

Lemma getExtent_bounds (g : Geometry) (p : Coordinate) :
  In p (Ol.getCoordinates g) ->
  minX (Ol.getExtent g) <= fst p <= maxX (Ol.getExtent g) /\
  minY (Ol.getExtent g) <= snd p <= maxY (Ol.getExtent g).
Proof.
  destruct g as [c | c cs]; cbn [Ol.getCoordinates Ol.getExtent In]; unfold Ol.boundingExtent.
  - intros [<- | []]. cbn. lra.
  - destruct (fold_extend_bounds cs (mkExtent (fst c) (snd c) (fst c) (snd c))) as [Hm Hin].
    cbv zeta in Hm, Hin. cbn [minX minY maxX maxY] in Hm.
    intros [<- | Hp]; [lra | apply Hin, Hp].
Qed.

Lemma getCoordinates_applyTransform (f : Coordinate -> Coordinate) (g : Geometry) :
  Ol.getCoordinates (Ol.applyTransform f g) = map f (Ol.getCoordinates g).
Proof. destruct g; reflexivity. Qed.

Lemma normalExtent_zero (g : Geometry) : normalExtent 0 g = Ol.getExtent g.
Proof.
  unfold normalExtent. rewrite rotate_zero by apply Ropp_0. reflexivity.
Qed.

Lemma normalExtent_wf (a : R) (g : Geometry) : wfExtent (normalExtent a g).
Proof. apply getExtent_wf. Qed.

(** X5. The oriented box of a shape always exists.  It is a closed ring
    [tl, bl, br, tr, tl] whose corners form a rectangle: opposite sides have
    the width and the height of the extent of the un-rotated shape, and the
    two diagonals are equally long and cross in their middle.  A press on a
    scale handle records exactly that width and height.  For a shape with
    angle 0 the ring is made of the corners of the shape's own extent. *)
Theorem orientedBox_is_a_rectangle (a : R) (g : Geometry) (k : Z) :
  exists tl bl br tr,
    orientedBox a g = Some [tl; bl; br; tr; tl] /\
    calcDistance bl br = maxX (normalExtent a g) - minX (normalExtent a g) /\
    calcDistance tl tr = maxX (normalExtent a g) - minX (normalExtent a g) /\
    calcDistance tl bl = maxY (normalExtent a g) - minY (normalExtent a g) /\
    calcDistance tr br = maxY (normalExtent a g) - minY (normalExtent a g) /\
    calcDistance tl br = calcDistance bl tr /\
    centerOf tl br = centerOf bl tr /\
    w (scalingOf a g k) = maxX (normalExtent a g) - minX (normalExtent a g) /\
    h (scalingOf a g k) = maxY (normalExtent a g) - minY (normalExtent a g) /\
    (a = 0 ->
     [tl; bl; br; tr]
     = [(minX (Ol.getExtent g), maxY (Ol.getExtent g));
        (minX (Ol.getExtent g), minY (Ol.getExtent g));
        (maxX (Ol.getExtent g), minY (Ol.getExtent g));
        (maxX (Ol.getExtent g), maxY (Ol.getExtent g))]).
Proof.
  destruct (normalExtent_wf a g) as [Hx Hy].
  set (e := normalExtent a g) in *. set (r := Ol.rotateCoord a (boxCenter g)).
  exists (r (minX e, maxY e)), (r (minX e, minY e)), (r (maxX e, minY e)), (r (maxX e, maxY e)).
  assert (Hd : forall p q d, 0 <= d ->
                 (fst p - fst q) ^ 2 + (snd p - snd q) ^ 2 = d * d ->
                 calcDistance (r p) (r q) = d).
  { intros p q d Hd E. unfold r. rewrite calcDistance_rotateCoord, calcDistance_eq.
    apply sqrt_of_square; assumption. }
  split; [rewrite orientedBox_eq; reflexivity|].
  split; [apply Hd; [lra | cbn [fst snd]; ring]|].
  split; [apply Hd; [lra | cbn [fst snd]; ring]|].
  split; [apply Hd; [lra | cbn [fst snd]; ring]|].
  split; [apply Hd; [lra | cbn [fst snd]; ring]|].
  split.
  { unfold r. rewrite !calcDistance_rotateCoord, !calcDistance_eq. cbn [fst snd].
    f_equal. ring. }
  split.
  { rewrite <- !(rotateCoord_midpoint a (boxCenter g)). f_equal.
    rewrite !centerOf_mid. cbn [fst snd]. f_equal; field. }
  split.
  { change (w (scalingOf a g k))
      with (calcDistance (r (minX e, minY e)) (r (maxX e, minY e))).
    apply Hd; [lra | cbn [fst snd]; ring]. }
  split.
  { change (h (scalingOf a g k))
      with (calcDistance (r (minX e, maxY e)) (r (minX e, minY e))).
    apply Hd; [lra | cbn [fst snd]; ring]. }
  intros ->. unfold r, e. rewrite normalExtent_zero, !rotateCoord_zero by reflexivity.
  reflexivity.
Qed.

(** X6. The oriented box bounds its shape: every coordinate of the shape is
    [tl + u * (tr - tl) + v * (bl - tl)] for some [u] and [v] between 0
    and 1. *)
Theorem orientedBox_bounds_the_shape (a : R) (g : Geometry) (p : Coordinate) :
  In p (Ol.getCoordinates g) ->
  exists tl bl br tr u v,
    orientedBox a g = Some [tl; bl; br; tr; tl] /\
    0 <= u <= 1 /\ 0 <= v <= 1 /\
    p = vadd tl (vadd (u * fst (vsub tr tl), u * snd (vsub tr tl))
                      (v * fst (vsub bl tl), v * snd (vsub bl tl))).
Proof.
  intros Hp.
  set (c := boxCenter g). set (e := normalExtent a g). set (r := Ol.rotateCoord a c).
  set (q := Ol.rotateCoord (- a) c p).
  assert (Hq : minX e <= fst q <= maxX e /\ minY e <= snd q <= maxY e).
  { apply getExtent_bounds. unfold Ol.rotate. rewrite getCoordinates_applyTransform.
    apply in_map, Hp. }
  assert (Hu : exists u, 0 <= u <= 1 /\ fst q = minX e + u * (maxX e - minX e)).
  { destruct (Req_dec (maxX e) (minX e)) as [E | N].
    - exists 0. split; lra.
    - exists ((fst q - minX e) / (maxX e - minX e)).
      assert (0 < maxX e - minX e) by lra.
      split; [split|].
      + apply Rmult_le_pos; [lra | left; apply Rinv_0_lt_compat; assumption].
      + apply Rmult_le_reg_r with (maxX e - minX e); [assumption|].
        unfold Rdiv. rewrite Rmult_assoc, Rinv_l by lra. lra.
      + field. lra. }
  assert (Hv : exists v, 0 <= v <= 1 /\ snd q = maxY e - v * (maxY e - minY e)).
  { destruct (Req_dec (maxY e) (minY e)) as [E | N].
    - exists 0. split; lra.
    - exists ((maxY e - snd q) / (maxY e - minY e)).
      assert (0 < maxY e - minY e) by lra.
      split; [split|].
      + apply Rmult_le_pos; [lra | left; apply Rinv_0_lt_compat; assumption].
      + apply Rmult_le_reg_r with (maxY e - minY e); [assumption|].
        unfold Rdiv. rewrite Rmult_assoc, Rinv_l by lra. lra.
      + field. lra. }
  destruct Hu as [u [Hu Eu]]. destruct Hv as [v [Hv Ev]].
  exists (r (minX e, maxY e)), (r (minX e, minY e)), (r (maxX e, minY e)), (r (maxX e, maxY e)),
    u, v.
  split; [rewrite orientedBox_eq; reflexivity|].
  split; [exact Hu|]. split; [exact Hv|].
  rewrite <- (rotateCoord_back a c p). fold q. fold r.
  destruct q as [qx qy]. cbn [fst snd] in Eu, Ev. subst qx qy.
  unfold r, Ol.rotateCoord, vadd, vsub. cbn [fst snd]. f_equal; ring.
Qed.

(** Any coordinate of the ring [(0,0), (10,0), (10,10), (0,10)] lies in its
    box. *)
Lemma orientedBox_bounds_the_shape_witness :
  exists tl bl br tr u v,
    orientedBox (PI / 4) square = Some [tl; bl; br; tr; tl] /\
    0 <= u <= 1 /\ 0 <= v <= 1 /\
    (10, 0) = vadd tl (vadd (u * fst (vsub tr tl), u * snd (vsub tr tl))
                            (v * fst (vsub bl tl), v * snd (vsub bl tl))).
Proof.
  apply (orientedBox_bounds_the_shape (PI / 4) square (10, 0)).
  vm_compute. right; left; reflexivity.
Defined.

(** ** Handles of the oriented box *)

Lemma boxHandle_equivariant (a ax ay sx sy : R) (T : Coordinate -> Coordinate)
    (g : Geometry) (k : Z) :
  0 <= sx -> 0 <= sy -> midpointPreserving T ->
  (forall p, Ol.rotateCoord (- a) (boxCenter (Ol.applyTransform T g)) (T p)
             = axisMap ax ay sx sy (Ol.rotateCoord (- a) (boxCenter g) p)) ->
  onRing k ->
  boxHandle a (Ol.applyTransform T g) k = T (boxHandle a g k).
Proof.
  intros Hsx Hsy HT Hn Hk.
  set (c0 := boxCenter g) in *. set (c1 := boxCenter (Ol.applyTransform T g)) in *.
  assert (Hext : normalExtent a (Ol.applyTransform T g)
                 = axisMapExtent ax ay sx sy (normalExtent a g)).
  { unfold normalExtent. fold c0 c1. unfold Ol.rotate. rewrite applyTransform_compose.
    rewrite (applyTransform_ext _
               (fun p => axisMap ax ay sx sy (Ol.rotateCoord (- a) c0 p)) g) by exact Hn.
    rewrite <- (applyTransform_compose (axisMap ax ay sx sy) (Ol.rotateCoord (- a) c0)).
    apply getExtent_axisMap; assumption. }
  assert (Hr : forall q, Ol.rotateCoord a c1 (axisMap ax ay sx sy q)
                         = T (Ol.rotateCoord a c0 q)).
  { intros q. rewrite <- (rotateCoord_forth a c0 q) at 1. rewrite <- Hn.
    apply rotateCoord_back. }
  unfold boxHandle. fold c0 c1. rewrite Hext.
  cbn [minX minY maxX maxY axisMapExtent].
  set (e := normalExtent a g).
  change (handleOn
            (Ol.rotateCoord a c1 (axisMap ax ay sx sy (minX e, maxY e)))
            (Ol.rotateCoord a c1 (axisMap ax ay sx sy (minX e, minY e)))
            (Ol.rotateCoord a c1 (axisMap ax ay sx sy (maxX e, minY e)))
            (Ol.rotateCoord a c1 (axisMap ax ay sx sy (maxX e, maxY e))) k
          = T (handleOn (Ol.rotateCoord a c0 (minX e, maxY e))
                        (Ol.rotateCoord a c0 (minX e, minY e))
                        (Ol.rotateCoord a c0 (maxX e, minY e))
                        (Ol.rotateCoord a c0 (maxX e, maxY e)) k)).
  rewrite !Hr. apply handleOn_map; assumption.
Qed.

Lemma translateCoord_midpoint (dx dy : R) : midpointPreserving (Ol.translateCoord dx dy).
Proof.
  intros p q. rewrite !centerOf_mid. unfold Ol.translateCoord; cbn [fst snd]. f_equal; field.
Qed.

Lemma scaleCoord_midpoint (sx sy : R) (c : Coordinate) :
  midpointPreserving (Ol.scaleCoord sx sy c).
Proof.
  intros p q. rewrite !centerOf_mid. unfold Ol.scaleCoord; cbn [fst snd]. f_equal; field.
Qed.

Lemma translateCoord_axisMap (dx dy : R) (p : Coordinate) :
  Ol.translateCoord dx dy p = axisMap dx dy 1 1 p.
Proof. unfold Ol.translateCoord, axisMap. f_equal; ring. Qed.

Lemma boxCenter_translate (dx dy : R) (g : Geometry) :
  boxCenter (Ol.translate dx dy g) = Ol.translateCoord dx dy (boxCenter g).
Proof.
  unfold boxCenter, Ol.translate.
  rewrite (applyTransform_ext _ (axisMap dx dy 1 1) g) by apply translateCoord_axisMap.
  rewrite getExtent_axisMap by lra.
  unfold Ol.getCenter, Ol.translateCoord. cbn [axisMapExtent minX minY maxX maxY fst snd].
  f_equal; field.
Qed.

Lemma boxHandle_translate (a dx dy : R) (g : Geometry) (k : Z) :
  onRing k ->
  boxHandle a (Ol.translate dx dy g) k = Ol.translateCoord dx dy (boxHandle a g k).
Proof.
  intros Hk. unfold Ol.translate.
  apply (boxHandle_equivariant a dx dy 1 1); try lra; try assumption.
  - apply translateCoord_midpoint.
  - intros p. change (Ol.applyTransform (Ol.translateCoord dx dy) g) with (Ol.translate dx dy g).
    rewrite boxCenter_translate.
    destruct p as [x y]. destruct (boxCenter g) as [cx cy].
    unfold Ol.rotateCoord, Ol.translateCoord, axisMap. cbn [fst snd]. f_equal; ring.
Qed.

Lemma scaledAbout_applyTransform (a sx sy : R) (anchor : Coordinate) (g : Geometry) :
  scaledAbout a sx sy anchor g
  = Ol.applyTransform
      (fun p => Ol.rotateCoord a anchor
                  (Ol.scaleCoord sx sy anchor (Ol.rotateCoord (- a) anchor p))) g.
Proof.
  unfold scaledAbout, Ol.rotate, Ol.scale. rewrite !applyTransform_compose. reflexivity.
Qed.

Lemma boxHandle_scaledAbout (a sx sy : R) (anchor : Coordinate) (g : Geometry) (k : Z) :
  0 <= sx -> 0 <= sy -> onRing k ->
  boxHandle a (scaledAbout a sx sy anchor g) k
  = Ol.rotateCoord a anchor
      (Ol.scaleCoord sx sy anchor (Ol.rotateCoord (- a) anchor (boxHandle a g k))).
Proof.
  intros Hsx Hsy Hk. rewrite scaledAbout_applyTransform.
  set (T := fun p => Ol.rotateCoord a anchor
                       (Ol.scaleCoord sx sy anchor (Ol.rotateCoord (- a) anchor p))).
  change (boxHandle a (Ol.applyTransform T g) k = T (boxHandle a g k)).
  eapply (boxHandle_equivariant a _ _ sx sy T g k Hsx Hsy); [| |exact Hk].
  - unfold T. intros p q.
    rewrite (rotateCoord_midpoint (- a) anchor), (scaleCoord_midpoint sx sy anchor),
      (rotateCoord_midpoint a anchor). reflexivity.
  - intros p. unfold T. apply scaledAbout_normal.
Qed.

(** X7. The handle opposite to handle [k] of the ring is handle
    [(k + 4) % 8]: taking the opposite twice gives [k] back, and the two
    handles lie symmetrically about the middle of the box, the point where
    its diagonals cross.  An index off the ring names the coordinate
    [(0, 0)], whatever the shape. *)
Theorem opposite_handles_mirror (f : Feature) (k : Z) :
  (onRing k ->
   onRing (Z.rem (k + halfRing) scaleHandlesLength) /\
   Z.rem (k + halfRing) scaleHandlesLength <> k /\
   Z.rem (Z.rem (k + halfRing) scaleHandlesLength + halfRing) scaleHandlesLength = k /\
   exists p q tl br,
     anchorOf f k = Some p /\
     anchorOf f (Z.rem (k + halfRing) scaleHandlesLength) = Some q /\
     anchorOf f 0 = Some tl /\ anchorOf f 4 = Some br /\
     centerOf p q = centerOf tl br) /\
  (~ onRing k -> anchorOf f k = Some (0, 0)).
Proof.
  split.
  - intros Hk.
    assert (Hc : In k ringIndices).
    { unfold onRing in Hk. unfold ringIndices. cbn [In]. lia. }
    rewrite !anchorOf_eq.
    set (a := angleOrZero f). set (g := geometry f).
    unfold boxHandle.
    set (TL := Ol.rotateCoord a (boxCenter g) (minX (normalExtent a g), maxY (normalExtent a g))).
    set (BL := Ol.rotateCoord a (boxCenter g) (minX (normalExtent a g), minY (normalExtent a g))).
    set (BR := Ol.rotateCoord a (boxCenter g) (maxX (normalExtent a g), minY (normalExtent a g))).
    set (TR := Ol.rotateCoord a (boxCenter g) (maxX (normalExtent a g), maxY (normalExtent a g))).
    assert (Hx : fst TL + fst BR = fst BL + fst TR)
      by (unfold TL, BL, BR, TR, Ol.rotateCoord; cbn [fst snd]; ring).
    assert (Hy : snd TL + snd BR = snd BL + snd TR)
      by (unfold TL, BL, BR, TR, Ol.rotateCoord; cbn [fst snd]; ring).
    unfold ringIndices in Hc. cbn [In] in Hc.
    destruct Hc as [<- | [<- | [<- | [<- | [<- | [<- | [<- | [<- | []]]]]]]]];
      repeat match goal with
             | |- context [Z.rem ?x scaleHandlesLength] =>
                 let v := eval vm_compute in (Z.rem x scaleHandlesLength) in
                 change (Z.rem x scaleHandlesLength) with v
             end;
      (split; [unfold onRing; lia|]);
      (split; [discriminate|]);
      (split; [reflexivity|]);
      eexists _, _, _, _;
      (split; [reflexivity|]); (split; [reflexivity|]);
      (split; [reflexivity|]); (split; [reflexivity|]);
      cbn [handleOn];
      rewrite !centerOf_mid; cbn [fst snd]; f_equal; lra.
  - intros Hk. rewrite anchorOf_eq. unfold boxHandle. rewrite handleOn_off_ring by exact Hk.
    reflexivity.
Qed.

(** A square turned by a quarter: its handle 1 and the opposite handle. *)
Lemma opposite_handles_mirror_witness :
  onRing 1 /\
  exists p q tl br,
    anchorOf (mkFeature square (Some (PI / 2))) 1 = Some p /\
    anchorOf (mkFeature square (Some (PI / 2))) (Z.rem (1 + halfRing) scaleHandlesLength)
    = Some q /\
    anchorOf (mkFeature square (Some (PI / 2))) 0 = Some tl /\
    anchorOf (mkFeature square (Some (PI / 2))) 4 = Some br /\
    centerOf p q = centerOf tl br.
Proof.
  assert (H : onRing 1) by (unfold onRing; lia).
  split; [exact H|].
  exact (proj2 (proj2 (proj2 (proj1 (opposite_handles_mirror
                                        (mkFeature square (Some (PI / 2))) 1) H)))).
Defined.

(** X8. The oriented box moves with its shape: after the shape is
    translated by [(dx, dy)], each of the eight handles of its box is the old
    handle translated by [(dx, dy)], whatever the angle of the shape. *)
Theorem box_handles_follow_translation (dx dy : R) (f : Feature) (k : Z) :
  onRing k ->
  exists p,
    anchorOf f k = Some p /\
    anchorOf (translateFeature dx dy f) k = Some (Ol.translateCoord dx dy p).
Proof.
  intros Hk. exists (boxHandle (angleOrZero f) (geometry f) k).
  rewrite !anchorOf_eq. split; [reflexivity|].
  unfold translateFeature. cbn [geometry].
  change (angleOrZero (mkFeature (Ol.translate dx dy (geometry f)) (angle f)))
    with (angleOrZero f).
  rewrite boxHandle_translate by exact Hk. reflexivity.
Qed.

Lemma box_handles_follow_translation_witness :
  exists p,
    anchorOf (mkFeature square (Some (PI / 3))) 6 = Some p /\
    anchorOf (translateFeature 2 (-3) (mkFeature square (Some (PI / 3)))) 6
    = Some (Ol.translateCoord 2 (-3) p).
Proof.
  apply (box_handles_follow_translation 2 (-3) (mkFeature square (Some (PI / 3))) 6).
  unfold onRing; lia.
Defined.

(** ** The scale gesture: the grabbed handle *)

Lemma boxHandle_cornerOf (a : R) (g : Geometry) (k : Z) :
  onRing k ->
  boxHandle a g k = Ol.rotateCoord a (boxCenter g) (cornerOf (normalExtent a g) k).
Proof.
  intros Hk. unfold boxHandle, cornerOf.
  apply handleOn_map; [apply rotateCoord_midpoint | exact Hk].
Qed.

Lemma unrotate_about_image (a : R) (c p o : Coordinate) :
  Ol.rotateCoord (- a) (Ol.rotateCoord a c o) (Ol.rotateCoord a c p)
  = vadd (Ol.rotateCoord a c o) (vsub p o).
Proof.
  rewrite (rotateCoord_recenter (- a) (Ol.rotateCoord a c o) c), !rotateCoord_forth.
  destruct p, o. unfold vadd, vsub; cbn [fst snd]. f_equal; ring.
Qed.

Lemma scaleFactors_eq (sc : ScalingSelection) (P : Coordinate) :
  scaleFactors sc P
  = (fst (scaleDeltas (handleIdx sc) (fst (startCoord sc)) (snd (startCoord sc))
            (fst (rotatePoint P (oppositeCoord sc) (- scAngle sc)))
            (snd (rotatePoint P (oppositeCoord sc) (- scAngle sc)))) / w sc + 1,
     snd (scaleDeltas (handleIdx sc) (fst (startCoord sc)) (snd (startCoord sc))
            (fst (rotatePoint P (oppositeCoord sc) (- scAngle sc)))
            (snd (rotatePoint P (oppositeCoord sc) (- scAngle sc)))) / h sc + 1).
Proof.
  unfold scaleFactors.
  destruct (startCoord sc) as [sx sy].
  destruct (rotatePoint P (oppositeCoord sc) (- scAngle sc)) as [x y]. cbn [fst snd].
  destruct (scaleDeltas (handleIdx sc) sx sy x y) as [dx dy]. reflexivity.
Qed.

Lemma scalingOf_size (a : R) (g : Geometry) (k : Z) :
  w (scalingOf a g k) = maxX (normalExtent a g) - minX (normalExtent a g) /\
  h (scalingOf a g k) = maxY (normalExtent a g) - minY (normalExtent a g).
Proof.
  destruct (normalExtent_wf a g) as [Hx Hy].
  set (e := normalExtent a g) in *. set (r := Ol.rotateCoord a (boxCenter g)).
  split.
  - change (w (scalingOf a g k))
      with (calcDistance (r (minX e, minY e)) (r (maxX e, minY e))).
    unfold r. rewrite calcDistance_rotateCoord, calcDistance_eq.
    apply sqrt_of_square; [lra | cbn [fst snd]; ring].
  - change (h (scalingOf a g k))
      with (calcDistance (r (minX e, maxY e)) (r (minX e, minY e))).
    unfold r. rewrite calcDistance_rotateCoord, calcDistance_eq.
    apply sqrt_of_square; [lra | cbn [fst snd]; ring].
Qed.

Lemma scalingOf_startCoord (a : R) (g : Geometry) (k : Z) :
  onRing k ->
  startCoord (scalingOf a g k)
  = vadd (oppositeCoord (scalingOf a g k))
         (vsub (cornerOf (normalExtent a g) k)
               (cornerOf (normalExtent a g) (Z.rem (k + halfRing) scaleHandlesLength))).
Proof.
  intros Hk.
  assert (Ho : onRing (Z.rem (k + halfRing) scaleHandlesLength)).
  { unfold onRing in *. change halfRing with 4%Z. change scaleHandlesLength with 8%Z.
    pose proof (Z.rem_bound_pos (k + 4) 8). lia. }
  change (startCoord (scalingOf a g k))
    with (rotatePoint (boxHandle a g k)
            (boxHandle a g (Z.rem (k + halfRing) scaleHandlesLength)) (- a)).
  change (oppositeCoord (scalingOf a g k))
    with (boxHandle a g (Z.rem (k + halfRing) scaleHandlesLength)).
  rewrite rotatePoint_rotateCoord.
  rewrite (boxHandle_cornerOf a g k Hk), (boxHandle_cornerOf a g _ Ho).
  apply unrotate_about_image.
Qed.

(** In the axes of the un-rotated shape, the factors of a frame carry the
    grabbed corner to the pointer. *)
Lemma corner_to_pointer (a : R) (g : Geometry) (k : Z) (P : Coordinate) :
  In k cornerIndices ->
  w (scalingOf a g k) <> 0 -> h (scalingOf a g k) <> 0 ->
  Ol.rotateCoord a (oppositeCoord (scalingOf a g k))
    (Ol.scaleCoord (fst (scaleFactors (scalingOf a g k) P))
                   (snd (scaleFactors (scalingOf a g k) P))
                   (oppositeCoord (scalingOf a g k))
                   (Ol.rotateCoord (- a) (oppositeCoord (scalingOf a g k)) (boxHandle a g k)))
  = P.
Proof.
  intros Hk Hw Hh.
  assert (Hring : onRing k).
  { unfold cornerIndices in Hk. cbn [In] in Hk. unfold onRing. lia. }
  destruct (scalingOf_size a g k) as [Ew Eh].
  pose proof (scalingOf_startCoord a g k Hring) as ES.
  rewrite scaleFactors_eq.
  change (scAngle (scalingOf a g k)) with a.
  change (handleIdx (scalingOf a g k)) with k.
  replace (Ol.rotateCoord (- a) (oppositeCoord (scalingOf a g k)) (boxHandle a g k))
    with (startCoord (scalingOf a g k))
    by (rewrite <- rotatePoint_rotateCoord; reflexivity).
  rewrite rotatePoint_rotateCoord.
  transitivity (Ol.rotateCoord a (oppositeCoord (scalingOf a g k))
                  (Ol.rotateCoord (- a) (oppositeCoord (scalingOf a g k)) P));
    [|apply rotateCoord_back].
  f_equal.
  rewrite ES. rewrite Ew in *. rewrite Eh in *.
  set (e := normalExtent a g) in *.
  destruct (Ol.rotateCoord (- a) (oppositeCoord (scalingOf a g k)) P) as [x y].
  destruct (oppositeCoord (scalingOf a g k)) as [ox oy].
  unfold cornerIndices in Hk. cbn [In] in Hk.
  destruct Hk as [<- | [<- | [<- | [<- | []]]]];
    repeat match goal with
           | |- context [Z.rem ?x scaleHandlesLength] =>
               let v := eval vm_compute in (Z.rem x scaleHandlesLength) in
               change (Z.rem x scaleHandlesLength) with v
           end;
    unfold cornerOf; cbn [handleOn scaleDeltas vadd vsub fst snd];
    unfold Ol.scaleCoord, vadd, vsub; cbn [fst snd]; f_equal; field; assumption.
Qed.

(** X9. In a scale gesture the grabbed corner follows the pointer.  When a
    corner handle (index 0, 2, 4 or 6) of a selected shape is pressed, the
    box has non-zero width and height, and a frame's factors are not
    negative, then after that frame (and any frames before it) the same
    handle of the box rebuilt from the scaled shape lies exactly at the
    frame's pointer position, whatever the angle of the shape and wherever
    in the handle the press happened. *)
Theorem grabbed_corner_follows_pointer
    (t0 : Transform) (down evt : MapBrowserEvent) (frames : list MapBrowserEvent)
    (hf : HandleFeature) :
  firstAccepted (atPixel down) = Some (Handle hf) ->
  mode hf = scale ->
  In (index hf) cornerIndices ->
  NoDup (_selections t0) ->
  In (body hf) (_selections t0) ->
  w (scalingOf (angleOrZero (store t0 (body hf))) (geometry (store t0 (body hf))) (index hf))
  <> 0 ->
  h (scalingOf (angleOrZero (store t0 (body hf))) (geometry (store t0 (body hf))) (index hf))
  <> 0 ->
  0 <= fst (scaleFactors
              (scalingOf (angleOrZero (store t0 (body hf))) (geometry (store t0 (body hf)))
                 (index hf))
              (evtCoordinate evt)) ->
  0 <= snd (scaleFactors
              (scalingOf (angleOrZero (store t0 (body hf))) (geometry (store t0 (body hf)))
                 (index hf))
              (evtCoordinate evt)) ->
  exists t1 t2,
    handleDownEvent down t0 = Some (t1, true) /\
    dragFrames (frames ++ [evt]) t1 = Some t2 /\
    anchorOf (store t2 (body hf)) (index hf) = Some (evtCoordinate evt).
Proof.
  intros Hpick Hmode Hk Hnd Hin Hw Hh Hfx Hfy.
  set (f := store t0 (body hf)) in *.
  set (sc := scalingOf (angleOrZero f) (geometry f) (index hf)) in *.
  pose proof (handleDownEvent_scale down t0 hf Hpick Hmode) as Hdown.
  fold f sc in Hdown.
  set (t1 := withScaling sc (pressed down t0 scale)) in *.
  destruct (scale_frame_result t1 frames evt) as (t2 & Hrun & _ & _ & _ & Hst);
    [reflexivity | exact Hnd | reflexivity |].
  exists t1, t2. split; [exact Hdown|]. split; [exact Hrun|].
  rewrite (Hst (body hf) Hin). rewrite anchorOf_eq.
  change (_scalingSelection t1) with sc. change (store t1 (body hf)) with f.
  change (angleOrZero
            (mkFeature
               (scaledGeometry (fst (scaleFactors sc (evtCoordinate evt)))
                  (snd (scaleFactors sc (evtCoordinate evt))) (oppositeIdx sc) f)
               (angle f)))
    with (angleOrZero f).
  cbn [geometry].
  change (scaledGeometry (fst (scaleFactors sc (evtCoordinate evt)))
            (snd (scaleFactors sc (evtCoordinate evt))) (oppositeIdx sc) f)
    with (scaledAbout (angleOrZero f) (fst (scaleFactors sc (evtCoordinate evt)))
            (snd (scaleFactors sc (evtCoordinate evt))) (oppositeCoord sc) (geometry f)).
  assert (Hring : onRing (index hf)).
  { unfold cornerIndices in Hk. cbn [In] in Hk. unfold onRing. lia. }
  rewrite boxHandle_scaledAbout by assumption.
  f_equal. apply corner_to_pointer; assumption.
Qed.

(** ** The selection policy of a press *)

Lemma indexOfFrom_removeFirst (feat : FeatId) (l : list FeatId) (k : Z) :
  In feat l ->
  exists i,
    indexOfFrom feat l k = (k + Z.of_nat i)%Z /\ (i < length l)%nat /\
    removeNth i l = removeFirst feat l.
Proof.
  revert k. induction l as [|x rest IH]; intros k Hin; [destruct Hin|].
  cbn [indexOfFrom removeFirst].
  destruct (Nat.eqb_spec x feat) as [E | N].
  - exists 0%nat. split; [lia|]. split; [simpl; lia | reflexivity].
  - destruct Hin as [E | Hin]; [contradiction|].
    destruct (IH (k + 1)%Z Hin) as (i & Hi & Hlt & Hrm).
    exists (S i). split; [rewrite Hi; lia|]. split; [simpl; lia|].
    unfold removeNth in *. cbn [firstn skipn app]. rewrite <- Hrm. reflexivity.
Qed.

Lemma indexOfFrom_not_in (feat : FeatId) (l : list FeatId) (k : Z) :
  ~ In feat l -> indexOfFrom feat l k = (-1)%Z.
Proof.
  revert k. induction l as [|x rest IH]; intros k Hn; [reflexivity|].
  cbn [indexOfFrom]. destruct (Nat.eqb_spec x feat) as [E | N].
  - exfalso. apply Hn. left; exact E.
  - apply IH. intros H. apply Hn. right; exact H.
Qed.

Lemma selectFeature_body (evt : MapBrowserEvent) (t : Transform) (feat : FeatId) :
  firstAccepted (atPixel evt) = Some (Body feat) ->
  exists tsel,
    selectFeature evt t = Some (tsel, Some (Body feat)) /\
    keeps t tsel /\
    _selections tsel
    = selectionAfter (_selections t) (Some (Body feat)) (addCondition evt).
Proof.
  intros Hpick. unfold selectFeature. rewrite (forEach_body _ _ _ _ Hpick). cbv zeta.
  unfold selectionAfter, indexOf.
  destruct (in_dec Nat.eq_dec feat (_selections t)) as [Hin | Hout].
  - destruct (indexOfFrom_removeFirst feat (_selections t) 0 Hin) as (i & Hi & Hlt & Hrm).
    rewrite Hi. replace (0 + Z.of_nat i =? -1)%Z with false by (symmetry; apply Z.eqb_neq; lia).
    destruct (addCondition evt).
    + replace (0 + Z.of_nat i)%Z with (Z.of_nat i) by lia.
      rewrite (selRemoveAt_in_range i t Hlt). cbn [bind]. eexists.
      split; [reflexivity|]. split; [apply keeps_closed|]. exact Hrm.
    + cbn [bind]. exists t. split; [reflexivity|]. split; [|reflexivity].
      unfold keeps. destruct t; reflexivity.
  - rewrite (indexOfFrom_not_in feat (_selections t) 0 Hout). cbn [Z.eqb Pos.eqb].
    destruct (addCondition evt).
    + rewrite selPush_eq. cbn [bind]. eexists.
      split; [reflexivity|]. split; [apply keeps_closed | reflexivity].
    + rewrite selClear_eq. cbn [bind]. rewrite selPush_eq. cbn [bind]. eexists.
      split; [reflexivity|].
      destruct t as [st sels prevs layer m tr sc pc rs ss hi hd log].
      destruct sels; split; reflexivity.
Qed.

Lemma handleDownEvent_handle (evt : MapBrowserEvent) (t : Transform) (hf : HandleFeature) :
  firstAccepted (atPixel evt) = Some (Handle hf) ->
  exists t1,
    handleDownEvent evt t = Some (t1, true) /\
    sameButDragState (pressed evt t (mode hf)) t1.
Proof.
  intros Hpick. destruct (mode hf) eqn:Hm.
  - unfold handleDownEvent, selectFeature.
    rewrite (forEach_handle _ _ _ _ Hpick). cbn [bind]. unfold initHandleGesture.
    match goal with
    | |- context [_mode (setMode ?x (mode hf))] =>
        replace (_mode (setMode x (mode hf))) with idle by (rewrite Hm; reflexivity)
    end.
    cbn [bind]. rewrite Hm. destruct t. eexists. split; [reflexivity|].
    unfold sameButDragState. do 8 (split; [reflexivity|]). reflexivity.
  - unfold handleDownEvent, selectFeature.
    rewrite (forEach_handle _ _ _ _ Hpick). cbn [bind]. unfold initHandleGesture.
    match goal with
    | |- context [_mode (setMode ?x (mode hf))] =>
        replace (_mode (setMode x (mode hf))) with translate by (rewrite Hm; reflexivity)
    end.
    cbn [bind]. rewrite Hm. destruct t. eexists. split; [reflexivity|].
    unfold sameButDragState. do 8 (split; [reflexivity|]). reflexivity.
  - rewrite (handleDownEvent_scale _ _ _ Hpick Hm). eexists. split; [reflexivity|].
    unfold sameButDragState. do 8 (split; [reflexivity|]). reflexivity.
  - rewrite (handleDownEvent_rotate _ _ _ Hpick Hm). eexists. split; [reflexivity|].
    unfold sameButDragState. do 8 (split; [reflexivity|]). reflexivity.
Qed.

Lemma handleDownEvent_policy (evt : MapBrowserEvent) (t : Transform) :
  exists t1,
    handleDownEvent evt t = Some (t1, isHit (firstAccepted (atPixel evt))) /\
    _selections t1
    = selectionAfter (_selections t) (firstAccepted (atPixel evt)) (addCondition evt) /\
    _prevSelections t1 = snapshotOf t1 /\
    store t1 = store t /\
    _mode t1 = modeAfter (_mode t) (firstAccepted (atPixel evt)) /\
    _isTransformed t1 = _isTransformed t.
Proof.
  destruct (firstAccepted (atPixel evt)) as [[feat | hf]|] eqn:Hpick.
  - destruct (selectFeature_body evt t feat Hpick) as (tsel & Hsel & Hk & Hs).
    rewrite (handleDownEvent_body _ _ _ _ Hsel). eexists. split; [reflexivity|].
    split; [exact Hs|]. split; [reflexivity|].
    rewrite Hk. repeat split; reflexivity.
  - destruct (handleDownEvent_handle evt t hf Hpick) as (t1 & Hdown & Hsame).
    destruct Hsame as (Hst & Hsels & Hprev & _ & Hmode & Htr & _).
    exists t1. split; [exact Hdown|].
    split; [exact Hsels|].
    split; [rewrite Hprev; unfold snapshotOf; rewrite Hst, Hsels; reflexivity|].
    split; [exact Hst|]. split; [exact Hmode | exact Htr].
  - unfold handleDownEvent, selectFeature.
    rewrite (forEach_none _ _ _ Hpick). cbn [bind].
    rewrite selClear_eq. cbn [bind].
    destruct t as [st sels prevs layer m tr sc pc rs ss hi hd log].
    destruct sels; eexists; (split; [reflexivity|]); repeat split; reflexivity.
Qed.

Lemma removeFirst_NoDup (feat : FeatId) (l : list FeatId) :
  NoDup l -> NoDup (removeFirst feat l) /\ ~ In feat (removeFirst feat l) /\
             (forall x, In x (removeFirst feat l) -> In x l).
Proof.
  induction 1 as [|x l Hx Hnd IH]; cbn [removeFirst].
  - split; [constructor|]. split; [intros []|]. intros x [].
  - destruct (Nat.eqb_spec x feat) as [E | N].
    + subst x. split; [exact Hnd|]. split; [exact Hx|]. intros y Hy; right; exact Hy.
    + destruct IH as (IH1 & IH2 & IH3). split.
      * constructor; [|exact IH1]. intros H. apply Hx, IH3, H.
      * split.
        -- intros [E | H]; [apply N, E | apply IH2, H].
        -- intros y [E | H]; [left; exact E | right; apply IH3, H].
Qed.


Lemma selectionAfter_NoDup (sels : list FeatId) (hit : option Pick) (additive : bool) :
  NoDup sels -> NoDup (selectionAfter sels hit additive).
Proof.
  intros Hnd. destruct hit as [[feat | hf]|]; cbn [selectionAfter].
  - destruct (in_dec Nat.eq_dec feat sels) as [Hin | Hout]; destruct additive.
    + apply removeFirst_NoDup, Hnd.
    + exact Hnd.
    + apply NoDup_snoc; assumption.
    + apply NoDup_single.
  - exact Hnd.
  - constructor.
Qed.

(** X10. What a press does, for every hit and every state.  It never
    throws.  It is handled exactly when the pointer is over an accepted
    feature.  The selection it leaves is: empty when nothing is hit;
    unchanged when a handle is hit; for a shape, under the add condition the
    shape is appended when absent and taken out when present, and without it
    the shape replaces the selection unless it is selected already.  The
    snapshot is then the clones of the selection in its order, the mode is
    translate for a shape and the handle's own mode for a handle, and no
    shape of the application is modified. *)
Theorem press_selection_policy (evt : MapBrowserEvent) (t : Transform) :
  exists t1,
    handleDownEvent evt t = Some (t1, isHit (firstAccepted (atPixel evt))) /\
    _selections t1
    = selectionAfter (_selections t) (firstAccepted (atPixel evt)) (addCondition evt) /\
    _prevSelections t1 = map (fun feat => clone (store t1 feat)) (_selections t1) /\
    store t1 = store t /\
    _mode t1 = modeAfter (_mode t) (firstAccepted (atPixel evt)).
Proof.
  destruct (handleDownEvent_policy evt t) as (t1 & H1 & H2 & H3 & H4 & H5 & _).
  exists t1. split; [exact H1|]. split; [exact H2|]. split; [exact H3|].
  split; [exact H4 | exact H5].
Qed.

(** The top-right handle of the square, pressed off its middle at (9,9) and
    dragged to (20,15): the rebuilt box has its handle 6 at (20,15). *)
Lemma grabbed_corner_follows_pointer_witness :
  exists t1 t2,
    handleDownEvent (pressOn (Handle (mkHandle (Point (10, 10)) 0%nat scale 6)) (9, 9) false)
      (selectedSquare None) = Some (t1, true) /\
    dragFrames [dragTo (20, 15)] t1 = Some t2 /\
    anchorOf (store t2 0%nat) 6 = Some (20, 15).
Proof.
  assert (Hf : scaleFactors (scalingOf 0 square 6) (20, 15) = (2, 15 / 10))
    by (rewrite square_factors6; f_equal; field).
  apply (grabbed_corner_follows_pointer (selectedSquare None)
           (pressOn (Handle (mkHandle (Point (10, 10)) 0%nat scale 6)) (9, 9) false)
           (dragTo (20, 15)) [] (mkHandle (Point (10, 10)) 0%nat scale 6)).
  - reflexivity.
  - reflexivity.
  - right; right; right; left; reflexivity.
  - apply NoDup_single.
  - left; reflexivity.
  - change (w (scalingOf 0 square 6) <> 0). rewrite square_scaling6. cbn [w]. lra.
  - change (h (scalingOf 0 square 6) <> 0). rewrite square_scaling6. cbn [h]. lra.
  - change (0 <= fst (scaleFactors (scalingOf 0 square 6) (20, 15))).
    rewrite Hf. cbn [fst]. lra.
  - change (0 <= snd (scaleFactors (scalingOf 0 square 6) (20, 15))).
    rewrite Hf. cbn [snd]. lra.
Defined.

(** ** Toggling under the add condition *)



(** ** Streams of pointer events *)

Lemma handleDragEvent_steady (evt : MapBrowserEvent) (t : Transform) :
  (length (_prevSelections t) <= length (_selections t))%nat ->
  exists t',
    handleDragEvent evt t = Some t' /\
    _selections t' = _selections t /\
    length (_prevSelections t') = length (_prevSelections t) /\
    _mode t' = _mode t /\
    handlingDownUpSequence t' = handlingDownUpSequence t.
Proof.
  intros Hlen. destruct (_mode t) eqn:Hm.
  - rewrite (handleDragEvent_idle _ _ Hm). eexists. split; [reflexivity|].
    cbn [framed _selections _prevSelections _mode handlingDownUpSequence].
    repeat split; try reflexivity. exact Hm.
  - rewrite (handleDragEvent_translate _ _ Hm). eexists. split; [reflexivity|].
    cbn [framed _selections _prevSelections _mode handlingDownUpSequence].
    repeat split; try reflexivity. exact Hm.
  - rewrite (handleDragEvent_scale _ _ Hm).
    match goal with
    | |- context [assignFrom ?gs ?ss ?i ?st] =>
        destruct (assignFrom_total gs ss i st) as (st' & Hst);
          [rewrite length_map; simpl; lia | rewrite Hst]
    end.
    cbn [bind]. eexists. split; [reflexivity|].
    cbn [framed _selections _prevSelections _mode handlingDownUpSequence].
    repeat split; try reflexivity. exact Hm.
  - rewrite (handleDragEvent_rotate _ _ Hm).
    match goal with
    | |- context [assignFrom ?gs ?ss ?i ?st] =>
        destruct (assignFrom_total gs ss i st) as (st' & Hst);
          [rewrite length_map; simpl; lia | rewrite Hst]
    end.
    cbn [bind]. eexists. split; [reflexivity|].
    cbn [framed _selections _prevSelections _mode handlingDownUpSequence].
    repeat split; try reflexivity; [apply length_map | exact Hm].
Qed.

Lemma handleEvent_steady (evt : MapBrowserEvent) (t : Transform) :
  NoDup (_selections t) ->
  length (_prevSelections t) = length (_selections t) ->
  exists t',
    handleEvent evt t = Some t' /\
    NoDup (_selections t') /\
    length (_prevSelections t') = length (_selections t').
Proof.
  intros Hnd Hlen. unfold handleEvent.
  destruct (handlingDownUpSequence t); destruct (evtType evt);
    try (exists t; split; [reflexivity | split; assumption]).
  - destruct (handleDragEvent_steady evt t) as (t' & Hrun & Hs & Hp & _); [lia|].
    exists t'. split; [exact Hrun|]. rewrite Hs, Hp. split; assumption.
  - rewrite handleUpEvent_eq. cbn [bind]. eexists. split; [reflexivity|].
    split; assumption.
  - destruct (handleDownEvent_policy evt t) as (t1 & Hdown & Hs & Hp & _).
    rewrite Hdown. cbn [bind]. eexists. split; [reflexivity|].
    change (NoDup (_selections t1) /\ length (_prevSelections t1) = length (_selections t1)).
    split.
    + rewrite Hs. apply selectionAfter_NoDup, Hnd.
    + rewrite Hp. unfold snapshotOf. apply length_map.
  - eexists. split; [reflexivity|]. split; assumption.
Qed.

(** X12. No stream of pointer events makes the interaction throw, as long
    as every scale frame in it divides by a box width and height that are
    not zero: from a freshly constructed interaction, whatever the shapes of
    the application and whatever events the host delivers, every handler
    returns; and in every state reached the selection holds no shape twice
    and the snapshot has exactly one entry per selected shape. *)
Theorem pointer_stream_never_throws (st : Store) (evts : list MapBrowserEvent) :
  scaleFramesDivide evts (newTransform st) ->
  exists t,
    handleEvents evts (newTransform st) = Some t /\
    NoDup (_selections t) /\
    length (_prevSelections t) = length (_selections t).
Proof.
  intros _.
  assert (Hgen : forall evts t,
             NoDup (_selections t) ->
             length (_prevSelections t) = length (_selections t) ->
             exists t',
               handleEvents evts t = Some t' /\
               NoDup (_selections t') /\
               length (_prevSelections t') = length (_selections t')).
  { clear. induction evts as [|evt rest IH]; intros t Hnd Hlen.
    - exists t. split; [reflexivity | split; assumption].
    - destruct (handleEvent_steady evt t Hnd Hlen) as (t1 & Hrun & Hnd1 & Hlen1).
      destruct (IH t1 Hnd1 Hlen1) as (t' & Hrest & H').
      exists t'. split; [|exact H'].
      cbn [handleEvents]. rewrite Hrun. exact Hrest. }
  apply Hgen; [constructor | reflexivity].
Qed.

(** The square is selected by a click, then its top-right handle is pressed,
    dragged to (20,20) and released: the one scale frame divides by the
    width and height 10 of the square. *)
Lemma pointer_stream_never_throws_witness :
  exists t,
    handleEvents
      [pressOn (Body 0%nat) (5, 5) false; releaseAt (5, 5);
       pressOn (Handle (mkHandle (Point (10, 10)) 0%nat scale 6)) (10, 10) false;
       dragTo (20, 20); releaseAt (20, 20)]
      (newTransform (squareStore None)) = Some t /\
    NoDup (_selections t) /\
    length (_prevSelections t) = length (_selections t).
Proof.
  apply (pointer_stream_never_throws (squareStore None)).
  cbn [scaleFramesDivide].
  split; [intros H; discriminate H|].
  unfold handleEvent at 1.
  cbn [newTransform handlingDownUpSequence pressOn evtType].
  rewrite (handleDownEvent_body _ _ _ _ (select_fresh_square None (5, 5))). cbn [bind].
  split; [intros _ H; discriminate H|].
  unfold handleEvent at 1. cbn [handlingDownUpSequence setHandling releaseAt evtType].
  rewrite handleUpEvent_eq. cbn [bind].
  change (setHandling _ false) with (selectedSquare None).
  split; [intros H; discriminate H|].
  unfold handleEvent at 1. cbn [selectedSquare handlingDownUpSequence pressOn evtType].
  change (handleDownEvent ?e _) with (handleDownEvent e (selectedSquare None)).
  rewrite (press_square_handle None 6 (10, 10) I). cbn [bind].
  split.
  { intros _ _ _.
    change (_scalingSelection (setHandling (squareGrabbed None 6 (10, 10)) true))
      with (scalingOf 0 square 6).
    rewrite square_scaling6. cbn [w h]. split; lra. }
  destruct (handleEvent (dragTo (20, 20)) (setHandling (squareGrabbed None 6 (10, 10)) true))
    as [t4|]; [|exact I].
  split; [intros _ H; discriminate H|].
  destruct (handleEvent (releaseAt (20, 20)) t4); exact I.
Defined.

(** ** The notifications of a gesture *)

Lemma dispatchAll_stamp (start coord : Coordinate) (tys : list TransformEventType)
    (log : list TransformEvent) :
  dispatchAll start coord tys log = log ++ stamp start coord tys.
Proof.
  unfold dispatchAll, stamp. revert log. induction tys as [|ty rest IH]; intros log.
  - cbn. rewrite app_nil_r. reflexivity.
  - cbn [fold_left map]. rewrite IH, <- app_assoc. reflexivity.
Qed.

Lemma dragFrames_log (frames : list MapBrowserEvent) (t t' : Transform) :
  dragFrames frames t = Some t' ->
  dispatched t'
  = dispatched t
    ++ flat_map (fun f => stamp (_startCoord t) (evtCoordinate f) (frameTypes (_mode t))) frames /\
  _startCoord t' = _startCoord t.
Proof.
  revert t. induction frames as [|evt rest IH]; intros t Hrun; cbn [dragFrames] in Hrun.
  - injection Hrun as <-. cbn [flat_map]. rewrite app_nil_r. split; reflexivity.
  - destruct (handleDragEvent evt t) as [u|] eqn:Hstep; [|discriminate].
    cbn [bind] in Hrun.
    destruct (handleDragEvent_framed _ _ _ Hstep) as (st & prevs & pc & hi & ->).
    destruct (IH _ Hrun) as [Hlog Hstart].
    cbn [framed dispatched _startCoord _mode] in Hlog, Hstart.
    rewrite Hlog, Hstart, dispatchAll_stamp. cbn [flat_map].
    rewrite <- app_assoc. split; reflexivity.
Qed.

(** X13. The notifications of a handled gesture, with the coordinates they
    carry, in any state the interaction reaches from its construction while
    no down-up sequence is open.  The press dispatches [mousedown] with the
    start coordinate of the previous gesture (the new one is stored only
    afterwards), then the mode's start notification and [transformstart];
    each frame dispatches the mode's frame notification and [transforming];
    the release dispatches [mouseup] and, when there was a frame, the mode's
    end notification and [transformend].  All of them after [mousedown]
    carry the press coordinate as start coordinate, and the pointer
    coordinate of their own event as coordinate.  Nothing else is
    dispatched. *)
Theorem gesture_notifications
    (st : Store) (evts : list MapBrowserEvent)
    (t0 t1 t2 : Transform) (down up : MapBrowserEvent) (frames : list MapBrowserEvent) :
  handleEvents evts (newTransform st) = Some t0 ->
  handlingDownUpSequence t0 = false ->
  handleDownEvent down t0 = Some (t1, true) ->
  dragFrames frames t1 = Some t2 ->
  exists t3,
    handleUpEvent up t2 = Some (t3, false) /\
    dispatched t3
    = dispatched t0
      ++ mkEvent mousedown (_startCoord t0) (evtCoordinate down)
      :: gestureLog (_mode t1) (evtCoordinate down) frames up.
Proof.
  intros Hreach Hidle Hdown Hrun.
  pose proof (handleEvents_settled _ _ _ Hreach Hidle) as Hfresh.
  destruct (handleDownEvent_handled _ _ _ Hdown) as (tsel & picked & _ & Hk & Hsame).
  destruct Hsame as (_ & _ & _ & _ & _ & Htr & Hstart & _ & Hlog).
  destruct (dragFrames_frame _ _ _ Hrun) as (Hm & _ & _ & Hnil & Hcons).
  destruct (dragFrames_log _ _ _ Hrun) as [Hlog2 Hstart2].
  exists (released up t2). split; [apply handleUpEvent_eq|].
  cbn [dispatched released]. rewrite dispatchAll_stamp, Hlog2, Hstart2, Hstart, Hlog.
  cbn [dispatched pressed _startCoord]. rewrite dispatchAll_stamp.
  rewrite Hk. cbn [dispatched _startCoord setHandleLayer setSelections].
  unfold gestureLog, upTypes. rewrite Hm.
  assert (Hend : (if _isTransformed t2
                  then modeEvents translateend rotateend scaleend (_mode t1) ++ [transformend]
                  else [])
                 = match frames with
                   | [] => []
                   | _ :: _ => modeEvents translateend rotateend scaleend (_mode t1)
                               ++ [transformend]
                   end).
  { destruct frames as [|e l].
    - rewrite (Hnil eq_refl), Htr. cbn [_isTransformed pressed].
      rewrite Hk. cbn [_isTransformed setHandleLayer setSelections]. rewrite Hfresh.
      reflexivity.
    - destruct Hcons as [-> _]; [discriminate | reflexivity]. }
  rewrite Hend, <- !app_assoc. reflexivity.
Qed.

(** The square was selected by a click at (5,5).  It is pressed at (2,3),
    dragged to (4,7) and released there: [mousedown] still carries the start
    coordinate (5,5) of the click, the seven notifications after it carry
    (2,3). *)
Lemma gesture_notifications_witness :
  exists t1 t2 t3,
    handleEvents [pressOn (Body 0%nat) (5, 5) false; releaseAt (5, 5)]
      (newTransform (squareStore None)) = Some (selectedSquare None) /\
    handleDownEvent (pressOn (Body 0%nat) (2, 3) false) (selectedSquare None)
    = Some (t1, true) /\
    dragFrames [dragTo (4, 7)] t1 = Some t2 /\
    handleUpEvent (releaseAt (4, 7)) t2 = Some (t3, false) /\
    dispatched t3
    = dispatched (selectedSquare None)
      ++ [mkEvent mousedown (5, 5) (2, 3);
          mkEvent translatestart (2, 3) (2, 3);
          mkEvent transformstart (2, 3) (2, 3);
          mkEvent translating (2, 3) (4, 7);
          mkEvent transforming (2, 3) (4, 7);
          mkEvent mouseup (2, 3) (4, 7);
          mkEvent translateend (2, 3) (4, 7);
          mkEvent transformend (2, 3) (4, 7)].
Proof.
  pose (down := pressOn (Body 0%nat) (2, 3) false).
  pose (t1 := withPrevCoord (2, 3) (pressed down (selectedSquare None) translate)).
  assert (Hdown : handleDownEvent down (selectedSquare None) = Some (t1, true))
    by exact (handleDownEvent_body down (selectedSquare None) (selectedSquare None) 0%nat
                (select_selected_body None (2, 3))).
  destruct (dragFrames_translate [dragTo (4, 7)] t1 eq_refl (NoDup_single 0%nat))
    as (t2 & Hrun & _).
  destruct (gesture_notifications (squareStore None)
              [pressOn (Body 0%nat) (5, 5) false; releaseAt (5, 5)]
              (selectedSquare None) t1 t2 down (releaseAt (4, 7)) [dragTo (4, 7)]
              (selectedSquare_reached None) eq_refl Hdown Hrun)
    as (t3 & Hup & Hlog).
  exists t1, t2, t3.
  split; [exact (selectedSquare_reached None)|]. split; [exact Hdown|].
  split; [exact Hrun|]. split; [exact Hup|].
  exact Hlog.
Defined.

(** ** What a gesture leaves alone *)

Lemma assignFrom_outside (geoms : list Geometry) (sels : list FeatId) (j : FeatId) :
  ~ In j sels ->
  forall (i : nat) (st st' : Store),
    assignFrom geoms sels i st = Some st' -> st' j = st j.
Proof.
  intros Hout. induction geoms as [|g rest IH]; intros i st st' Hrun; cbn [assignFrom] in Hrun.
  - injection Hrun as <-. reflexivity.
  - destruct (nth_error sels i) as [live|] eqn:Hi; [|discriminate]. cbn [bind] in Hrun.
    rewrite (IH _ _ _ Hrun). unfold storeSetGeometry.
    destruct (Nat.eqb_spec j live) as [-> | Hne]; [|reflexivity].
    exfalso. apply Hout. eapply nth_error_In, Hi.
Qed.

Lemma fold_outside (upd : Store -> FeatId -> Store) (j : FeatId) :
  (forall st id, id <> j -> upd st id j = st j) ->
  forall sels st, ~ In j sels -> fold_left upd sels st j = st j.
Proof.
  intros Hupd. induction sels as [|a l IH]; intros st Hout; [reflexivity|].
  cbn [fold_left]. rewrite IH by (intros H; apply Hout; right; exact H).
  apply Hupd. intros E. apply Hout. left; exact E.
Qed.

Lemma translateStore_outside (dx dy : R) (sels : list FeatId) (st : Store) (j : FeatId) :
  ~ In j sels -> fold_left (translateStore dx dy) sels st j = st j.
Proof.
  apply fold_outside. intros st0 id Hne. unfold translateStore, storeSetGeometry.
  destruct (Nat.eqb_spec j id) as [E | _]; [congruence | reflexivity].
Qed.

Lemma halfTurnStore_outside (sels : list FeatId) (st : Store) (j : FeatId) :
  ~ In j sels -> fold_left halfTurnStore sels st j = st j.
Proof.
  apply fold_outside. intros st0 id Hne. unfold halfTurnStore.
  destruct (angle (st0 id)); [|reflexivity].
  unfold storeSetAngle, storeSetGeometry.
  destruct (Nat.eqb_spec j id) as [E | _]; [congruence | reflexivity].
Qed.

Lemma handleDragEvent_outside (evt : MapBrowserEvent) (t t' : Transform) (j : FeatId) :
  handleDragEvent evt t = Some t' -> ~ In j (_selections t) ->
  store t' j = store t j /\ _selections t' = _selections t.
Proof.
  intros Hrun Hout. destruct (_mode t) eqn:Hm.
  - rewrite (handleDragEvent_idle _ _ Hm) in Hrun. injection Hrun as <-. split; reflexivity.
  - rewrite (handleDragEvent_translate _ _ Hm) in Hrun. injection Hrun as <-.
    cbn [framed store _selections]. split; [apply translateStore_outside, Hout | reflexivity].
  - rewrite (handleDragEvent_scale _ _ Hm) in Hrun.
    match type of Hrun with
    | context [assignFrom ?gs ?ss ?i ?st] =>
        destruct (assignFrom gs ss i st) as [st'|] eqn:Hst; [|discriminate]
    end.
    cbn [bind] in Hrun. injection Hrun as <-. cbn [framed store _selections].
    split; [exact (assignFrom_outside _ _ _ Hout _ _ _ Hst) | reflexivity].
  - rewrite (handleDragEvent_rotate _ _ Hm) in Hrun.
    match type of Hrun with
    | context [assignFrom ?gs ?ss ?i ?st] =>
        destruct (assignFrom gs ss i st) as [st'|] eqn:Hst; [|discriminate]
    end.
    cbn [bind] in Hrun. injection Hrun as <-. cbn [framed store _selections].
    split; [exact (assignFrom_outside _ _ _ Hout _ _ _ Hst) | reflexivity].
Qed.

Lemma dragFrames_outside (frames : list MapBrowserEvent) (t t' : Transform) (j : FeatId) :
  dragFrames frames t = Some t' -> ~ In j (_selections t) ->
  store t' j = store t j /\ _selections t' = _selections t.
Proof.
  revert t. induction frames as [|evt rest IH]; intros t Hrun Hout; cbn [dragFrames] in Hrun.
  - injection Hrun as <-. split; reflexivity.
  - destruct (handleDragEvent evt t) as [u|] eqn:Hstep; [|discriminate].
    cbn [bind] in Hrun.
    destruct (handleDragEvent_outside _ _ _ _ Hstep Hout) as [Hst Hs].
    destruct (IH u Hrun) as [Hst' Hs']; [rewrite Hs; exact Hout|].
    rewrite Hst', Hst, Hs', Hs. split; reflexivity.
Qed.

(** X14. A gesture modifies selected shapes only.  From the press to the
    release, whatever the mode, the frames and the pointer positions, every
    shape of the application that is not in the selection the press left is
    exactly as it was before the press; and the press itself modifies no
    shape at all, and the frames and the release leave the selection as the
    press left it. *)
Theorem gesture_touches_only_the_selection
    (t0 t1 t2 t3 : Transform) (down up : MapBrowserEvent) (frames : list MapBrowserEvent)
    (b b' : bool) :
  handleDownEvent down t0 = Some (t1, b) ->
  dragFrames frames t1 = Some t2 ->
  handleUpEvent up t2 = Some (t3, b') ->
  store t1 = store t0 /\
  _selections t3 = _selections t1 /\
  forall j, ~ In j (_selections t1) -> store t3 j = store t0 j.
Proof.
  intros Hdown Hrun Hup.
  destruct (handleDownEvent_policy down t0) as (t1' & Hd & _ & _ & Hst & _).
  rewrite Hdown in Hd. injection Hd as <- _.
  rewrite handleUpEvent_eq in Hup. injection Hup as <- _.
  split; [exact Hst|].
  assert (Hsels : _selections t2 = _selections t1)
    by (destruct (dragFrames_frame _ _ _ Hrun) as (_ & H & _); exact H).
  split; [cbn [released _selections]; exact Hsels|].
  intros j Hout.
  destruct (dragFrames_outside _ _ _ j Hrun Hout) as [Hst2 _].
  cbn [released store]. unfold releasedStore.
  destruct (mode_eqb (_mode t2) scale && _headInverted t2).
  - rewrite halfTurnStore_outside by (rewrite Hsels; exact Hout).
    rewrite Hst2, Hst. reflexivity.
  - rewrite Hst2, Hst. reflexivity.
Qed.

(** The square is pressed at (5,5), dragged to (7,8) and released: it has
    moved by (2,3), and the point, which is not selected, is where it
    was. *)
Lemma gesture_touches_only_the_selection_witness :
  exists t1 t2 t3,
    handleDownEvent (pressOn (Body 0%nat) (5, 5) false) (newTransform squareAndPoint)
    = Some (t1, true) /\
    dragFrames [dragTo (7, 8)] t1 = Some t2 /\
    handleUpEvent (releaseAt (7, 8)) t2 = Some (t3, false) /\
    _selections t1 = [0%nat] /\
    geometry (store t3 0%nat) = Area (2, 3) [(12, 3); (12, 13); (2, 13)] /\
    store t3 1%nat = mkFeature (Point (50, 50)) None /\
    store t1 = store (newTransform squareAndPoint) /\
    _selections t3 = _selections t1 /\
    (forall j, ~ In j (_selections t1) -> store t3 j = store (newTransform squareAndPoint) j).
Proof.
  pose (t0 := newTransform squareAndPoint).
  pose (down := pressOn (Body 0%nat) (5, 5) false).
  destruct (handleDownEvent_policy down t0) as (t1 & Hdown & Hsel & _ & Hst1 & Hmode & _).
  change (isHit (firstAccepted (atPixel down))) with true in Hdown.
  change (selectionAfter (_selections t0) (firstAccepted (atPixel down)) (addCondition down))
    with [0%nat] in Hsel.
  change (modeAfter (_mode t0) (firstAccepted (atPixel down))) with translate in Hmode.
  assert (Hnd : NoDup (_selections t1)) by (rewrite Hsel; apply NoDup_single).
  destruct (dragFrames_translate [dragTo (7, 8)] t1 Hmode Hnd)
    as (t2 & Hrun & Hm2 & _ & _ & Hst2).
  pose proof (handleUpEvent_eq (releaseAt (7, 8)) t2) as Hup.
  destruct (gesture_touches_only_the_selection t0 t1 t2 (released (releaseAt (7, 8)) t2)
              down (releaseAt (7, 8)) [dragTo (7, 8)] true false Hdown Hrun Hup)
    as (Hkeep & Hsels & Hout).
  exists t1, t2, (released (releaseAt (7, 8)) t2).
  split; [exact Hdown|]. split; [exact Hrun|]. split; [exact Hup|].
  split; [exact Hsel|].
  split.
  { cbn [store released]. unfold releasedStore. rewrite Hm2. cbn [mode_eqb andb].
    rewrite Hst2, Hsel. cbn [in_dec].
    destruct (in_dec Nat.eq_dec 0%nat [0%nat]) as [_ | Hn];
      [|exfalso; apply Hn; left; reflexivity].
    rewrite (handleDownEvent_translate_prevCoord _ _ _ Hdown Hmode), Hst1.
    cbn [lastPointer map dragTo evtCoordinate last down pressOn fst snd
         t0 newTransform store squareAndPoint translateFeature geometry].
    unfold Ol.translate, square, Ol.applyTransform, Ol.translateCoord.
    cbn [map fst snd]. coords. }
  split.
  { rewrite Hout; [reflexivity|]. rewrite Hsel. intros [H | []]. discriminate H. }
  split; [exact Hkeep|]. split; [exact Hsels | exact Hout].
Defined.

(** ** Only the last frame matters *)

Lemma dragFrames_idle (frames : list MapBrowserEvent) (t : Transform) :
  _mode t = idle ->
  exists t', dragFrames frames t = Some t' /\ store t' = store t.
Proof.
  revert t. induction frames as [|evt rest IH]; intros t Hm; cbn [dragFrames].
  - exists t. split; reflexivity.
  - rewrite (handleDragEvent_idle _ _ Hm). cbn [bind].
    destruct (IH (framed evt t (store t) (_prevSelections t) (_prevCoord t) (_headInverted t)))
      as (t' & Hrun & Hst); [exact Hm|].
    exists t'. split; [exact Hrun | exact Hst].
Qed.

Lemma lastPointer_snoc (frames : list MapBrowserEvent) (evt : MapBrowserEvent)
    (start : Coordinate) :
  lastPointer (frames ++ [evt]) start = evtCoordinate evt.
Proof. unfold lastPointer. rewrite map_app. cbn [map]. apply last_last. Qed.

(** X15. The shapes after the frames of a gesture depend on the last frame
    only: two gestures that start with the same press and whose last frame
    has the same pointer position leave every shape of the application the
    same, whatever the frames before it, in every mode. *)
Theorem last_frame_decides
    (t0 t1 : Transform) (down evt : MapBrowserEvent) (frames frames' : list MapBrowserEvent) :
  handleDownEvent down t0 = Some (t1, true) ->
  NoDup (_selections t0) ->
  exists t2 t2',
    dragFrames (frames ++ [evt]) t1 = Some t2 /\
    dragFrames (frames' ++ [evt]) t1 = Some t2' /\
    forall j, store t2 j = store t2' j.
Proof.
  intros Hdown Hnd0.
  pose proof (handleDownEvent_NoDup _ _ _ Hnd0 Hdown) as Hnd.
  assert (Hsnap : _prevSelections t1 = snapshotOf t1).
  { destruct (handleDownEvent_policy down t0) as (t1' & Hd & _ & Hp & _).
    rewrite Hdown in Hd. injection Hd as <- _. exact Hp. }
  destruct (_mode t1) eqn:Hm.
  - destruct (dragFrames_idle (frames ++ [evt]) t1 Hm) as (t2 & Hrun & Hst).
    destruct (dragFrames_idle (frames' ++ [evt]) t1 Hm) as (t2' & Hrun' & Hst').
    exists t2, t2'. split; [exact Hrun|]. split; [exact Hrun'|].
    intros j. rewrite Hst, Hst'. reflexivity.
  - destruct (dragFrames_translate (frames ++ [evt]) t1 Hm Hnd) as (t2 & Hrun & _ & _ & _ & Hst).
    destruct (dragFrames_translate (frames' ++ [evt]) t1 Hm Hnd)
      as (t2' & Hrun' & _ & _ & _ & Hst').
    exists t2, t2'. split; [exact Hrun|]. split; [exact Hrun'|].
    intros j. rewrite Hst, Hst', !lastPointer_snoc. reflexivity.
  - destruct (scale_frame_result t1 frames evt Hm Hnd Hsnap) as (t2 & Hrun & _ & _ & _ & Hst).
    destruct (scale_frame_result t1 frames' evt Hm Hnd Hsnap)
      as (t2' & Hrun' & _ & _ & _ & Hst').
    exists t2, t2'. split; [exact Hrun|]. split; [exact Hrun'|].
    intros j. destruct (in_dec Nat.eq_dec j (_selections t1)) as [Hin | Hout].
    + rewrite (Hst j Hin), (Hst' j Hin). reflexivity.
    + destruct (dragFrames_outside _ _ _ j Hrun Hout) as [-> _].
      destruct (dragFrames_outside _ _ _ j Hrun' Hout) as [-> _]. reflexivity.
  - destruct (rotate_frame_result t1 frames evt Hm Hnd Hsnap) as (t2 & Hrun & Hst).
    destruct (rotate_frame_result t1 frames' evt Hm Hnd Hsnap) as (t2' & Hrun' & Hst').
    exists t2, t2'. split; [exact Hrun|]. split; [exact Hrun'|].
    intros j. destruct (in_dec Nat.eq_dec j (_selections t1)) as [Hin | Hout].
    + rewrite (Hst j Hin), (Hst' j Hin). reflexivity.
    + destruct (dragFrames_outside _ _ _ j Hrun Hout) as [-> _].
      destruct (dragFrames_outside _ _ _ j Hrun' Hout) as [-> _]. reflexivity.
Qed.

(** The square, grabbed by its top-right handle: a detour through (3,4)
    before the frame at (20,20) changes nothing. *)
Lemma last_frame_decides_witness :
  exists t2 t2',
    dragFrames ([] ++ [dragTo (20, 20)]) (squareGrabbed None 6 (10, 10)) = Some t2 /\
    dragFrames ([dragTo (3, 4)] ++ [dragTo (20, 20)]) (squareGrabbed None 6 (10, 10))
    = Some t2' /\
    forall j, store t2 j = store t2' j.
Proof.
  apply (last_frame_decides (selectedSquare None) (squareGrabbed None 6 (10, 10))
           (pressOn (Handle (mkHandle (Point (10, 10)) 0%nat scale 6)) (10, 10) false)
           (dragTo (20, 20)) [] [dragTo (3, 4)]).
  - exact (press_square_handle None 6 (10, 10) I).
  - apply NoDup_single.
Defined.

(** ** The overlay *)

Lemma filter_translate_handles (st : Store) (sels : list FeatId) :
  map body (filter (fun hf => mode_eqb (mode hf) translate) (map (translateHandleOf st) sels))
  = sels.
Proof.
  induction sels as [|x rest IH]; [reflexivity|].
  cbn [map filter].
  replace (mode_eqb (mode (translateHandleOf st x)) translate) with true
    by (unfold translateHandleOf; destruct (geometry (st x)); reflexivity).
  cbn [map]. rewrite IH. f_equal.
  unfold translateHandleOf; destruct (geometry (st x)); reflexivity.
Qed.

Lemma filter_translate_box (st : Store) (feat : FeatId) :
  filter (fun hf => mode_eqb (mode hf) translate) (boxHandles st feat) = [].
Proof. unfold boxHandles. destruct (geometry (st feat)); reflexivity. Qed.

(** X16. What [drawHandles] puts in the overlay.  It always succeeds, and
    every handle it draws is of one of three kinds: a translate handle of a
    selected shape, at the shape's point or around its extent; the rotate
    handle of the first selected shape, at handle 7 of its oriented box; or
    a scale handle of the first selected shape, at the handle of its
    oriented box that its index names, an index of the ring.  There is
    exactly one translate handle per selected shape, in the order of the
    selection; the first selected shape has nine more handles unless it is
    a point, which has none. *)
Theorem overlay_census (t : Transform) :
  exists t',
    drawHandles t = Some t' /\
    (forall hf,
        In hf (_handleLayer t') ->
        (mode hf = translate /\ index hf = (-1)%Z /\ In (body hf) (_selections t) /\
         hgeometry hf = match geometry (store t (body hf)) with
                        | Point c => Point c
                        | Area _ _ => Ol.fromExtent (Ol.getExtent (geometry (store t (body hf))))
                        end) \/
        (mode hf = rotate /\ index hf = (-1)%Z /\
         nth_error (_selections t) 0 = Some (body hf) /\
         exists p, anchorOf (store t (body hf)) 7 = Some p /\ hgeometry hf = Point p) \/
        (mode hf = scale /\ onRing (index hf) /\
         nth_error (_selections t) 0 = Some (body hf) /\
         exists p, anchorOf (store t (body hf)) (index hf) = Some p /\
                   hgeometry hf = Point p)) /\
    map body (filter (fun hf => mode_eqb (mode hf) translate) (_handleLayer t'))
    = _selections t /\
    length (_handleLayer t')
    = (length (_selections t)
       + match _selections t with
         | [] => 0
         | first :: _ => match geometry (store t first) with
                         | Point _ => 0
                         | Area _ _ => 9
                         end
         end)%nat.
Proof.
  rewrite drawHandles_eq. eexists. split; [reflexivity|].
  cbn [_handleLayer setHandleLayer]. unfold overlay.
  split; [|split].
  - intros hf Hin. apply in_app_or in Hin. destruct Hin as [Hbox | Htr].
    + right. destruct (_selections t) as [|first rest]; [destruct Hbox|].
      unfold boxHandles in Hbox.
      destruct (geometry (store t first)) as [c | c cs] eqn:Hg; [destruct Hbox|].
      destruct Hbox as [<- | Hsc].
      * left. cbn [mode index body hgeometry nth_error].
        split; [reflexivity|]. split; [reflexivity|]. split; [reflexivity|].
        eexists. split; [apply anchorOf_eq|]. rewrite Hg. reflexivity.
      * right. apply in_map_iff in Hsc. destruct Hsc as (k & <- & Hk).
        cbn [mode index body hgeometry nth_error].
        split; [reflexivity|].
        split; [unfold ringIndices in Hk; cbn [In] in Hk; unfold onRing; lia|].
        split; [reflexivity|].
        eexists. split; [apply anchorOf_eq|]. rewrite Hg. reflexivity.
    + left. apply in_map_iff in Htr. destruct Htr as (x & <- & Hx).
      unfold translateHandleOf.
      destruct (geometry (store t x)) as [c | c cs] eqn:Hg;
        cbn [mode index body hgeometry]; rewrite Hg;
        (split; [reflexivity|]); (split; [reflexivity|]); (split; [exact Hx|]); reflexivity.
  - rewrite filter_app, map_app, filter_translate_handles.
    destruct (_selections t) as [|first rest]; [reflexivity|].
    rewrite filter_translate_box. reflexivity.
  - rewrite length_app, length_map.
    destruct (_selections t) as [|first rest]; [reflexivity|].
    unfold boxHandles. destruct (geometry (store t first)); cbn [length map ringIndices]; lia.
Qed.

(** ** The half turn of the release *)

Lemma Rmin_flip (a x y : R) : Rmin (a - x) (a - y) = a - Rmax x y.
Proof.
  unfold Rmin, Rmax. destruct (Rle_dec x y), (Rle_dec (a - x) (a - y)); try reflexivity; lra.
Qed.

Lemma Rmax_flip (a x y : R) : Rmax (a - x) (a - y) = a - Rmin x y.
Proof.
  unfold Rmin, Rmax. destruct (Rle_dec x y), (Rle_dec (a - x) (a - y)); try reflexivity; lra.
Qed.

Lemma fold_extend_flip (ax ay : R) (cs : list Coordinate) (e : Extent) :
  fold_left Ol.extendCoordinate (map (flipCoord ax ay) cs) (flipExtent ax ay e)
  = flipExtent ax ay (fold_left Ol.extendCoordinate cs e).
Proof.
  revert e; induction cs as [|c cs IH]; intros e; cbn [map fold_left]; [reflexivity|].
  rewrite <- IH. f_equal.
  unfold Ol.extendCoordinate, flipExtent, flipCoord; cbn [minX minY maxX maxY fst snd].
  rewrite !Rmin_flip, !Rmax_flip. reflexivity.
Qed.

Lemma getExtent_flip (ax ay : R) (g : Geometry) :
  Ol.getExtent (Ol.applyTransform (flipCoord ax ay) g) = flipExtent ax ay (Ol.getExtent g).
Proof.
  destruct g as [c | c cs]; cbn [Ol.applyTransform Ol.getExtent]; unfold Ol.boundingExtent.
  - reflexivity.
  - rewrite <- fold_extend_flip. reflexivity.
Qed.

Lemma rotateCoord_PI (c p : Coordinate) :
  Ol.rotateCoord PI c p = flipCoord (2 * fst c) (2 * snd c) p.
Proof.
  unfold Ol.rotateCoord, flipCoord. rewrite cos_PI, sin_PI. f_equal; ring.
Qed.

Lemma boxCenter_half_turn (g : Geometry) :
  boxCenter (Ol.rotate PI (boxCenter g) g) = boxCenter g.
Proof.
  unfold Ol.rotate.
  rewrite (applyTransform_ext _ (flipCoord (2 * fst (boxCenter g)) (2 * snd (boxCenter g))) g)
    by (intros p; apply rotateCoord_PI).
  unfold boxCenter at 1. rewrite getExtent_flip.
  unfold boxCenter, Ol.getCenter, flipExtent; cbn [minX minY maxX maxY fst snd].
  f_equal; field.
Qed.

Lemma half_turn_twice (c : Coordinate) (g : Geometry) :
  Ol.rotate PI c (Ol.rotate PI c g) = g.
Proof.
  unfold Ol.rotate. rewrite applyTransform_compose. apply applyTransform_id.
  intros p. rewrite !rotateCoord_PI. destruct p. unfold flipCoord; cbn [fst snd].
  f_equal; ring.
Qed.

Lemma rem_wrap (n d : R) : 0 < d -> d <= n < 2 * d -> JsMath.rem n d = n - d.
Proof.
  intros Hd Hn. unfold JsMath.rem, JsMath.trunc.
  assert (H1 : 1 <= n / d).
  { apply Rmult_le_reg_r with d; [lra|]. unfold Rdiv.
    rewrite Rmult_assoc, Rinv_l by lra. lra. }
  assert (H2 : n / d < 2).
  { apply Rmult_lt_reg_r with d; [lra|]. unfold Rdiv.
    rewrite Rmult_assoc, Rinv_l by lra. lra. }
  destruct (Rle_dec 0 (n / d)) as [_ | Hneg]; [|lra].
  replace (Int_part (n / d)) with 1%Z by (apply Int_part_spec; simpl; lra).
  simpl. ring.
Qed.

Lemma half_turn_angle_twice (a : R) :
  0 <= a < 2 * PI ->
  JsMath.rem (JsMath.rem (a + PI) (2 * PI) + PI) (2 * PI) = a.
Proof.
  intros Ha. pose proof PI_RGT_0 as Hpi.
  destruct (Rlt_dec a PI) as [Hlt | Hge].
  - rewrite (rem_small (a + PI)) by lra.
    rewrite rem_wrap by lra. ring.
  - rewrite (rem_wrap (a + PI)) by lra.
    rewrite rem_small by lra. ring.
Qed.

Lemma halfTurnStore_at (st : Store) (sel : FeatId) :
  halfTurnStore st sel sel = halfTurnFeature (st sel).
Proof.
  unfold halfTurnStore, halfTurnFeature.
  destruct (angle (st sel)) as [a|] eqn:Ha; [|reflexivity].
  unfold storeSetAngle, storeSetGeometry. rewrite Nat.eqb_refl. reflexivity.
Qed.

(** X17. The half turn that the release applies to a shape with an angle
    turns the shape about the center of its extent, which stays where it
    is; applied a second time it restores the geometry, and it restores the
    angle too when the angle was in [0, 2 * PI). *)
Theorem half_turn_is_an_involution (t : Transform) (sel : FeatId) (a : R) :
  angle (store t sel) = Some a ->
  boxCenter (geometry (store (halfTurn t sel) sel)) = boxCenter (geometry (store t sel)) /\
  geometry (store (halfTurn (halfTurn t sel) sel) sel) = geometry (store t sel) /\
  (0 <= a < 2 * PI -> store (halfTurn (halfTurn t sel) sel) sel = store t sel).
Proof.
  intros Ha. rewrite !halfTurn_eq. cbn [store setStore]. rewrite !halfTurnStore_at.
  destruct (store t sel) as [g a'] eqn:Hf. cbn [angle] in Ha. subst a'.
  unfold halfTurnFeature. cbn [angle geometry].
  split; [apply boxCenter_half_turn|].
  rewrite boxCenter_half_turn, half_turn_twice.
  split; [reflexivity|].
  intros Hr. rewrite half_turn_angle_twice by exact Hr. reflexivity.
Qed.

Lemma half_turn_is_an_involution_witness :
  boxCenter (geometry (store (halfTurn (selectedSquare (Some 0)) 0%nat) 0%nat))
  = boxCenter (geometry (store (selectedSquare (Some 0)) 0%nat)) /\
  geometry (store (halfTurn (halfTurn (selectedSquare (Some 0)) 0%nat) 0%nat) 0%nat)
  = geometry (store (selectedSquare (Some 0)) 0%nat) /\
  (0 <= 0 < 2 * PI ->
   store (halfTurn (halfTurn (selectedSquare (Some 0)) 0%nat) 0%nat) 0%nat
   = store (selectedSquare (Some 0)) 0%nat).
Proof.
  apply (half_turn_is_an_involution (selectedSquare (Some 0)) 0%nat 0). reflexivity.
Defined.

(** ** Dragging back *)

Lemma rotatePoint_round (p c : Coordinate) (a : R) :
  rotatePoint (rotatePoint p c a) c (- a) = p.
Proof. rewrite !rotatePoint_rotateCoord. apply rotateCoord_forth. Qed.

Lemma rotatePoint_round' (p c : Coordinate) (a : R) :
  rotatePoint (rotatePoint p c (- a)) c a = p.
Proof. rewrite !rotatePoint_rotateCoord. apply rotateCoord_back. Qed.

Lemma scaleDeltas_home (k : Z) (sx sy : R) :
  fst (scaleDeltas k sx sy sx sy) = 0 /\ snd (scaleDeltas k sx sy sx sy) = 0.
Proof.
  destruct k as [|p|p]; [| do 3 (try destruct p as [p|p|]) |];
    cbn [scaleDeltas fst snd]; split; ring.
Qed.

Lemma scaleFactors_home (sc : ScalingSelection) :
  scaleFactors sc (rotatePoint (startCoord sc) (oppositeCoord sc) (scAngle sc)) = (1, 1).
Proof.
  rewrite scaleFactors_eq, rotatePoint_round.
  destruct (scaleDeltas_home (handleIdx sc) (fst (startCoord sc)) (snd (startCoord sc)))
    as [-> ->].
  f_equal; unfold Rdiv; ring.
Qed.

Lemma scaledAbout_one (a : R) (anchor : Coordinate) (g : Geometry) :
  scaledAbout a 1 1 anchor g = g.
Proof.
  rewrite scaledAbout_applyTransform. apply applyTransform_id. intros p.
  replace (Ol.scaleCoord 1 1 anchor (Ol.rotateCoord (- a) anchor p))
    with (Ol.rotateCoord (- a) anchor p)
    by (unfold Ol.scaleCoord; destruct (Ol.rotateCoord (- a) anchor p);
        cbn [fst snd]; f_equal; ring).
  apply rotateCoord_back.
Qed.

(** X18. Dragging back undoes the gesture.  After any frames, a frame whose
    pointer is at the press coordinate (translate and rotate) or at the
    position of the grabbed handle (scale, wherever in the handle the press
    happened) leaves every shape of the application exactly as it was
    before the press. *)
Theorem dragging_back_restores
    (t0 t1 : Transform) (down evt : MapBrowserEvent) (frames : list MapBrowserEvent) :
  handleDownEvent down t0 = Some (t1, true) ->
  NoDup (_selections t0) ->
  (_mode t1 = scale -> w (_scalingSelection t1) <> 0 /\ h (_scalingSelection t1) <> 0) ->
  evtCoordinate evt = home down t1 ->
  exists t2,
    dragFrames (frames ++ [evt]) t1 = Some t2 /\
    (forall j, store t2 j = store t0 j) /\
    (forall hf, firstAccepted (atPixel down) = Some (Handle hf) -> mode hf = scale ->
                anchorOf (store t0 (body hf)) (index hf) = Some (home down t1)).
Proof.
  intros Hdown Hnd0 _ Hhome.
  pose proof (handleDownEvent_NoDup _ _ _ Hnd0 Hdown) as Hnd.
  destruct (handleDownEvent_policy down t0) as (t1' & Hd & _ & Hsnap & Hst0 & _).
  rewrite Hdown in Hd. injection Hd as <- _.
  assert (Hsame : forall f : Feature, mkFeature (geometry f) (angle f) = f)
    by (intros []; reflexivity).
  assert (Hhandle : forall hf, firstAccepted (atPixel down) = Some (Handle hf) ->
                               mode hf = scale ->
                               anchorOf (store t0 (body hf)) (index hf) = Some (home down t1)).
  { intros hf Hpick Hmode. rewrite (handleDownEvent_scale _ _ _ Hpick Hmode) in Hdown.
    injection Hdown as <-. rewrite anchorOf_eq. unfold home.
    cbn [_mode withScaling pressed _scalingSelection].
    change (startCoord (scalingOf ?a ?g ?k))
      with (rotatePoint (boxHandle a g k)
              (boxHandle a g (Z.rem (k + halfRing) scaleHandlesLength)) (- a)).
    cbn [oppositeCoord scAngle scalingOf].
    rewrite rotatePoint_round'. reflexivity. }
  unfold home in Hhome. destruct (_mode t1) eqn:Hm.
  - destruct (dragFrames_idle (frames ++ [evt]) t1 Hm) as (t2 & Hrun & Hst).
    exists t2. split; [exact Hrun|]. split; [|exact Hhandle].
    intros j. rewrite Hst, Hst0. reflexivity.
  - destruct (dragFrames_translate (frames ++ [evt]) t1 Hm Hnd) as (t2 & Hrun & _ & _ & _ & Hst).
    exists t2. split; [exact Hrun|]. split; [|exact Hhandle].
    intros j. rewrite Hst, lastPointer_snoc, Hhome.
    rewrite (handleDownEvent_translate_prevCoord _ _ _ Hdown Hm).
    rewrite translateFeature_zero by ring.
    rewrite Hst0. destruct (in_dec Nat.eq_dec j (_selections t1)); reflexivity.
  - destruct (scale_frame_result t1 frames evt Hm Hnd Hsnap) as (t2 & Hrun & _ & _ & _ & Hst).
    exists t2. split; [exact Hrun|]. split; [|exact Hhandle].
    intros j. destruct (in_dec Nat.eq_dec j (_selections t1)) as [Hin | Hout].
    + rewrite (Hst j Hin), Hhome, scaleFactors_home. cbn [fst snd].
      unfold scaledGeometry.
      change (Ol.rotate ?a ?o (Ol.scale 1 1 ?o (Ol.rotate (- ?a) ?o ?g)))
        with (scaledAbout a 1 1 o g).
      rewrite scaledAbout_one, Hsame, Hst0. reflexivity.
    + destruct (dragFrames_outside _ _ _ j Hrun Hout) as [-> _]. rewrite Hst0. reflexivity.
  - destruct (rotate_frame_result t1 frames evt Hm Hnd Hsnap) as (t2 & Hrun & Hst).
    exists t2. split; [exact Hrun|]. split; [|exact Hhandle].
    intros j. destruct (in_dec Nat.eq_dec j (_selections t1)) as [Hin | Hout].
    + rewrite (Hst j Hin), Hhome.
      destruct (handleDownEvent_rotate_inv _ _ _ Hdown Hm) as (hf & _ & Ht1).
      rewrite Ht1 at 1. cbn [_rotationSelection withRotation].
      unfold rotatedGeometry, rotationDelta, rotationOf. cbn [rotCenter rotAngle].
      rewrite rotate_zero by ring. rewrite Hsame, Hst0. reflexivity.
    + destruct (dragFrames_outside _ _ _ j Hrun Hout) as [-> _]. rewrite Hst0. reflexivity.
Qed.

(** The square is turned a quarter and dragged back to (5,10). *)
Lemma dragging_back_restores_witness :
  exists t2,
    dragFrames ([dragTo (10, 5)] ++ [dragTo (5, 10)]) (squareTurning None) = Some t2 /\
    (forall j, store t2 j = store (selectedSquare None) j) /\
    (forall hf,
        firstAccepted
          (atPixel (pressOn (Handle (mkHandle (Point (5, 10)) 0%nat rotate (-1))) (5, 10) false))
        = Some (Handle hf) ->
        mode hf = scale ->
        anchorOf (store (selectedSquare None) (body hf)) (index hf)
        = Some (home (pressOn (Handle (mkHandle (Point (5, 10)) 0%nat rotate (-1))) (5, 10)
                        false)
                  (squareTurning None))).
Proof.
  apply (dragging_back_restores (selectedSquare None) (squareTurning None)
           (pressOn (Handle (mkHandle (Point (5, 10)) 0%nat rotate (-1))) (5, 10) false)
           (dragTo (5, 10)) [dragTo (10, 5)]).
  - exact (press_square_rotate None).
  - apply NoDup_single.
  - intros H. discriminate H.
  - reflexivity.
Defined.

(** ** The size of the box under a scale frame *)

Lemma normalExtent_scaledAbout (a sx sy : R) (anchor : Coordinate) (g : Geometry) :
  0 <= sx -> 0 <= sy ->
  exists ax ay,
    normalExtent a (scaledAbout a sx sy anchor g)
    = axisMapExtent ax ay sx sy (normalExtent a g).
Proof.
  intros Hsx Hsy.
  set (g' := scaledAbout a sx sy anchor g).
  set (c0 := boxCenter g). set (c1 := boxCenter g').
  exists (fst anchor + fst (vsub c1 (Ol.rotateCoord (- a) anchor c1))
          - sx * fst (Ol.rotateCoord (- a) c0 anchor)),
         (snd anchor + snd (vsub c1 (Ol.rotateCoord (- a) anchor c1))
          - sy * snd (Ol.rotateCoord (- a) c0 anchor)).
  unfold normalExtent. fold c0 c1. unfold g', scaledAbout, Ol.rotate, Ol.scale.
  rewrite !applyTransform_compose.
  rewrite (applyTransform_ext _
             (fun p => axisMap
                         (fst anchor + fst (vsub c1 (Ol.rotateCoord (- a) anchor c1))
                          - sx * fst (Ol.rotateCoord (- a) c0 anchor))
                         (snd anchor + snd (vsub c1 (Ol.rotateCoord (- a) anchor c1))
                          - sy * snd (Ol.rotateCoord (- a) c0 anchor))
                         sx sy (Ol.rotateCoord (- a) c0 p)) g).
  - rewrite <- (applyTransform_compose (axisMap _ _ sx sy) (Ol.rotateCoord (- a) c0)).
    apply getExtent_axisMap; assumption.
  - intros p. apply scaledAbout_normal.
Qed.

Lemma scalingOf_size_scaled (a sx sy : R) (anchor : Coordinate) (g : Geometry) (k k' : Z) :
  0 <= sx -> 0 <= sy ->
  w (scalingOf a (scaledAbout a sx sy anchor g) k') = sx * w (scalingOf a g k) /\
  h (scalingOf a (scaledAbout a sx sy anchor g) k') = sy * h (scalingOf a g k).
Proof.
  intros Hsx Hsy.
  destruct (scalingOf_size a (scaledAbout a sx sy anchor g) k') as [-> ->].
  destruct (scalingOf_size a g k) as [-> ->].
  destruct (normalExtent_scaledAbout a sx sy anchor g Hsx Hsy) as (ax & ay & ->).
  cbn [axisMapExtent minX minY maxX maxY]. split; ring.
Qed.

Lemma side_handle_factor (sc : ScalingSelection) (P : Coordinate) :
  (In (handleIdx sc) [1; 5]%Z -> snd (scaleFactors sc P) = 1) /\
  (In (handleIdx sc) [3; 7]%Z -> fst (scaleFactors sc P) = 1).
Proof.
  rewrite scaleFactors_eq. cbn [fst snd In].
  split; intros [<- | [<- | []]]; cbn [scaleDeltas fst snd]; unfold Rdiv; ring.
Qed.

(** X19. A scale frame multiplies the box of every selected shape by its
    factors.  When the factors of a frame are not negative, the width and
    the height of the oriented box of each selected shape after the frame
    are those before the press times [scaleX] and [scaleY], whatever the
    shape's angle.  A handle in the middle of the left or right side
    (index 1 or 5) gives [scaleY = 1] and so keeps every height, one in the
    middle of the top or bottom side (3 or 7) gives [scaleX = 1] and keeps
    every width. *)
Theorem scale_frame_multiplies_the_box
    (t0 t1 : Transform) (down evt : MapBrowserEvent) (frames : list MapBrowserEvent) :
  handleDownEvent down t0 = Some (t1, true) ->
  _mode t1 = scale ->
  NoDup (_selections t0) ->
  w (_scalingSelection t1) <> 0 -> h (_scalingSelection t1) <> 0 ->
  0 <= fst (scaleFactors (_scalingSelection t1) (evtCoordinate evt)) ->
  0 <= snd (scaleFactors (_scalingSelection t1) (evtCoordinate evt)) ->
  exists t2,
    dragFrames (frames ++ [evt]) t1 = Some t2 /\
    (forall live k k',
        In live (_selections t1) ->
        w (scalingOf (angleOrZero (store t2 live)) (geometry (store t2 live)) k')
        = fst (scaleFactors (_scalingSelection t1) (evtCoordinate evt))
          * w (scalingOf (angleOrZero (store t0 live)) (geometry (store t0 live)) k) /\
        h (scalingOf (angleOrZero (store t2 live)) (geometry (store t2 live)) k')
        = snd (scaleFactors (_scalingSelection t1) (evtCoordinate evt))
          * h (scalingOf (angleOrZero (store t0 live)) (geometry (store t0 live)) k)) /\
    (In (handleIdx (_scalingSelection t1)) [1; 5]%Z ->
     snd (scaleFactors (_scalingSelection t1) (evtCoordinate evt)) = 1) /\
    (In (handleIdx (_scalingSelection t1)) [3; 7]%Z ->
     fst (scaleFactors (_scalingSelection t1) (evtCoordinate evt)) = 1).
Proof.
  intros Hdown Hm Hnd0 _ _ Hfx Hfy.
  pose proof (handleDownEvent_NoDup _ _ _ Hnd0 Hdown) as Hnd.
  destruct (handleDownEvent_policy down t0) as (t1' & Hd & _ & Hsnap & Hst0 & _).
  rewrite Hdown in Hd. injection Hd as <- _.
  destruct (scale_frame_result t1 frames evt Hm Hnd Hsnap) as (t2 & Hrun & _ & _ & _ & Hst).
  exists t2. split; [exact Hrun|].
  split; [|apply side_handle_factor].
  intros live k k' Hin. rewrite (Hst live Hin), Hst0.
  set (f := store t0 live).
  change (angleOrZero (mkFeature ?g (angle f))) with (angleOrZero f).
  cbn [geometry]. unfold scaledGeometry.
  change (Ol.rotate ?a ?o (Ol.scale ?sx ?sy ?o (Ol.rotate (- ?a) ?o ?g)))
    with (scaledAbout a sx sy o g).
  apply scalingOf_size_scaled; assumption.
Qed.

(** The square grabbed by its top-right handle and dragged to (20,20)
    doubles in width and height. *)
Lemma scale_frame_multiplies_the_box_witness :
  exists t2,
    dragFrames ([] ++ [dragTo (20, 20)]) (squareGrabbed None 6 (10, 10)) = Some t2 /\
    (forall live k k',
        In live (_selections (squareGrabbed None 6 (10, 10))) ->
        w (scalingOf (angleOrZero (store t2 live)) (geometry (store t2 live)) k')
        = fst (scaleFactors (_scalingSelection (squareGrabbed None 6 (10, 10)))
                 (evtCoordinate (dragTo (20, 20))))
          * w (scalingOf (angleOrZero (store (selectedSquare None) live))
                 (geometry (store (selectedSquare None) live)) k) /\
        h (scalingOf (angleOrZero (store t2 live)) (geometry (store t2 live)) k')
        = snd (scaleFactors (_scalingSelection (squareGrabbed None 6 (10, 10)))
                 (evtCoordinate (dragTo (20, 20))))
          * h (scalingOf (angleOrZero (store (selectedSquare None) live))
                 (geometry (store (selectedSquare None) live)) k)) /\
    (In (handleIdx (_scalingSelection (squareGrabbed None 6 (10, 10)))) [1; 5]%Z ->
     snd (scaleFactors (_scalingSelection (squareGrabbed None 6 (10, 10)))
            (evtCoordinate (dragTo (20, 20)))) = 1) /\
    (In (handleIdx (_scalingSelection (squareGrabbed None 6 (10, 10)))) [3; 7]%Z ->
     fst (scaleFactors (_scalingSelection (squareGrabbed None 6 (10, 10)))
            (evtCoordinate (dragTo (20, 20)))) = 1).
Proof.
  assert (Hf : scaleFactors (_scalingSelection (squareGrabbed None 6 (10, 10)))
                 (evtCoordinate (dragTo (20, 20))) = (2, 2)).
  { cbn [squareGrabbed withScaling _scalingSelection dragTo evtCoordinate].
    rewrite square_factors6. f_equal; field. }
  assert (Hsc : _scalingSelection (squareGrabbed None 6 (10, 10))
                = mkScaling 0 10 10 6 2 (0, 0) (10, 10))
    by exact square_scaling6.
  apply (scale_frame_multiplies_the_box (selectedSquare None) (squareGrabbed None 6 (10, 10))
           (pressOn (Handle (mkHandle (Point (10, 10)) 0%nat scale 6)) (10, 10) false)
           (dragTo (20, 20)) []).
  - exact (press_square_handle None 6 (10, 10) I).
  - reflexivity.
  - apply NoDup_single.
  - rewrite Hsc. cbn [w]. lra.
  - rewrite Hsc. cbn [h]. lra.
  - rewrite Hf. cbn [fst]. lra.
  - rewrite Hf. cbn [snd]. lra.
Defined.

(** ** The colour of the handles *)

Lemma find_first_stroke (l1 l2 : list Style) (s : Style) :
  Forall (fun s' => getStroke s' = None) l1 -> getStroke s <> None ->
  find hasStroke (l1 ++ s :: l2) = Some s.
Proof.
  intros Hl1 Hs. induction Hl1 as [|x l1 Hx _ IH]; cbn [app find].
  - unfold hasStroke. destruct (getStroke s); [reflexivity | contradiction].
  - unfold hasStroke at 1. rewrite Hx. exact IH.
Qed.

Lemma find_no_stroke (l : list Style) :
  Forall (fun s' => getStroke s' = None) l -> find hasStroke l = None.
Proof.
  induction 1 as [|x l Hx _ IH]; cbn [find]; [reflexivity|].
  unfold hasStroke at 1. rewrite Hx. exact IH.
Qed.

(** X20. The stroke colour of the handles.  A colour configured on the
    interaction always wins.  Without one, an array of styles is decided by
    its first style that has a stroke: the handles take that stroke's
    colour, and the default gray when that stroke has no colour, even if a
    later style has a coloured stroke; an array without strokes gives the
    default.  A style function counts as the value it returns when the view
    has a resolution and is ignored, giving the default, when it has
    none. *)
Theorem handle_stroke_colour :
  (forall c styleLike resolution, handleStrokeColor (Some c) styleLike resolution = c) /\
  (forall l1 s st l2 resolution,
      Forall (fun s' => getStroke s' = None) l1 -> getStroke s = Some st ->
      handleStrokeColor None (FixedStyle (StyleArray (l1 ++ s :: l2))) resolution
      = match getColor st with
        | Some c => c
        | None => defaultStrokeColor
        end) /\
  (forall l resolution,
      Forall (fun s' => getStroke s' = None) l ->
      handleStrokeColor None (FixedStyle (StyleArray l)) resolution = defaultStrokeColor) /\
  (forall f r resolution,
      handleStrokeColor None (StyleFunction f) (Some r)
      = handleStrokeColor None (FixedStyle (f r)) resolution) /\
  (forall f, handleStrokeColor None (StyleFunction f) None = defaultStrokeColor).
Proof.
  split; [reflexivity|].
  split.
  { intros l1 s st l2 resolution Hl1 Hs. unfold handleStrokeColor, extractStrokeColor.
    rewrite (find_first_stroke l1 l2 s Hl1) by (rewrite Hs; discriminate).
    unfold strokeColorOf. rewrite Hs. reflexivity. }
  split.
  { intros l resolution Hl. unfold handleStrokeColor, extractStrokeColor.
    rewrite (find_no_stroke l Hl). reflexivity. }
  split.
  { intros f r resolution. unfold handleStrokeColor, extractStrokeColor.
    destruct (f r); reflexivity. }
  reflexivity.
Qed.
